(** * rodbot: the experience store and the agent control loop

    A shallow embedding of [rodbot/agent/memory.py] (class [MemoryStore])
    and of [AgentLoop._run_agent_loop] in [rodbot/agent/loop.py], with the
    properties of the experience ranking, reinforcement, cleanup and merge
    operations and of the error-streak handling of the control loop; and of
    what surrounds them: the long-term memory and the text search of the
    store, the extraction and the merging of experiences after a turn, the
    consolidation of a session ([rodbot/session/manager.py]), the
    throttling of progress messages and the choice of the model.

    How the Python values are modelled:
    - [str] is a byte string ([string]); the string methods act on the
      ASCII range, which is where every marker the code looks for
      ("[Quality]", "failed", "error:", ...) lives; where a statement
      says which texts share a keyword, the texts are ASCII
      ([isascii]), so that words, their lengths and their lower case are
      those of the source;
    - [int] is [Z];
    - a float is the rational it stands for ([Q]): the quotient of two
      [int]s and the product of two floats are the exact quotient and
      product rounded to the nearest double ([PyFloat.fl]), which is what
      orders the scores of a search; ages, the confidence that moves a
      quality and the thresholds they are compared with are exact;
      [math.exp] is taken from the platform;
    - the LanceDB table is the list of its rows in insertion order:
      [add] appends, [delete("key = '...'")] drops the rows of that key,
      and [search().where(..).limit(n).to_list()] returns the first [n]
      rows that satisfy the filter;
    - the provider, the tools and the secondary-model calls of the loop
      are functions of the messages exchanged so far;
    - a call of the utility model is a function of what its prompt is
      built from, and answers with the parsed JSON object or with nothing;
      what happens to a session while such a call is awaited is an
      argument of the function that awaits it. *)

From Stdlib Require Import List String Ascii ZArith QArith Qminmax Lia Bool Arith.
From Stdlib Require Import Permutation Sorted.
From Stdlib Require Import Decimal DecimalString DecimalZ DecimalPos.
Import ListNotations.

Local Open Scope list_scope.
Local Open Scope string_scope.

(* ================================================================== *)
(** ** Python string primitives *)
(* ================================================================== *)

Module PyStr.

Definition LF : ascii := "010"%char.
Definition nl : string := String LF "".

(** [c.isspace()] on the ASCII range. *)
Definition is_space (c : ascii) : bool :=
  let n := nat_of_ascii c in
  ((9 <=? n) && (n <=? 13) || (28 <=? n) && (n <=? 32))%nat.

Definition lower_ascii (c : ascii) : ascii :=
  let n := nat_of_ascii c in
  if ((65 <=? n) && (n <=? 90))%nat then ascii_of_nat (n + 32) else c.

(** [s.lower()] *)
Fixpoint lower (s : string) : string :=
  match s with
  | "" => ""
  | String c s' => String (lower_ascii c) (lower s')
  end.

(** [s.startswith(p)] *)
Definition startswith (s p : string) : bool := String.prefix p s.

(** [sub in s] *)
Fixpoint contains (sub s : string) : bool :=
  String.prefix sub s ||
  match s with
  | "" => false
  | String _ s' => contains sub s'
  end.

(** [s.split(sep)] for a one-character separator: never the empty list. *)
Fixpoint split_char (sep : ascii) (s : string) : list string :=
  match s with
  | "" => [""]
  | String c s' =>
      if Ascii.eqb c sep then "" :: split_char sep s'
      else match split_char sep s' with
           | [] => [String c ""]
           | l :: ls => String c l :: ls
           end
  end.

(** [s.split("\n")] and ["\n".join(lines)] *)
Definition lines (s : string) : list string := split_char LF s.
Definition unlines (ls : list string) : string := String.concat nl ls.

(** [s.split(sep, 1)[1]]: the text after the first [sep]; [None] stands for
    the [IndexError] raised when [sep] does not occur. *)
Fixpoint after_first (sep : ascii) (s : string) : option string :=
  match s with
  | "" => None
  | String c s' => if Ascii.eqb c sep then Some s' else after_first sep s'
  end.

Fixpoint lstrip (s : string) : string :=
  match s with
  | "" => ""
  | String c s' => if is_space c then lstrip s' else s
  end.

Fixpoint rstrip (s : string) : string :=
  match s with
  | "" => ""
  | String c s' =>
      match rstrip s' with
      | "" => if is_space c then "" else String c ""
      | t => String c t
      end
  end.

(** [s.strip()] *)
Definition strip (s : string) : string := rstrip (lstrip s).

(** [s.split()]: the maximal runs of non-space characters. *)
Fixpoint split_ws_go (s : string) : string * list string :=
  match s with
  | "" => ("", [])
  | String c s' =>
      let (w, ws) := split_ws_go s' in
      if is_space c
      then ("", if (w =? "")%string then ws else w :: ws)
      else (String c w, ws)
  end.

Definition split_ws (s : string) : list string :=
  let (w, ws) := split_ws_go s in
  if (w =? "")%string then ws else w :: ws.

(** [s[:n]] for [n >= 0] *)
Definition take (n : nat) (s : string) : string := String.substring 0 n s.

Definition digit_of (c : ascii) : option Z :=
  let n := nat_of_ascii c in
  if ((48 <=? n) && (n <=? 57))%nat then Some (Z.of_nat (n - 48)) else None.

(** The digits of an integer literal; single underscores may separate
    digits.  [prev] tells whether the previous character was a digit. *)
Fixpoint parse_digits (acc : Z) (prev : bool) (s : string) : option Z :=
  match s with
  | "" => if prev then Some acc else None
  | String c s' =>
      match digit_of c with
      | Some d => parse_digits (10 * acc + d) true s'
      | None =>
          if Ascii.eqb c "_" && prev then
            match s' with
            | "" => None
            | _ => parse_digits acc false s'
            end
          else None
      end
  end.

(** [int(s)]; [None] stands for [ValueError]. *)
Definition py_int (s : string) : option Z :=
  match strip s with
  | String "-" r => option_map Z.opp (parse_digits 0 false r)
  | String "+" r => parse_digits 0 false r
  | t => parse_digits 0 false t
  end.

(** [str(z)] *)
Definition str (z : Z) : string := NilZero.string_of_int (Z.to_int z).

(** [l[-n:]] for [n > 0] *)
Definition lastn {A} (n : nat) (l : list A) : list A :=
  skipn (List.length l - n) l.

(** [l[:n]] for an arbitrary Python integer [n] *)
Definition slice_to {A} (n : Z) (l : list A) : list A :=
  if (0 <=? n)%Z then firstn (Z.to_nat n) l
  else firstn (List.length l - Z.to_nat (- n)) l.

(** [s.isascii()].  On such a text the methods above are those of
    [str]: a character is a byte, [len] counts them, [lower] maps A-Z and
    [split] cuts at the six ASCII blanks and the four separators 28-31. *)
Fixpoint isascii (s : string) : bool :=
  match s with
  | "" => true
  | String c s' => (nat_of_ascii c <? 128)%nat && isascii s'
  end.

End PyStr.

Import PyStr.

(* ================================================================== *)
(** ** Python dictionaries *)
(* ================================================================== *)

(** A [dict] with string keys keeps its entries in insertion order, and
    [values()] lists them in that order: an association list whose keys
    are kept distinct by the operations. *)

Module Dict.

Definition dict (V : Type) : Type := list (string * V).

(** [d.get(k)] *)
Fixpoint get {V} (d : dict V) (k : string) : option V :=
  match d with
  | [] => None
  | (k', v) :: d' => if (k' =? k)%string then Some v else get d' k
  end.

(** [d[k] = v] *)
Fixpoint set {V} (d : dict V) (k : string) (v : V) : dict V :=
  match d with
  | [] => [(k, v)]
  | (k', v') :: d' =>
      if (k' =? k)%string then (k', v) :: d' else (k', v') :: set d' k v
  end.

(** [d.setdefault(k, v)], for its effect on [d] *)
Definition setdefault {V} (d : dict V) (k : string) (v : V) : dict V :=
  match get d k with
  | Some _ => d
  | None => (d ++ [(k, v)])%list
  end.

(** [d.setdefault(k, []).append(x)] *)
Definition append_to {A} (d : dict (list A)) (k : string) (x : A)
  : dict (list A) :=
  match get d k with
  | Some l => set d k (l ++ [x])%list
  | None => (d ++ [(k, [x])])%list
  end.

(** [d.values()] *)
Definition values {V} (d : dict V) : list V := map snd d.

End Dict.

(* ================================================================== *)
(** ** Python floats *)
(* ================================================================== *)

(** A Python [float] is an IEEE 754 double.  A finite double is a
    rational, and [int / int], [float(int)] and [float * float] return
    the double nearest to the exact result, the one with the even
    significand of two that are equally near.  Results beyond the range
    of the doubles (an [int] of more than 308 digits) are left out. *)

Module PyFloat.

(** The integer nearest to [n / d], the even one of two that are equally
    near. *)
Definition round_half_even (n : Z) (d : positive) : Z :=
  let q := (n / Zpos d)%Z in
  let r := (n mod Zpos d)%Z in
  match (2 * r ?= Zpos d)%Z with
  | Lt => q
  | Gt => (q + 1)%Z
  | Eq => if Z.even q then q else (q + 1)%Z
  end.

(** The exponent of the last bit of the 53-bit significand of the doubles
    around [n / d]: the [e] with [2^52 <= (n / d) / 2^e < 2^53], and
    [-1074] in the subnormal range. *)
Definition ulp_exponent (n d : positive) : Z :=
  let l := (Z.log2 (Zpos n) - Z.log2 (Zpos d))%Z in
  let below :=
    if (0 <=? l)%Z then (Zpos n <? Zpos d * 2 ^ l)%Z
    else (Zpos n * 2 ^ (- l) <? Zpos d)%Z in
  Z.max (-1074) ((if below then l - 1 else l) - 52).

Definition fl_pos (n d : positive) : Q :=
  let e := ulp_exponent n d in
  if (0 <=? e)%Z
  then inject_Z (round_half_even (Zpos n) (d * Z.to_pos (2 ^ e)) * 2 ^ e)
  else round_half_even (Zpos n * 2 ^ (- e)) d # Z.to_pos (2 ^ (- e)).

(** [fl x]: the double nearest to [x]. *)
Definition fl (x : Q) : Q :=
  match Qnum x with
  | Z0 => 0
  | Zpos n => fl_pos n (Qden x)
  | Zneg n => - fl_pos n (Qden x)
  end.

(** [float(z)], as in [z * x] for a float [x] *)
Definition of_int (z : Z) : Q := fl (inject_Z z).

(** [a * b] on floats *)
Definition mul (a b : Q) : Q := fl (a * b).

(** [a / b] on [int]s, [b] not zero *)
Definition div_int (a b : Z) : Q := fl (inject_Z a / inject_Z b).

End PyFloat.

(* ================================================================== *)
(** ** What the store takes from its platform *)
(* ================================================================== *)

(** [datetime.fromisoformat], [datetime.isoformat] and [math.exp] are
    library code.  An instant is a count of microseconds; [fromisoformat]
    answers [None] where the source catches [ValueError] or [TypeError].
    [exp x] is the float that [math.exp] returns for the float the source
    holds where the exact value is [x]. *)

Class Platform : Type := {
  fromisoformat : string -> option Z;
  isoformat : Z -> string;
  exp : Q -> Q
}.

Definition Qltb (a b : Q) : bool := negb (Qle_bool b a).

(* ================================================================== *)
(** ** The experience store ([MemoryStore]) *)
(* ================================================================== *)

Module Memory.

Section WithPlatform.
Context {platform : Platform}.

(** A row of the "memory" table.  A field that a row lacks reads as the
    empty string, as [r.get("content") or ""], [r.get("updated_at", "")]
    and the truth test on [r.get("key")] make it in the source. *)
Record row : Type := mkRow {
  key : string;
  content : string;
  type_ : string;
  updated_at : string
}.

Definition table : Type := list row.

(** The row the "memory" table is created with. *)
Definition _SAMPLE : table := [mkRow "_init_" "" "long_term" ""].

(** [tbl.add([r])] *)
Definition tbl_add (t : table) (r : row) : table := (t ++ [r])%list.

(** [tbl.delete(f"key = '{k}'")] *)
Definition tbl_delete_key (t : table) (k : string) : table :=
  filter (fun r => negb (key r =? k)%string) t.

(** [tbl.search().where(f"type = '{ty}'").limit(n).to_list()] *)
Definition tbl_where_type (t : table) (ty : string) (n : nat) : list row :=
  firstn n (filter (fun r => (type_ r =? ty)%string) t).

(** *** Content fields *)

Definition tag (field : string) : string := "[" ++ field ++ "]".

Fixpoint parse_int_lines (ls : list string) (field : string) (default : Z)
  : Z :=
  match ls with
  | [] => default
  | line :: rest =>
      if startswith line (tag field) then
        match after_first "]" line with
        | Some t =>
            match py_int (strip t) with
            | Some z => z
            | None => parse_int_lines rest field default
            end
        | None => parse_int_lines rest field default
        end
      else parse_int_lines rest field default
  end.

Definition _parse_int_field (content field : string) (default : Z) : Z :=
  parse_int_lines (lines content) field default.

Definition _parse_quality (content : string) : Z :=
  _parse_int_field content "Quality" 3.

Fixpoint set_field_lines (ls : list string) (field value : string)
  : list string :=
  match ls with
  | [] => [tag field ++ " " ++ value]
  | line :: rest =>
      if startswith line (tag field)
      then (tag field ++ " " ++ value) :: rest
      else line :: set_field_lines rest field value
  end.

Definition _set_field (content field value : string) : string :=
  unlines (set_field_lines (lines content) field value).

Fixpoint parse_field_lines (ls : list string) (field : string) : string :=
  match ls with
  | [] => ""
  | line :: rest =>
      if startswith line (tag field) then
        match after_first "]" line with
        | Some t => strip t
        | None => ""
        end
      else parse_field_lines rest field
  end.

Definition _parse_field (content field : string) : string :=
  parse_field_lines (lines content) field.

Definition is_deprecated (content : string) : bool :=
  contains "[Deprecated]" content.

(** *** Age, confidence, score *)

Definition day_us : Z := 86400000000.

Definition _days_since (ts : string) (now : Z) : Q :=
  if (ts =? "")%string then 30
  else match fromisoformat ts with
       | Some dt => Qmax 0 (inject_Z (now - dt) / inject_Z day_us)
       | None => 30
       end.

Definition _confidence (content : string) : Q :=
  let uses := _parse_int_field content "Uses" 0 in
  let successes := _parse_int_field content "Successes" 0 in
  if (uses <? 2)%Z then 1 else PyFloat.div_int successes uses.

(** [quality * decay * conf] of [search_experience]: an [int] times a
    float, times a float. *)
Definition score_of (now : Z) (r : row) : Q :=
  let quality := _parse_quality (content r) in
  let days_old := _days_since (updated_at r) now in
  let decay := exp (- (2 # 100) * days_old) in
  let conf := _confidence (content r) in
  PyFloat.mul (PyFloat.mul (PyFloat.of_int quality) decay) conf.

(** *** Writing *)

Definition experience_content
  (task outcome lessons : string) (quality : Z)
  (category keywords reasoning_trace : string) : string :=
  let content :=
    "[Task] " ++ task ++ nl ++ "[Outcome] " ++ outcome ++ nl ++
    "[Category] " ++ category ++ nl ++ "[Quality] " ++ str quality ++ nl ++
    "[Uses] 0" ++ nl ++ "[Successes] 0" ++ nl ++ "[Lessons] " ++ lessons in
  let content :=
    if (keywords =? "")%string then content
    else content ++ nl ++ "[Keywords] " ++ keywords in
  if (reasoning_trace =? "")%string then content
  else content ++ nl ++ "[Trace] " ++ reasoning_trace.

(** [now] is the instant [datetime.now()] returns in the call. *)
Definition append_experience (now : Z) (t : table)
  (task outcome lessons : string) (quality : Z)
  (category keywords reasoning_trace : string) : table :=
  let ts := isoformat now in
  tbl_add t
    (mkRow ("experience_" ++ ts)
       (experience_content task outcome lessons quality category keywords
          reasoning_trace)
       "experience" ts).

(** *** Keyword matching *)

(** [{w.lower() for w in text.split() if len(w) >= 2}], for ASCII text:
    there a character is a byte, and the words, their lengths and their
    lower case are those of the source.  (Outside ASCII the source counts
    and lowers code points; the statements that name the keywords of a
    text ask for [isascii].) *)
Definition keywords_of (text : string) : list string :=
  nodup string_dec
    (map lower (filter (fun w => (2 <=? String.length w)%nat) (split_ws text))).

(** [sum(1 for kw in keywords if kw in content.lower())] *)
Definition hits (keywords : list string) (content : string) : nat :=
  List.length (filter (fun kw => contains kw (lower content)) keywords).

(** [hits >= len(keywords) * threshold] *)
Definition overlaps (keywords : list string) (content : string)
  (threshold : Q) : bool :=
  Qle_bool (inject_Z (Z.of_nat (List.length keywords)) * threshold)
    (inject_Z (Z.of_nat (hits keywords content))).

Definition _match_experience_rows (t : table) (task_desc : string)
  (threshold : Q) : list (row * string) :=
  let rows := tbl_where_type t "experience" 100 in
  let keywords := keywords_of task_desc in
  match keywords with
  | [] => []
  | _ =>
      fold_left
        (fun results r =>
           if is_deprecated (content r) then results
           else if overlaps keywords (content r) threshold
                then (results ++ [(r, content r)])%list
                else results)
        rows []
  end.

Definition _update_experience_row (t : table) (r : row)
  (new_content : string) : table :=
  if (key r =? "")%string then t
  else tbl_add (tbl_delete_key t (key r))
         (mkRow (key r) new_content "experience" (updated_at r)).

(** *** Reinforcement and deprecation *)

Definition deprecate_similar (t : table) (task_desc : string) : table * Z :=
  fold_left
    (fun (st : table * Z) (m : row * string) =>
       let (t, count) := st in
       let (r, content) := m in
       (_update_experience_row t r ("[Deprecated] " ++ content),
        (count + 1)%Z))
    (_match_experience_rows t task_desc (5 # 10)) (t, 0%Z).

(** The body of the loop of [record_reuse]: the content written back. *)
Definition reuse_content (content : string) (success : bool) : string :=
  let uses := (_parse_int_field content "Uses" 0 + 1)%Z in
  let successes :=
    (_parse_int_field content "Successes" 0 + (if success then 1 else 0))%Z in
  let updated := _set_field content "Uses" (str uses) in
  let updated := _set_field updated "Successes" (str successes) in
  if (3 <=? uses)%Z then
    let conf := inject_Z successes / inject_Z uses in
    let current_q := _parse_quality updated in
    let new_q :=
      if Qle_bool (8 # 10) conf then Z.min 5 (current_q + 1)
      else if Qltb conf (4 # 10) then Z.max 1 (current_q - 1)
      else current_q in
    _set_field updated "Quality" (str new_q)
  else updated.

Definition record_reuse (t : table) (task_desc : string) (success : bool)
  : table * Z :=
  fold_left
    (fun (st : table * Z) (m : row * string) =>
       let (t, count) := st in
       let (r, content) := m in
       (_update_experience_row t r (reuse_content content success),
        (count + 1)%Z))
    (_match_experience_rows t task_desc (4 # 10)) (t, 0%Z).

(** *** Cleanup *)

Definition should_remove (now : Z) (max_deprecated_days max_low_quality_days : Z)
  (r : row) : bool :=
  let days_old := _days_since (updated_at r) now in
  (is_deprecated (content r) && Qltb (inject_Z max_deprecated_days) days_old)
  || ((_parse_quality (content r) <=? 1)%Z
      && Qltb (inject_Z max_low_quality_days) days_old).

Definition cleanup_stale (now : Z) (t : table)
  (max_deprecated_days max_low_quality_days : Z) : table * Z :=
  fold_left
    (fun (st : table * Z) (r : row) =>
       let (t, removed) := st in
       if should_remove now max_deprecated_days max_low_quality_days r
          && negb (key r =? "")%string
       then (tbl_delete_key t (key r), (removed + 1)%Z)
       else st)
    (tbl_where_type t "experience" 500) (t, 0%Z).

(** *** Merging *)

Definition category_of (content : string) : string :=
  let c := _parse_field content "Category" in
  if (c =? "")%string then "general" else c.

Definition get_merge_candidates (t : table) (min_count : Z)
  : list (list string) :=
  let rows := tbl_where_type t "experience" 200 in
  let active := filter (fun r => negb (is_deprecated (content r))) rows in
  if (Z.of_nat (List.length active) <? min_count)%Z then []
  else
    let groups :=
      fold_left
        (fun (groups : Dict.dict (list string)) (r : row) =>
           Dict.append_to groups (category_of (content r)) (content r))
        active [] in
    filter (fun entries => (3 <=? List.length entries)%nat)
      (Dict.values groups).

Definition replace_merged (now : Z) (t : table) (old_entries : list string)
  (merged_content : string) : table :=
  let rows := tbl_where_type t "experience" 200 in
  let content_to_key :=
    fold_left (fun (d : Dict.dict string) (r : row) =>
                 Dict.set d (content r) (key r)) rows [] in
  let t :=
    fold_left
      (fun (t : table) (entry : string) =>
         match Dict.get content_to_key entry with
         | Some k => if (k =? "")%string then t else tbl_delete_key t k
         | None => t
         end)
      old_entries t in
  let ts := isoformat now in
  tbl_add t (mkRow ("experience_merged_" ++ ts) merged_content "experience" ts).

(** *** Ranked retrieval *)

(** [l.sort(key=lambda x: x[0], reverse=True)]: stable, descending. *)
Fixpoint insert_desc (x : Q * string) (l : list (Q * string))
  : list (Q * string) :=
  match l with
  | [] => [x]
  | y :: l' =>
      if Qle_bool (fst y) (fst x) then x :: y :: l' else y :: insert_desc x l'
  end.

Definition sort_desc (l : list (Q * string)) : list (Q * string) :=
  fold_right insert_desc [] l.

(** The rows the keyword fallback of [search_experience] considers. *)
Definition fallback_candidates (t : table) (query : string) : list row :=
  let rows := tbl_where_type t "experience" 100 in
  let keywords := keywords_of query in
  match keywords with
  | [] => rows
  | _ => filter (fun r => (0 <? hits keywords (content r))%nat) rows
  end.

(** [semantic] is what the vector query returned, and is empty when no
    embedding is configured or the query failed; its rows come from the
    vector table and carry no key and no timestamp. *)
Definition candidates_of (t : table) (semantic : list row) (query : string)
  : list row :=
  match semantic with
  | [] => fallback_candidates t query
  | _ => semantic
  end.

Definition is_failed (content : string) : bool :=
  (_parse_field content "Outcome" =? "failed")%string.

(** The scoring loop: the [positive] and the [warnings] list. *)
Definition buckets (now : Z) (candidates : list row)
  : list (Q * string) * list (Q * string) :=
  fold_left
    (fun (pw : list (Q * string) * list (Q * string)) (r : row) =>
       let (positive, warnings) := pw in
       if is_deprecated (content r) then pw
       else
         let score := score_of now r in
         if is_failed (content r)
         then (positive, (warnings ++ [(score, content r)])%list)
         else ((positive ++ [(score, content r)])%list, warnings))
    candidates ([], []).

Definition conflict_text (cat prev_outcome outcome content : string)
  : string :=
  "⚡ CONFLICTING experience (category '" ++ cat ++ "' has both " ++
  prev_outcome ++ " and " ++ outcome ++ "):" ++ nl ++ content.

Definition warning_text (content : string) : string :=
  "⚠️ WARNING from past failure:" ++ nl ++ content.

(** The selection loop over the sorted positive entries. *)
Fixpoint select_positive (limit : Z) (positive : list (Q * string))
  (results : list string) (seen_categories : Dict.dict string)
  : list string :=
  match positive with
  | [] => results
  | (_, content) :: rest =>
      if (limit - 1 <=? Z.of_nat (List.length results))%Z then results
      else
        let cat := category_of content in
        let outcome := _parse_field content "Outcome" in
        let content :=
          match Dict.get seen_categories cat with
          | Some prev_outcome =>
              if negb (prev_outcome =? "")%string
                 && negb (prev_outcome =? outcome)%string
              then conflict_text cat prev_outcome outcome content
              else content
          | None => content
          end in
        select_positive limit rest (results ++ [content])%list
          (Dict.setdefault seen_categories cat outcome)
  end.

Definition rank (now : Z) (candidates : list row) (limit : Z) : list string :=
  let (positive, warnings) := buckets now candidates in
  let positive := sort_desc positive in
  let warnings := sort_desc warnings in
  let results := select_positive limit positive [] [] in
  let results :=
    match warnings with
    | [] => results
    | w :: _ => (results ++ [warning_text (snd w)])%list
    end in
  slice_to limit results.

Definition search_experience (now : Z) (t : table) (semantic : list row)
  (query : string) (limit : Z) : list string :=
  rank now (candidates_of t semantic query) limit.

(** *** Long-term memory, history and free-text search *)

(** The writes also hand the text to [_embed_and_store], which only touches
    the vector table; that table is not part of this model, and what a
    vector query returns is an argument of the searches. *)

(** [tbl.search().where(f"key = '{k}'").limit(n).to_list()] *)
Definition tbl_where_key (t : table) (k : string) (n : nat) : list row :=
  firstn n (filter (fun r => (key r =? k)%string) t).

Definition read_long_term (t : table) : string :=
  match tbl_where_key t "long_term" 1 with
  | r :: _ => content r
  | [] => ""
  end.

Definition write_long_term (now : Z) (t : table) (text : string) : table :=
  tbl_add (tbl_delete_key t "long_term")
    (mkRow "long_term" text "long_term" (isoformat now)).

Definition append_history (now : Z) (t : table) (entry : string) : table :=
  let ts := isoformat now in
  tbl_add t (mkRow ("history_" ++ ts) (rstrip entry) "history" ts).

Definition get_memory_context (t : table) : string :=
  let long_term := read_long_term t in
  if (long_term =? "")%string then ""
  else "## Long-term Memory" ++ nl ++ long_term.

(** [sorted(..., key=lambda x: x[0], reverse=True)] on hit counts. *)
Fixpoint insert_hits (x : nat * string) (l : list (nat * string))
  : list (nat * string) :=
  match l with
  | [] => [x]
  | y :: l' =>
      if (fst y <=? fst x)%nat then x :: y :: l' else y :: insert_hits x l'
  end.

Definition sort_hits (l : list (nat * string)) : list (nat * string) :=
  fold_right insert_hits [] l.

(** The [where] clause of [_fallback_text_search]. *)
Definition type_matches (type_filter : option string) (r : row) : bool :=
  match type_filter with
  | Some ty =>
      if (ty =? "")%string then negb (type_ r =? "_init_")%string
      else (type_ r =? ty)%string
  | None => negb (type_ r =? "_init_")%string
  end.

Definition _fallback_text_search (t : table) (query : string)
  (type_filter : option string) (limit : Z) : list string :=
  let rows := firstn 100 (filter (type_matches type_filter) t) in
  match rows with
  | [] => []
  | _ =>
      let keywords := keywords_of query in
      match keywords with
      | [] =>
          filter (fun c => negb (c =? "")%string)
            (map content (slice_to limit rows))
      | _ =>
          let scored :=
            sort_hits
              (map (fun r => (hits keywords (content r), content r))
                 (filter (fun r => (0 <? hits keywords (content r))%nat)
                    rows)) in
          map snd (slice_to limit scored)
      end
  end.

(** [semantic] is [Some rows] when an embedding is configured and the
    vector query, limited to [limit] rows, succeeded. *)
Definition search_memory (t : table) (semantic : option (list row))
  (query : string) (limit : Z) : list string :=
  match semantic with
  | Some rows => filter (fun c => negb (c =? "")%string) (map content rows)
  | None => _fallback_text_search t query None limit
  end.

(** *** Boosting *)

Fixpoint replace_field_lines (ls : list string) (field value : string)
  : option (list string) :=
  match ls with
  | [] => None
  | line :: rest =>
      if startswith line (tag field)
      then Some ((tag field ++ " " ++ value) :: rest)
      else option_map (cons line) (replace_field_lines rest field value)
  end.

Definition _replace_field (content field value : string) : string :=
  match replace_field_lines (lines content) field value with
  | Some ls => unlines ls
  | None => content
  end.

Definition boost_experience (t : table) (task_desc : string) (delta : Z)
  : table * Z :=
  fold_left
    (fun (st : table * Z) (m : row * string) =>
       let (t, count) := st in
       let (r, content) := m in
       let old_q := _parse_quality content in
       let new_q := Z.max 1 (Z.min 5 (old_q + delta)) in
       if (new_q =? old_q)%Z then st
       else
         (_update_experience_row t r
            (_replace_field content "Quality" (str new_q)),
          (count + 1)%Z))
    (_match_experience_rows t task_desc (4 # 10)) (t, 0%Z).

End WithPlatform.

End Memory.

(* ================================================================== *)
(** ** The agent control loop ([AgentLoop._run_agent_loop]) *)
(* ================================================================== *)

Module Agent.

Definition dq : string := String "034"%char "".

(** A JSON value of a tool-call argument: a string, or anything else with
    its [str()] rendering. *)
Inductive json : Type :=
| JStr (s : string)
| JOther (rendering : string).

Definition str_of_json (v : json) : string :=
  match v with
  | JStr s => s
  | JOther s => s
  end.

Record ToolCallRequest : Type := mkToolCall {
  tc_id : string;
  tc_name : string;
  tc_arguments : list (string * json)
}.

Record LLMResponse : Type := mkResponse {
  resp_content : option string;
  resp_tool_calls : list ToolCallRequest;
  resp_reasoning_content : option string
}.

Definition has_tool_calls (r : LLMResponse) : bool :=
  (0 <? List.length (resp_tool_calls r))%nat.

(** The message dictionaries, by role. *)
Inductive message : Type :=
| UserMsg (content : string)
| UserParts
| AssistantMsg (content : option string) (tool_calls : list ToolCallRequest)
    (reasoning_content : option string)
| ToolMsg (tool_call_id name content : string)
| SystemMsg (content : string).

(** The collaborators the loop awaits.  [chat] and [execute] see the
    messages exchanged so far, so that they may answer differently at each
    call. *)
Class World : Type := {
  chat : list message -> LLMResponse;
  execute : list message -> ToolCallRequest -> string;
  _compress_state :
    list string -> list string -> list string -> option string ->
    option string;
  _check_sufficiency : string -> list string -> bool;
  json_dumps : list (string * json) -> string
}.

Definition _ERROR_KEYWORDS : list string :=
  ["error:"; "traceback"; "failed"; "exception"; "permission denied"].

(** [isinstance(result, str) and any(kw in result.lower() for kw in
    _ERROR_KEYWORDS)], for the strings the tool registry returns. *)
Definition has_error (result : string) : bool :=
  existsb (fun kw => contains kw (lower result)) _ERROR_KEYWORDS.

Definition drop (n : nat) (s : string) : string :=
  String.substring n (String.length s - n) s.

(** [re.sub(r"<think>[\s\S]*?</think>", "", text)]: [skip] characters are
    still to be dropped. *)
Fixpoint strip_think_go (skip : nat) (s : string) : string :=
  match s with
  | "" => ""
  | String c s' =>
      match skip with
      | S k => strip_think_go k s'
      | O =>
          if String.prefix "<think>" s then
            match String.index 0 "</think>" (drop 7 s) with
            | Some i => strip_think_go (6 + i + 8) s'
            | None => String c (strip_think_go 0 s')
            end
          else String c (strip_think_go 0 s')
      end
  end.

Definition _strip_think (text : option string) : option string :=
  match text with
  | None => None
  | Some "" => None
  | Some t =>
      match strip (strip_think_go 0 t) with
      | "" => None
      | r => Some r
      end
  end.

Definition first_value (args : list (string * json)) : option json :=
  match args with
  | [] => None
  | (_, v) :: _ => Some v
  end.

Definition join (sep : string) (l : list string) : string :=
  String.concat sep l.

Definition _tool_hint (tool_calls : list ToolCallRequest) : string :=
  join ", "
    (map (fun tc =>
            match first_value (tc_arguments tc) with
            | Some (JStr val) =>
                if (40 <? String.length val)%nat
                then tc_name tc ++ "(" ++ dq ++ take 40 val ++ "â€¦" ++ dq ++ ")"
                else tc_name tc ++ "(" ++ dq ++ val ++ dq ++ ")"
            | _ => tc_name tc
            end)
       tool_calls).

Record loop_state : Type := mkState {
  messages : list message;
  iteration : Z;
  final_content : option string;
  tools_used : list string;
  tool_trace : list string;
  reasoning_snippets : list string;
  consecutive_errors : Z;
  total_errors : Z;
  failed_directions : list string;
  last_state_at : nat;
  last_state_text : option string;
  progress : list string
}.

Definition add_message (st : loop_state) (m : message) : loop_state :=
  mkState (messages st ++ [m])%list (iteration st) (final_content st)
    (tools_used st) (tool_trace st) (reasoning_snippets st)
    (consecutive_errors st) (total_errors st) (failed_directions st)
    (last_state_at st) (last_state_text st) (progress st).

Definition escalated_feedback (failed_directions : list string) : string :=
  "Multiple tool errors occurred. STOP retrying the same approach." ++ nl ++
  "Failed directions so far: " ++ join "; " (lastn 5 failed_directions) ++ nl ++
  "Try a completely different strategy.".

Definition mild_feedback (failed_directions : list string) : string :=
  let failed_hint :=
    if (1 <? List.length failed_directions)%nat
    then nl ++ "Already tried and failed: " ++
         join "; " (lastn 3 failed_directions)
    else "" in
  "The tool returned an error. Analyze what went wrong and try a different approach."
  ++ failed_hint.

(** [error_feedback] as it stands after the tool calls of a round. *)
Definition error_feedback (st : loop_state) : option string :=
  if (3 <=? consecutive_errors st)%Z
  then Some (escalated_feedback (failed_directions st))
  else if (0 <? consecutive_errors st)%Z
       then Some (mild_feedback (failed_directions st))
       else None.

Definition inject_feedback (st : loop_state) : loop_state :=
  match error_feedback st with
  | Some text => if (text =? "")%string then st else add_message st (UserMsg text)
  | None => st
  end.

Section WithWorld.
Context {world : World}.

(** The body of [for tool_call in response.tool_calls]. *)
Definition run_tool (st : loop_state) (tool_call : ToolCallRequest)
  : loop_state :=
  let args_str := json_dumps (tc_arguments tool_call) in
  let result := execute (messages st) tool_call in
  let err := has_error result in
  let entry :=
    tc_name tool_call ++ "(" ++ take 60 args_str ++ ") â†’ " ++
    (if err then "ERROR" else "ok") ++ ": " ++ take 100 result in
  let first_arg :=
    match first_value (tc_arguments tool_call) with
    | Some v => str_of_json v
    | None => ""
    end in
  let direction := tc_name tool_call ++ "(" ++ take 80 first_arg ++ ")" in
  mkState
    (messages st ++ [ToolMsg (tc_id tool_call) (tc_name tool_call) result])%list
    (iteration st) (final_content st)
    (tools_used st ++ [tc_name tool_call])%list
    (tool_trace st ++ [entry])%list
    (reasoning_snippets st)
    (if err then consecutive_errors st + 1 else 0)%Z
    (if err then total_errors st + 1 else total_errors st)%Z
    (if err then (failed_directions st ++ [direction])%list
     else failed_directions st)
    (last_state_at st) (last_state_text st) (progress st).

Definition run_tools (st : loop_state) (tool_calls : list ToolCallRequest)
  : loop_state :=
  fold_left run_tool tool_calls st.

(** Step 1 of an iteration: the state checkpoint. *)
Definition checkpoint (st : loop_state) : loop_state :=
  let n := List.length (tool_trace st) in
  if ((5 <=? n - last_state_at st) && (5 <=? n))%nat then
    match _compress_state (tool_trace st) (reasoning_snippets st)
            (failed_directions st) (last_state_text st) with
    | Some state =>
        if (state =? "")%string then st
        else
          let text :=
            "[State after " ++ str (Z.of_nat n) ++ " steps]" ++ nl ++
            state ++ nl ++ nl ++
            "Use this state freely â€” adopt useful parts, ignore irrelevant ones, and prioritize unexplored branches." in
          mkState (messages st ++ [UserMsg text])%list
            (iteration st) (final_content st) (tools_used st) (tool_trace st)
            (reasoning_snippets st) (consecutive_errors st) (total_errors st)
            (failed_directions st) n (Some state) (progress st)
    | None => st
    end
  else st.

(** Step 2: the sufficiency gate. *)
Definition sufficiency (user_request : string) (st : loop_state)
  : loop_state :=
  let n := List.length (tool_trace st) in
  if ((8 <=? n) && (n mod 4 =? 0))%nat then
    if _check_sufficiency user_request (tool_trace st)
    then add_message st
           (UserMsg "You now have sufficient information. Provide your final answer.")
    else st
  else st.

(** What [on_progress] does to the state when a callback was given. *)
Definition report_progress (on_progress : bool) (response : LLMResponse)
  (st : loop_state) : loop_state :=
  if on_progress then
    let hint := _tool_hint (resp_tool_calls response) in
    match _strip_think (resp_content response) with
    | Some clean =>
        mkState (messages st) (iteration st) (final_content st) (tools_used st)
          (tool_trace st) (reasoning_snippets st ++ [take 200 clean])%list
          (consecutive_errors st) (total_errors st) (failed_directions st)
          (last_state_at st) (last_state_text st)
          (progress st ++ [clean; hint])%list
    | None =>
        mkState (messages st) (iteration st) (final_content st) (tools_used st)
          (tool_trace st) (reasoning_snippets st)
          (consecutive_errors st) (total_errors st) (failed_directions st)
          (last_state_at st) (last_state_text st)
          (progress st ++ [hint])%list
    end
  else st.

Definition set_iteration (st : loop_state) (i : Z) : loop_state :=
  mkState (messages st) i (final_content st) (tools_used st) (tool_trace st)
    (reasoning_snippets st) (consecutive_errors st) (total_errors st)
    (failed_directions st) (last_state_at st) (last_state_text st)
    (progress st).

Definition set_final (st : loop_state) (c : option string) : loop_state :=
  mkState (messages st) (iteration st) c (tools_used st) (tool_trace st)
    (reasoning_snippets st) (consecutive_errors st) (total_errors st)
    (failed_directions st) (last_state_at st) (last_state_text st)
    (progress st).

(** The tool-call branch of an iteration. *)
Definition tool_round (on_progress : bool) (response : LLMResponse)
  (st : loop_state) : loop_state :=
  let st := report_progress on_progress response st in
  let st :=
    add_message st
      (AssistantMsg (resp_content response) (resp_tool_calls response)
         (resp_reasoning_content response)) in
  let st := run_tools st (resp_tool_calls response) in
  inject_feedback st.

(** One pass through the body of the [while]; the flag is [true] when the
    body ends in [break]. *)
Definition iterate (on_progress : bool) (user_request : string)
  (st : loop_state) : loop_state * bool :=
  let st := set_iteration st (iteration st + 1) in
  let st := checkpoint st in
  let st := sufficiency user_request st in
  let response := chat (messages st) in
  if has_tool_calls response
  then (tool_round on_progress response st, false)
  else (set_final st (_strip_think (resp_content response)), true).

(** [while iteration < self.max_iterations: ...]; [None] when [fuel] runs
    out before the loop is left. *)
Fixpoint run (fuel : nat) (max_iterations : Z) (on_progress : bool)
  (user_request : string) (st : loop_state) : option loop_state :=
  if (iteration st <? max_iterations)%Z then
    match fuel with
    | O => None
    | S fuel' =>
        let (st', stop) := iterate on_progress user_request st in
        if stop then Some st'
        else run fuel' max_iterations on_progress user_request st'
    end
  else Some st.

Definition user_request_of (initial_messages : list message) : string :=
  match
    List.find (fun m => match m with UserMsg _ => true | _ => false end)
      (List.rev initial_messages)
  with
  | Some (UserMsg c) => c
  | _ => ""
  end.

Definition initial_state (initial_messages : list message) : loop_state :=
  mkState initial_messages 0 None [] [] [] 0 0 [] 0 None [].

(** The five values returned, read off the final state. *)
Definition result_of (st : loop_state)
  : option string * list string * list string * Z * list string :=
  (final_content st, tools_used st, tool_trace st, total_errors st,
   reasoning_snippets st).

Definition _run_agent_loop (max_iterations : Z)
  (initial_messages : list message) (on_progress : bool)
  : option loop_state :=
  run (Z.to_nat max_iterations) max_iterations on_progress
    (user_request_of initial_messages) (initial_state initial_messages).

End WithWorld.

End Agent.

(* ================================================================== *)
(** ** Learning from a finished turn ([AgentLoop._summarize_experience],
       [AgentLoop._merge_and_cleanup_experiences]) *)
(* ================================================================== *)

Module Learning.
Import Memory.

(** What [int(result.get(key, default))] meets: no such key, a value that
    [int] converts, or one on which it raises. *)
Inductive int_field : Type :=
| IntAbsent
| IntValue (z : Z)
| IntRaises.

(** The JSON object the utility model answers with; a key that is absent
    reads as [None].  The text fields are strings. *)
Record extraction : Type := mkExtraction {
  x_skip : bool;
  x_task : option string;
  x_lessons : option string;
  x_outcome : option string;
  x_quality : int_field;
  x_category : option string;
  x_keywords : option string
}.

(** [result.get(key, default)] *)
Definition get_or (v : option string) (default : string) : string :=
  match v with
  | Some s => s
  | None => default
  end.

(** [max(1, min(5, int(result.get("quality", default))))]; [None] when
    [int] raises. *)
Definition clamp_quality (q : int_field) (default : Z) : option Z :=
  match q with
  | IntAbsent => Some (Z.max 1 (Z.min 5 default))
  | IntValue z => Some (Z.max 1 (Z.min 5 z))
  | IntRaises => None
  end.

(** [reasoning_str[:300] if reasoning_snippets else ""] *)
Definition reasoning_trace_of (reasoning_snippets : list string) : string :=
  match reasoning_snippets with
  | [] => ""
  | _ => take 300 (String.concat " | " (firstn 5 reasoning_snippets))
  end.

Section WithPlatform.
Context {platform : Platform}.

(** [_summarize_experience] from the answer of the utility model on:
    [result] is [None] when the call gave nothing to parse, and [now] is
    the instant at which the experience is appended. *)
Definition _summarize_experience (now : Z) (t : table)
  (result : option extraction) (total_errors : Z)
  (reasoning_snippets : list string) : table :=
  match result with
  | None => t
  | Some result =>
      if x_skip result then t
      else
        let task := get_or (x_task result) "" in
        let lessons := get_or (x_lessons result) "" in
        if (task =? "")%string || (lessons =? "")%string then t
        else
          let outcome := get_or (x_outcome result) "unknown" in
          match clamp_quality (x_quality result) 3 with
          | None => t
          | Some quality =>
              let category := get_or (x_category result) "general" in
              let keywords := get_or (x_keywords result) "" in
              let reasoning_trace := reasoning_trace_of reasoning_snippets in
              let t :=
                append_experience now t task outcome lessons quality category
                  keywords reasoning_trace in
              if (outcome =? "failed")%string
              then fst (deprecate_similar t task)
              else if (total_errors =? 0)%Z
                   then fst (record_reuse t task true)
                   else t
          end
  end.

(** The record that takes the place of a merged group. *)
Definition merged_content (task category : string) (quality : Z)
  (lessons : string) : string :=
  "[Task] " ++ task ++ nl ++ "[Outcome] success" ++ nl ++
  "[Category] " ++ category ++ nl ++ "[Quality] " ++ str quality ++ nl ++
  "[Lessons] " ++ lessons.

(** The body of [for entries in groups[:2]]: [llm] answers the merge
    prompt built from the entries, and [now] is the instant of the
    replacement. *)
Definition merge_group (llm : list string -> option extraction) (now : Z)
  (t : table) (entries : list string) : table :=
  match llm (firstn 6 entries) with
  | None => t
  | Some result =>
      let task := get_or (x_task result) "" in
      let lessons := get_or (x_lessons result) "" in
      if (task =? "")%string || (lessons =? "")%string then t
      else
        match clamp_quality (x_quality result) 5 with
        | None => t
        | Some quality =>
            let category := get_or (x_category result) "general" in
            replace_merged now t (firstn 6 entries)
              (merged_content task category quality lessons)
        end
  end.

(** [clock i] is the instant of the [i]-th replacement. *)
Definition _merge_and_cleanup_experiences
  (llm : list string -> option extraction) (now : Z) (clock : nat -> Z)
  (t : table) : table :=
  let t := fst (cleanup_stale now t 30 90) in
  let groups := get_merge_candidates t 5 in
  fst (fold_left
         (fun (st : table * nat) entries =>
            (merge_group llm (clock (snd st)) (fst st) entries, S (snd st)))
         (firstn 2 groups) (t, O)).

End WithPlatform.

End Learning.

(* ================================================================== *)
(** ** Sessions ([session/manager.py]) *)
(* ================================================================== *)

Module Session.

(** A slice bound [i] of a list of length [len], as Python reads it. *)
Definition clip (len : nat) (i : Z) : nat :=
  if (i <? 0)%Z then Z.to_nat (Z.of_nat len + i)
  else Nat.min (Z.to_nat i) len.

(** [l[lo:hi]], [None] standing for a bound that is left out. *)
Definition slice {A} (l : list A) (lo hi : option Z) : list A :=
  let n := List.length l in
  let a := match lo with Some i => clip n i | None => O end in
  let b := match hi with Some i => clip n i | None => n end in
  firstn (b - a) (skipn a l).

(** A message dictionary of a session.  A key that may be absent is an
    option; [tools_used] absent or [None] is the empty list, and an absent
    [content] reads as the empty string. *)
Record stored_message : Type := mkStored {
  m_role : string;
  m_content : string;
  m_timestamp : option string;
  m_tools_used : list string;
  m_tool_calls : option string;
  m_tool_call_id : option string;
  m_name : option string
}.

(** What [get_history] hands to the model for a message. *)
Record history_entry : Type := mkEntry {
  e_role : string;
  e_content : string;
  e_tool_calls : option string;
  e_tool_call_id : option string;
  e_name : option string
}.

Record session : Type := mkSession {
  messages : list stored_message;
  last_consolidated : Z;
  pending_model_select : bool
}.

(** [session.add_message(role, content, tools_used=...)] at the instant
    whose ISO form is [timestamp]. *)
Definition add_message (s : session) (role content timestamp : string)
  (tools_used : list string) : session :=
  mkSession
    (messages s ++
     [mkStored role content (Some timestamp) tools_used None None None])%list
    (last_consolidated s) (pending_model_select s).

Definition entry_of (m : stored_message) : history_entry :=
  mkEntry (m_role m) (m_content m) (m_tool_calls m) (m_tool_call_id m)
    (m_name m).

Definition get_history (s : session) (max_messages : Z)
  : list history_entry :=
  map entry_of (slice (messages s) (Some (- max_messages)%Z) None).

Definition clear (s : session) : session :=
  mkSession [] 0 (pending_model_select s).

End Session.

(* ================================================================== *)
(** ** Memory consolidation ([AgentLoop._consolidate_memory]) *)
(* ================================================================== *)

Module Consolidation.
Import Memory Session.

Definition upper_ascii (c : ascii) : ascii :=
  let n := nat_of_ascii c in
  if ((97 <=? n) && (n <=? 122))%nat then ascii_of_nat (n - 32) else c.

(** [s.upper()] *)
Fixpoint upper (s : string) : string :=
  match s with
  | "" => ""
  | String c s' => String (upper_ascii c) (upper s')
  end.

(** The line of the conversation for a message with content. *)
Definition conversation_line (m : stored_message) : string :=
  let tools :=
    match m_tools_used m with
    | [] => ""
    | l => " [tools: " ++ String.concat ", " l ++ "]"
    end in
  let timestamp :=
    match m_timestamp m with
    | Some ts => ts
    | None => "?"
    end in
  "[" ++ take 16 timestamp ++ "] " ++ upper (m_role m) ++ tools ++ ": " ++
  m_content m.

Definition conversation_of (old_messages : list stored_message) : string :=
  unlines
    (map conversation_line
       (filter (fun m => negb (m_content m =? "")%string) old_messages)).

(** The two keys of the JSON object the model answers with; a key that is
    absent or holds nothing reads as [None]. *)
Record answer : Type := mkAnswer {
  history_entry_of : option string;
  memory_update_of : option string
}.

(** The messages [_consolidate_memory] summarizes; [None] where it returns
    before calling the model. *)
Definition window (memory_window : Z) (archive_all : bool) (s : session)
  : option (list stored_message * Z) :=
  if archive_all then Some (messages s, 0%Z)
  else
    let keep_count := (memory_window / 2)%Z in
    let n := Z.of_nat (List.length (messages s)) in
    if (n <=? keep_count)%Z then None
    else if (n - last_consolidated s <=? 0)%Z then None
    else
      match
        slice (messages s) (Some (last_consolidated s)) (Some (- keep_count)%Z)
      with
      | [] => None
      | old_messages => Some (old_messages, keep_count)
      end.

Section WithPlatform.
Context {platform : Platform}.

(** [llm] is the call of the model with the prompt made of the current
    long-term memory and the conversation, parsed: [None] when the answer
    is empty, is no object, or the call raises.  [arrived] are the
    messages the session receives while the call is awaited; [now1] and
    [now2] are the instants of the two writes. *)
Definition _consolidate_memory
  (llm : string -> string -> option answer) (now1 now2 : Z)
  (memory_window : Z) (archive_all : bool)
  (arrived : list stored_message) (s : session) (t : table)
  : session * table :=
  match window memory_window archive_all s with
  | None => (s, t)
  | Some (old_messages, keep_count) =>
      let conversation := conversation_of old_messages in
      let current_memory := read_long_term t in
      let shown :=
        if (current_memory =? "")%string then "(empty)" else current_memory in
      let s :=
        mkSession (messages s ++ arrived)%list (last_consolidated s)
          (pending_model_select s) in
      match llm shown conversation with
      | None => (s, t)
      | Some result =>
          let t :=
            match history_entry_of result with
            | Some entry =>
                if (entry =? "")%string then t else append_history now1 t entry
            | None => t
            end in
          let t :=
            match memory_update_of result with
            | Some update =>
                if (update =? "")%string then t
                else if (update =? current_memory)%string then t
                     else write_long_term now2 t update
            | None => t
            end in
          let mark :=
            if archive_all then 0%Z
            else (Z.of_nat (List.length (messages s)) - keep_count)%Z in
          (mkSession (messages s) mark (pending_model_select s), t)
      end
  end.

End WithPlatform.

End Consolidation.

(* ================================================================== *)
(** ** Progress messages and model selection ([AgentLoop]) *)
(* ================================================================== *)

Module Progress.

(** [self._last_progress_content]: per destination, the content and the
    time of the last progress message let through. *)
Definition progress_log : Type := Dict.dict (string * Q).

Definition _progress_min_interval : Q := 2.

Definition destination (channel chat_id : string) : string :=
  channel ++ ":" ++ chat_id.

(** [now] is what the clock of the event loop shows in the call. *)
Definition _should_send_progress (log : progress_log) (now : Q)
  (channel chat_id content : string) : bool * progress_log :=
  let key := destination channel chat_id in
  match Dict.get log key with
  | Some (last_content, last_time) =>
      if (content =? last_content)%string then (false, log)
      else if Qltb (now - last_time) _progress_min_interval then (false, log)
           else (true, Dict.set log key (content, now))
  | None => (true, Dict.set log key (content, now))
  end.

End Progress.

Module Models.

Record model_state : Type := mkModels {
  model : string;
  available_models : list string
}.

(** The model fields as [AgentLoop.__init__] sets them; [default_model] is
    [provider.get_default_model()]. *)
Definition init (model default_model : string) (available : list string)
  : model_state :=
  let model := if (model =? "")%string then default_model else model in
  let available :=
    if (model =? "")%string then available
    else if existsb (String.eqb model) available then available
         else model :: available in
  mkModels model available.

Inductive reply : Type :=
| Invalid (upper_bound : nat)
| Switched (new_model : string).

Definition _switch_model (st : model_state) (idx : Z) : model_state * reply :=
  if ((idx <? 1) || (Z.of_nat (List.length (available_models st)) <? idx))%Z
  then (st, Invalid (List.length (available_models st)))
  else
    match nth_error (available_models st) (Z.to_nat (idx - 1)) with
    | Some new_model => (mkModels new_model (available_models st), Switched new_model)
    | None => (st, Invalid (List.length (available_models st)))
    end.

End Models.

(* ================================================================== *)
(** ** Facts about the string primitives *)
(* ================================================================== *)

Module PyStrFacts.

Example split_ws_ex : split_ws "  git  rebase x " = ["git"; "rebase"; "x"].
Proof. reflexivity. Qed.

Example lines_ex : lines ("a" ++ nl ++ nl ++ "b") = ["a"; ""; "b"].
Proof. reflexivity. Qed.

Example py_int_ex :
  py_int " 12 " = Some 12%Z /\ py_int "-007" = Some (-7)%Z /\
  py_int "1_0" = Some 10%Z /\ py_int "1__0" = None /\ py_int "" = None /\
  py_int "4x" = None /\ py_int "+3" = Some 3%Z.
Proof. repeat split; reflexivity. Qed.

Example str_ex : str 0 = "0" /\ str (-45) = "-45" /\ str 120 = "120".
Proof. repeat split; reflexivity. Qed.

Fixpoint has_char (c : ascii) (s : string) : bool :=
  match s with
  | "" => false
  | String c' s' => Ascii.eqb c' c || has_char c s'
  end.

Fixpoint all_chars (p : ascii -> bool) (s : string) : bool :=
  match s with
  | "" => true
  | String c s' => p c && all_chars p s'
  end.

(** A text without a line break. *)
Definition one_line (s : string) : Prop := has_char LF s = false.

Definition is_digit (c : ascii) : bool :=
  match digit_of c with Some _ => true | None => false end.

Lemma append_assoc (a b c : string) : (a ++ b) ++ c = a ++ (b ++ c).
Proof. induction a as [|x a IH]; simpl; [reflexivity|]. now rewrite IH. Qed.

Lemma append_nil_r (a : string) : a ++ "" = a.
Proof. induction a as [|x a IH]; simpl; [reflexivity|]. now rewrite IH. Qed.

Lemma has_char_app (c : ascii) (a b : string) :
  has_char c (a ++ b) = has_char c a || has_char c b.
Proof.
  induction a as [|x a IH]; simpl; [reflexivity|].
  rewrite IH. apply orb_assoc.
Qed.

Lemma all_chars_app (p : ascii -> bool) (a b : string) :
  all_chars p (a ++ b) = all_chars p a && all_chars p b.
Proof.
  induction a as [|x a IH]; simpl; [reflexivity|].
  rewrite IH. apply andb_assoc.
Qed.

Lemma all_chars_weaken (p q : ascii -> bool) (s : string) :
  (forall c, p c = true -> q c = true) ->
  all_chars p s = true -> all_chars q s = true.
Proof.
  intros Hpq. induction s as [|c s IH]; simpl; [reflexivity|].
  intros H. apply andb_true_iff in H. destruct H as [Hc Hs].
  rewrite (Hpq _ Hc), (IH Hs). reflexivity.
Qed.

Lemma all_chars_no_char (p : ascii -> bool) (c : ascii) (s : string) :
  p c = false -> all_chars p s = true -> has_char c s = false.
Proof.
  intros Hc. induction s as [|x s IH]; simpl; [reflexivity|].
  intros H. apply andb_true_iff in H. destruct H as [Hx Hs].
  rewrite (IH Hs), orb_false_r.
  destruct (Ascii.eqb_spec x c); [congruence|reflexivity].
Qed.

(** *** Prefixes *)

Lemma one_line_prefixed (p s : string) :
  one_line p -> one_line s -> one_line (p ++ s).
Proof.
  unfold one_line. intros Hp Hs. now rewrite has_char_app, Hp, Hs.
Qed.

Lemma prefix_app (p s : string) : String.prefix p (p ++ s) = true.
Proof.
  induction p as [|c p IH]; simpl; [now destruct s|].
  destruct (ascii_dec c c); [exact IH|contradiction].
Qed.

Lemma prefix_both (p q s : string) :
  String.prefix p s = true -> String.prefix q s = true ->
  String.prefix p q = true \/ String.prefix q p = true.
Proof.
  revert p q. induction s as [|c s IH]; intros p q Hp Hq.
  - destruct p; [|discriminate]. left. now destruct q.
  - destruct p as [|a p]; [left; now destruct q|].
    destruct q as [|b q]; [right; reflexivity|].
    simpl in *.
    destruct (ascii_dec a c); [|discriminate].
    destruct (ascii_dec b c); [|discriminate]. subst.
    destruct (ascii_dec c c); [|contradiction]. auto.
Qed.

(** *** Lines *)

Lemma split_char_nonempty (sep : ascii) (s : string) : split_char sep s <> [].
Proof.
  destruct s as [|c s]; simpl; [discriminate|].
  destruct (Ascii.eqb c sep); [discriminate|].
  destruct (split_char sep s); discriminate.
Qed.

Lemma split_char_no_sep (sep : ascii) (s : string) :
  Forall (fun l => has_char sep l = false) (split_char sep s).
Proof.
  induction s as [|c s IH]; simpl.
  - constructor; [reflexivity|constructor].
  - destruct (Ascii.eqb c sep) eqn:E.
    + constructor; [reflexivity|exact IH].
    + destruct (split_char sep s) as [|l ls].
      * constructor; [simpl; now rewrite E|constructor].
      * inversion IH; subst. constructor; [simpl; now rewrite E|assumption].
Qed.

Lemma split_char_single (sep : ascii) (s : string) :
  has_char sep s = false -> split_char sep s = [s].
Proof.
  induction s as [|c s IH]; simpl; [reflexivity|].
  intros H. apply orb_false_iff in H. destruct H as [Hc Hs].
  rewrite Hc, (IH Hs). reflexivity.
Qed.

Lemma split_char_app (sep : ascii) (a b : string) :
  split_char sep (a ++ String sep b) =
  (split_char sep a ++ split_char sep b)%list.
Proof.
  induction a as [|c a IH]; simpl.
  - now rewrite Ascii.eqb_refl.
  - destruct (Ascii.eqb c sep); [now rewrite IH|].
    rewrite IH. destruct (split_char sep a) as [|l ls] eqn:E; [|reflexivity].
    now apply split_char_nonempty in E.
Qed.

Lemma lines_app (a b : string) :
  lines (a ++ nl ++ b) = (lines a ++ lines b)%list.
Proof. apply split_char_app. Qed.

Lemma lines_one_line (s : string) : one_line s -> lines s = [s].
Proof. apply split_char_single. Qed.

Lemma lines_cons (a b : string) :
  one_line a -> lines (a ++ nl ++ b) = a :: lines b.
Proof. intros H. now rewrite lines_app, lines_one_line. Qed.

Lemma lines_all_one_line (s : string) : Forall one_line (lines s).
Proof. apply split_char_no_sep. Qed.

Lemma lines_unlines (ls : list string) :
  ls <> [] -> Forall one_line ls -> lines (unlines ls) = ls.
Proof.
  induction ls as [|x ls IH]; [congruence|]. intros _ H.
  inversion H as [|? ? Hx Hls]; subst.
  destruct ls as [|y ls].
  - simpl. now apply lines_one_line.
  - change (unlines (x :: y :: ls)) with (x ++ nl ++ unlines (y :: ls)).
    rewrite lines_cons by assumption. f_equal. apply IH; [discriminate|assumption].
Qed.

(** *** Stripping *)

Lemma lstrip_id (c : ascii) (s : string) :
  is_space c = false -> lstrip (String c s) = String c s.
Proof. intros H. simpl. now rewrite H. Qed.

Lemma rstrip_id (s : string) :
  all_chars (fun c => negb (is_space c)) s = true -> rstrip s = s.
Proof.
  induction s as [|c s IH]; simpl; [reflexivity|].
  intros H. apply andb_true_iff in H. destruct H as [Hc Hs].
  rewrite (IH Hs). apply negb_true_iff in Hc. rewrite Hc.
  now destruct s.
Qed.

Lemma strip_id (s : string) :
  all_chars (fun c => negb (is_space c)) s = true -> strip s = s.
Proof.
  intros H. unfold strip. destruct s as [|c s]; [reflexivity|].
  pose proof H as H'. simpl in H'. apply andb_true_iff in H'.
  destruct H' as [Hc _]. apply negb_true_iff in Hc.
  rewrite (lstrip_id _ _ Hc). now apply rstrip_id.
Qed.

Lemma has_char_suffix_after (sep c : ascii) (s t : string) :
  after_first sep s = Some t -> has_char c s = false -> has_char c t = false.
Proof.
  induction s as [|x s IH]; simpl; [discriminate|].
  intros H Hc. apply orb_false_iff in Hc. destruct Hc as [_ Hs].
  destruct (Ascii.eqb x sep); [now injection H as <-|auto].
Qed.

Lemma has_char_lstrip (c : ascii) (s : string) :
  has_char c s = false -> has_char c (lstrip s) = false.
Proof.
  induction s as [|x s IH]; simpl; [reflexivity|].
  intros H. destruct (is_space x); [|exact H].
  apply orb_false_iff in H. tauto.
Qed.

Lemma has_char_rstrip (c : ascii) (s : string) :
  has_char c s = false -> has_char c (rstrip s) = false.
Proof.
  induction s as [|x s IH]; simpl; [reflexivity|].
  intros H. apply orb_false_iff in H. destruct H as [Hx Hs].
  specialize (IH Hs).
  destruct (rstrip s) as [|y r].
  - destruct (is_space x); simpl; [reflexivity|]. now rewrite Hx.
  - simpl in *. now rewrite Hx, IH.
Qed.

Lemma has_char_strip (c : ascii) (s : string) :
  has_char c s = false -> has_char c (strip s) = false.
Proof. intros H. now apply has_char_rstrip, has_char_lstrip. Qed.

(** *** Printing and reading integers *)

Fixpoint uint_value (acc : Z) (d : uint) : Z :=
  match d with
  | Nil => acc
  | D0 d => uint_value (10 * acc) d
  | D1 d => uint_value (10 * acc + 1) d
  | D2 d => uint_value (10 * acc + 2) d
  | D3 d => uint_value (10 * acc + 3) d
  | D4 d => uint_value (10 * acc + 4) d
  | D5 d => uint_value (10 * acc + 5) d
  | D6 d => uint_value (10 * acc + 6) d
  | D7 d => uint_value (10 * acc + 7) d
  | D8 d => uint_value (10 * acc + 8) d
  | D9 d => uint_value (10 * acc + 9) d
  end.

Lemma parse_digits_uint (d : uint) :
  forall acc prev, d <> Nil \/ prev = true ->
    parse_digits acc prev (NilEmpty.string_of_uint d) = Some (uint_value acc d).
Proof.
  induction d; intros acc prev H; simpl;
    try (rewrite IHd by (right; reflexivity); f_equal; f_equal; lia).
  destruct H as [H | ->]; [congruence|reflexivity].
Qed.

Lemma uint_value_pos (d : uint) :
  forall p, uint_value (Zpos p) d = Zpos (Pos.of_uint_acc d p).
Proof.
  induction d; intros p; cbn [uint_value Pos.of_uint_acc]; try reflexivity;
    rewrite <- IHd; f_equal; lia.
Qed.

Lemma uint_value_zero (d : uint) : uint_value 0 d = Z.of_N (Pos.of_uint d).
Proof.
  induction d; simpl; try reflexivity; try exact IHd;
    apply (uint_value_pos d).
Qed.

Lemma string_of_uint_digits (d : uint) :
  all_chars is_digit (NilEmpty.string_of_uint d) = true.
Proof. induction d; simpl; auto. Qed.

Lemma py_int_uint (d : uint) :
  d <> Nil ->
  py_int (NilEmpty.string_of_uint d) = Some (Z.of_N (Pos.of_uint d)).
Proof.
  intros Hd. unfold py_int.
  rewrite strip_id.
  - rewrite <- uint_value_zero.
    rewrite <- (parse_digits_uint d 0 false) by (left; exact Hd).
    destruct d; try congruence; reflexivity.
  - eapply all_chars_weaken; [|apply string_of_uint_digits].
    intros c. unfold is_digit, digit_of, is_space.
    destruct c as [[|] [|] [|] [|] [|] [|] [|] [|]]; simpl; congruence.
Qed.

Lemma str_shape (z : Z) :
  exists sign digits,
    str z = sign ++ digits /\ (sign = "" \/ sign = "-") /\
    digits <> "" /\ all_chars is_digit digits = true.
Proof.
  unfold str. destruct z as [|p|p]; simpl.
  - exists "", "0". repeat split; auto. discriminate.
  - exists "", (NilZero.string_of_uint (Pos.to_uint p)).
    pose proof (Unsigned.to_uint_nonnil p) as Hn.
    unfold NilZero.string_of_uint.
    destruct (Pos.to_uint p) eqn:E; try congruence;
      (repeat split; [auto|simpl; discriminate|rewrite <- E at 1; try rewrite <- E;
        apply string_of_uint_digits]).
  - exists "-", (NilZero.string_of_uint (Pos.to_uint p)).
    pose proof (Unsigned.to_uint_nonnil p) as Hn.
    unfold NilZero.string_of_uint.
    destruct (Pos.to_uint p) eqn:E; try congruence;
      (repeat split; [auto|simpl; discriminate|rewrite <- E at 1; try rewrite <- E;
        apply string_of_uint_digits]).
Qed.

Definition plain (c : ascii) : bool := is_digit c || Ascii.eqb c "-".

Lemma plain_not_space (c : ascii) : plain c = true -> negb (is_space c) = true.
Proof.
  unfold plain, is_digit, digit_of, is_space.
  destruct c as [[|] [|] [|] [|] [|] [|] [|] [|]]; simpl; congruence.
Qed.

Lemma str_plain (z : Z) : all_chars plain (str z) = true.
Proof.
  destruct (str_shape z) as (sign & digits & -> & Hs & _ & Hd).
  rewrite all_chars_app. apply andb_true_iff. split.
  - destruct Hs as [-> | ->]; reflexivity.
  - eapply all_chars_weaken; [|exact Hd]. intros c H. unfold plain.
    now rewrite H.
Qed.

Lemma str_one_line (z : Z) : one_line (str z).
Proof.
  apply (all_chars_no_char plain); [reflexivity|apply str_plain].
Qed.

Lemma strip_str (z : Z) : strip (str z) = str z.
Proof.
  apply strip_id. eapply all_chars_weaken; [|apply str_plain].
  apply plain_not_space.
Qed.

(** [int(str(z)) == z] *)
Lemma py_int_str (z : Z) : py_int (str z) = Some z.
Proof.
  destruct z as [|p|p].
  - reflexivity.
  - unfold str. simpl. pose proof (Unsigned.to_uint_nonnil p) as Hn.
    replace (NilZero.string_of_uint (Pos.to_uint p))
      with (NilEmpty.string_of_uint (Pos.to_uint p))
      by (destruct (Pos.to_uint p); congruence || reflexivity).
    rewrite py_int_uint by assumption.
    now rewrite Unsigned.of_to.
  - pose proof (strip_str (Zneg p)) as Hs.
    unfold py_int. rewrite Hs. unfold str. simpl.
    pose proof (Unsigned.to_uint_nonnil p) as Hn.
    replace (NilZero.string_of_uint (Pos.to_uint p))
      with (NilEmpty.string_of_uint (Pos.to_uint p))
      by (destruct (Pos.to_uint p); congruence || reflexivity).
    rewrite parse_digits_uint by (left; assumption).
    rewrite uint_value_zero, Unsigned.of_to. reflexivity.
Qed.

(** [int((" " + str(z)).strip()) == z], as a field line is read back. *)
Lemma py_int_field_value (z : Z) :
  py_int (strip (String " " (str z))) = Some z.
Proof.
  unfold strip at 1. simpl lstrip.
  assert (H : lstrip (str z) = str z).
  { destruct (str z) as [|c s] eqn:E; [reflexivity|].
    apply lstrip_id. pose proof (str_plain z) as Hp. rewrite E in Hp.
    simpl in Hp. apply andb_true_iff in Hp. destruct Hp as [Hc _].
    apply plain_not_space in Hc. now apply negb_true_iff in Hc. }
  change (lstrip (String " " (str z))) with (lstrip (str z)).
  rewrite H. fold (strip (str z)). rewrite <- H at 1.
  fold (strip (str z)). rewrite strip_str. apply py_int_str.
Qed.

End PyStrFacts.

(* ================================================================== *)
(** ** Facts about the rounding of floats *)
(* ================================================================== *)

Module PyFloatFacts.
Import PyFloat.

Lemma round_half_even_bounds (n : Z) (d : positive) (k : Z) :
  (0 <= n)%Z -> (n <= k * Zpos d)%Z ->
  (0 <= round_half_even n d <= k)%Z.
Proof.
  intros Hn Hk. unfold round_half_even.
  pose proof (Z.div_mod n (Zpos d) ltac:(lia)) as Hdm.
  pose proof (Z.mod_pos_bound n (Zpos d) ltac:(lia)) as Hr.
  assert (Hq : (0 <= n / Zpos d)%Z) by (apply Z.div_pos; lia).
  set (q := (n / Zpos d)%Z) in *. set (r := (n mod Zpos d)%Z) in *.
  assert (Hqk : (q <= k)%Z) by nia.
  assert (Hup : (0 < r -> q + 1 <= k)%Z) by (intros; nia).
  destruct (2 * r ?= Zpos d)%Z eqn:E.
  - apply Z.compare_eq in E. destruct (Z.even q); lia.
  - lia.
  - apply Z.compare_gt_iff in E. lia.
Qed.

Lemma ulp_exponent_small (n d : positive) :
  (Zpos n <= Zpos d)%Z -> (ulp_exponent n d < 0)%Z.
Proof.
  intros H. unfold ulp_exponent.
  pose proof (Z.log2_le_mono _ _ H) as Hl.
  destruct (0 <=? _)%Z;
    match goal with |- context [if ?b then _ else _] => destruct b end; lia.
Qed.

(** Rounding keeps a number of the unit interval in it: 0 and 1 are
    doubles. *)
Lemma fl_unit (x : Q) : (0 <= x <= 1)%Q -> (0 <= fl x <= 1)%Q.
Proof.
  destruct x as [n d]. unfold Qle, fl. cbn [Qnum Qden]. intros [H0 H1].
  destruct n as [|p|p]; [split; discriminate| |lia].
  unfold fl_pos. pose proof (ulp_exponent_small p d ltac:(lia)) as He.
  set (e := ulp_exponent p d) in *.
  destruct (0 <=? e)%Z eqn:E; [apply Z.leb_le in E; lia|].
  assert (Hk : (0 < 2 ^ (- e))%Z) by (apply Z.pow_pos_nonneg; lia).
  pose proof (round_half_even_bounds (Zpos p * 2 ^ (- e)) d (2 ^ (- e))
                ltac:(lia) ltac:(nia)) as Hm.
  unfold Qle. cbn [Qnum Qden]. rewrite Z2Pos.id by exact Hk. lia.
Qed.

Lemma div_int_unit (s u : Z) :
  (0 <= s <= u)%Z -> (0 < u)%Z -> (0 <= div_int s u <= 1)%Q.
Proof.
  intros Hs Hu. apply fl_unit.
  assert (Hq : (0 < inject_Z u)%Q).
  { change 0%Q with (inject_Z 0). rewrite <- Zlt_Qlt. exact Hu. }
  split.
  - apply Qle_shift_div_l; [exact Hq|]. rewrite Qmult_0_l.
    change 0%Q with (inject_Z 0). rewrite <- Zle_Qle. lia.
  - apply Qle_shift_div_r; [exact Hq|]. rewrite Qmult_1_l.
    rewrite <- Zle_Qle. lia.
Qed.

End PyFloatFacts.

(* ================================================================== *)
(** ** Facts about the control loop *)
(* ================================================================== *)

Module AgentFacts.
Import Agent.

(** The results of the tool messages of a message list, in order. *)
Fixpoint tool_results (ms : list message) : list string :=
  match ms with
  | [] => []
  | ToolMsg _ _ result :: ms' => result :: tool_results ms'
  | _ :: ms' => tool_results ms'
  end.

Fixpoint leading_errors (results : list string) : nat :=
  match results with
  | [] => O
  | r :: rest => if has_error r then S (leading_errors rest) else O
  end.

(** How many error results end the sequence, with no other result after
    them. *)
Definition trailing_errors (results : list string) : nat :=
  leading_errors (List.rev results).

Definition is_escalation (m : message) : bool :=
  match m with
  | UserMsg text => startswith text "Multiple tool errors occurred. STOP retrying"
  | _ => false
  end.

Definition is_tool_msg (m : message) : bool :=
  match m with
  | ToolMsg _ _ _ => true
  | _ => false
  end.

(** Every escalation in [app] comes after at least three error results in
    a row. *)
Definition escalations_justified (app : list message) : Prop :=
  forall pre m post,
    app = (pre ++ m :: post)%list -> is_escalation m = true ->
    (3 <= trailing_errors (tool_results pre))%nat.

(** The invariant of the loop, relative to the messages it started from. *)
Definition loop_inv (initial : list message) (st : loop_state) : Prop :=
  exists app,
    messages st = (initial ++ app)%list /\
    consecutive_errors st = Z.of_nat (trailing_errors (tool_results app)) /\
    escalations_justified app.

Lemma tool_results_app (a b : list message) :
  tool_results (a ++ b) = (tool_results a ++ tool_results b)%list.
Proof.
  induction a as [|m a IH]; simpl; [reflexivity|].
  destruct m; simpl; rewrite ?IH; reflexivity.
Qed.

Lemma tool_results_snoc_other (a : list message) (m : message) :
  is_tool_msg m = false -> tool_results (a ++ [m]) = tool_results a.
Proof.
  intros H. rewrite tool_results_app.
  destruct m; simpl in *; try discriminate; apply app_nil_r.
Qed.

Lemma trailing_errors_snoc (rs : list string) (r : string) :
  trailing_errors (rs ++ [r]) =
  if has_error r then S (trailing_errors rs) else O.
Proof.
  unfold trailing_errors. rewrite rev_app_distr. reflexivity.
Qed.

Lemma justified_nil : escalations_justified [].
Proof.
  intros pre m post H. destruct pre; discriminate.
Qed.

Lemma justified_snoc (app : list message) (m : message) :
  escalations_justified app ->
  (is_escalation m = true -> (3 <= trailing_errors (tool_results app))%nat) ->
  escalations_justified (app ++ [m]).
Proof.
  intros Hj Hm pre x post Heq Hx.
  destruct (exists_last (l := x :: post)) as [body [y Hy]]; [discriminate|].
  destruct body as [|x' body].
  - simpl in Hy. injection Hy as Hxy Hpost. subst y post.
    apply app_inj_tail in Heq. destruct Heq as [-> ->]. auto.
  - simpl in Hy. injection Hy as Hx' Hpost. subst x' post.
    change (pre ++ x :: body ++ [y])%list
      with (pre ++ (x :: body) ++ [y])%list in Heq.
    rewrite app_assoc in Heq. apply app_inj_tail in Heq.
    destruct Heq as [Heq _]. eapply Hj; eauto.
Qed.

Section Invariant.
Context {world : World}.
Variable initial : list message.

Lemma inv_append_plain (st : loop_state) (m : message) :
  is_tool_msg m = false -> is_escalation m = false ->
  loop_inv initial st -> loop_inv initial (add_message st m).
Proof.
  intros Ht He (app & Hm & Hc & Hj).
  exists (app ++ [m])%list. simpl. repeat split.
  - rewrite Hm. symmetry. apply app_assoc.
  - rewrite tool_results_snoc_other by assumption. exact Hc.
  - apply justified_snoc; [assumption|]. congruence.
Qed.

Lemma inv_checkpoint (st : loop_state) :
  loop_inv initial st -> loop_inv initial (checkpoint st).
Proof.
  intros H. unfold checkpoint.
  destruct (_ && _)%bool; [|assumption].
  destruct (_compress_state _ _ _ _) as [state|]; [|assumption].
  destruct (state =? "")%string; [assumption|].
  destruct H as (app & Hm & Hc & Hj).
  eexists (app ++ [UserMsg _])%list. simpl. repeat split.
  - rewrite Hm. symmetry. apply app_assoc.
  - rewrite tool_results_snoc_other by reflexivity. exact Hc.
  - apply justified_snoc; [assumption|]. simpl. discriminate.
Qed.

Lemma inv_sufficiency (user_request : string) (st : loop_state) :
  loop_inv initial st -> loop_inv initial (sufficiency user_request st).
Proof.
  intros H. unfold sufficiency.
  destruct (_ && _)%bool; [|assumption].
  destruct (_check_sufficiency _ _); [|assumption].
  apply inv_append_plain; auto.
Qed.

Lemma inv_report_progress (b : bool) (r : LLMResponse) (st : loop_state) :
  loop_inv initial st -> loop_inv initial (report_progress b r st).
Proof.
  intros H. unfold report_progress. destruct b; [|assumption].
  destruct (_strip_think _); exact H.
Qed.

Lemma inv_run_tool (st : loop_state) (tc : ToolCallRequest) :
  loop_inv initial st -> loop_inv initial (run_tool st tc).
Proof.
  intros (app & Hm & Hc & Hj).
  exists (app ++ [ToolMsg (tc_id tc) (tc_name tc) (execute (messages st) tc)])%list.
  simpl. repeat split.
  - rewrite app_assoc. f_equal. exact Hm.
  - rewrite tool_results_app. simpl. rewrite trailing_errors_snoc.
    destruct (has_error _); [|reflexivity]. rewrite Hc. lia.
  - apply justified_snoc; [assumption|]. simpl. discriminate.
Qed.

Lemma inv_run_tools (tcs : list ToolCallRequest) (st : loop_state) :
  loop_inv initial st -> loop_inv initial (run_tools st tcs).
Proof.
  revert st. induction tcs as [|tc tcs IH]; intros st H; simpl; [assumption|].
  apply IH, inv_run_tool, H.
Qed.

Lemma inv_inject_feedback (st : loop_state) :
  loop_inv initial st -> loop_inv initial (inject_feedback st).
Proof.
  intros H. unfold inject_feedback, error_feedback.
  destruct (3 <=? consecutive_errors st)%Z eqn:E3.
  - simpl. destruct H as (app & Hm & Hc & Hj).
    eexists (app ++ [UserMsg _])%list. simpl. repeat split.
    + rewrite Hm. symmetry. apply app_assoc.
    + rewrite tool_results_snoc_other by reflexivity. exact Hc.
    + apply justified_snoc; [assumption|]. intros _.
      apply Z.leb_le in E3. lia.
  - destruct (0 <? consecutive_errors st)%Z; [|assumption].
    unfold mild_feedback. simpl. apply inv_append_plain; auto.
Qed.

Lemma inv_iterate (b : bool) (user_request : string) (st : loop_state) :
  loop_inv initial st -> loop_inv initial (fst (iterate b user_request st)).
Proof.
  intros H. unfold iterate.
  set (st1 := sufficiency user_request (checkpoint (set_iteration st _))).
  assert (H1 : loop_inv initial st1).
  { apply inv_sufficiency, inv_checkpoint. exact H. }
  destruct (has_tool_calls _); simpl; [|exact H1].
  unfold tool_round.
  apply inv_inject_feedback, inv_run_tools, inv_append_plain; auto.
  apply inv_report_progress, H1.
Qed.

Lemma inv_run (fuel : nat) (max_iterations : Z) (b : bool)
  (user_request : string) (st st' : loop_state) :
  loop_inv initial st ->
  run fuel max_iterations b user_request st = Some st' ->
  loop_inv initial st'.
Proof.
  revert st. induction fuel as [|fuel IH]; intros st H; simpl.
  - destruct (_ <? _)%Z; [discriminate|]. intros [= <-]. exact H.
  - destruct (_ <? _)%Z; [|intros [= <-]; exact H].
    pose proof (inv_iterate b user_request st H) as Hi.
    destruct (iterate b user_request st) as [st1 stop]. simpl in Hi.
    destruct stop; [intros [= <-]; exact Hi|]. apply IH, Hi.
Qed.

Lemma inv_initial : loop_inv initial (initial_state initial).
Proof.
  exists []. simpl. repeat split.
  - symmetry. apply app_nil_r.
  - apply justified_nil.
Qed.

End Invariant.

Section Budget.
Context {world : World}.

Lemma iteration_checkpoint (st : loop_state) :
  iteration (checkpoint st) = iteration st /\
  final_content (checkpoint st) = final_content st.
Proof.
  unfold checkpoint. destruct (_ && _)%bool; [|tauto].
  destruct (_compress_state _ _ _ _) as [state|]; [|tauto].
  destruct (state =? "")%string; simpl; tauto.
Qed.

Lemma iteration_sufficiency (u : string) (st : loop_state) :
  iteration (sufficiency u st) = iteration st /\
  final_content (sufficiency u st) = final_content st.
Proof.
  unfold sufficiency. destruct (_ && _)%bool; [|tauto].
  destruct (_check_sufficiency _ _); simpl; tauto.
Qed.

Lemma iteration_run_tools (tcs : list ToolCallRequest) (st : loop_state) :
  iteration (run_tools st tcs) = iteration st /\
  final_content (run_tools st tcs) = final_content st.
Proof.
  revert st. induction tcs as [|tc tcs IH]; intros st; simpl; [tauto|].
  destruct (IH (run_tool st tc)) as [-> ->]. simpl. tauto.
Qed.

Lemma iteration_tool_round (b : bool) (r : LLMResponse) (st : loop_state) :
  iteration (tool_round b r st) = iteration st /\
  final_content (tool_round b r st) = final_content st.
Proof.
  unfold tool_round, inject_feedback.
  match goal with
  | |- context [run_tools ?s ?l] =>
      destruct (iteration_run_tools l s) as [Hi Hf];
      set (st2 := run_tools s l) in *
  end.
  assert (H : iteration st2 = iteration st /\ final_content st2 = final_content st).
  { rewrite Hi, Hf. simpl. unfold report_progress.
    destruct b; [destruct (_strip_think _)|]; simpl; tauto. }
  destruct (error_feedback st2) as [text|]; [|exact H].
  destruct (text =? "")%string; simpl; exact H.
Qed.

(** One pass adds one to [iteration]; it leaves [final_content] alone
    unless the response carries no tool call, which ends the loop. *)
Lemma iterate_spec (b : bool) (u : string) (st : loop_state) :
  iteration (fst (iterate b u st)) = (iteration st + 1)%Z /\
  (snd (iterate b u st) = false ->
   final_content (fst (iterate b u st)) = final_content st) /\
  (snd (iterate b u st) = true ->
   exists ms, has_tool_calls (chat ms) = false /\
     final_content (fst (iterate b u st)) =
     _strip_think (resp_content (chat ms))).
Proof.
  unfold iterate.
  set (st1 := sufficiency u (checkpoint (set_iteration st (iteration st + 1)))).
  assert (H1 : iteration st1 = (iteration st + 1)%Z /\
               final_content st1 = final_content st).
  { unfold st1.
    destruct (iteration_sufficiency u
                (checkpoint (set_iteration st (iteration st + 1)))) as [-> ->].
    destruct (iteration_checkpoint
                (set_iteration st (iteration st + 1))) as [-> ->].
    simpl. tauto. }
  destruct (has_tool_calls (chat (messages st1))) eqn:E; simpl.
  - destruct (iteration_tool_round b (chat (messages st1)) st1) as [-> ->].
    repeat split; try tauto. discriminate.
  - repeat split; try tauto; try discriminate.
    intros _. exists (messages st1). auto.
Qed.

(** With fuel for the iterations that remain, the loop is left, within the
    budget; it is left early only on a response without tool calls. *)
Lemma run_enough (fuel : nat) (max_iterations : Z) (b : bool) (u : string) :
  forall st : loop_state,
    (Z.to_nat (max_iterations - iteration st) <= fuel)%nat ->
    exists st',
      run fuel max_iterations b u st = Some st' /\
      (iteration st' <= Z.max (iteration st) max_iterations)%Z /\
      ((final_content st' = final_content st /\
        iteration st' = Z.max (iteration st) max_iterations) \/
       (exists ms, has_tool_calls (chat ms) = false /\
          final_content st' = _strip_think (resp_content (chat ms)))).
Proof.
  induction fuel as [|fuel IH]; intros st Hf; simpl.
  - destruct (iteration st <? max_iterations)%Z eqn:E.
    + apply Z.ltb_lt in E. lia.
    + apply Z.ltb_ge in E. exists st. repeat split; try lia. left. split; [reflexivity|lia].
  - destruct (iteration st <? max_iterations)%Z eqn:E.
    + apply Z.ltb_lt in E.
      destruct (iterate_spec b u st) as (Hi & Hk & Hs).
      destruct (iterate b u st) as [st1 stop]. simpl in *.
      destruct stop.
      * exists st1. repeat split; try lia. right. auto.
      * destruct (IH st1) as (st' & Hr & Hle & Hcase); [lia|].
        exists st'. rewrite Hi in *. repeat split; try lia; try assumption.
        destruct Hcase as [[Hfc Hit]|Hex]; [left|right; assumption].
        rewrite Hfc, Hk by reflexivity. split; [reflexivity|lia].
    + apply Z.ltb_ge in E. exists st. repeat split; try lia. left. split; [reflexivity|lia].
Qed.

(** More fuel than needed changes nothing. *)
Lemma run_more_fuel (max_iterations : Z) (b : bool) (u : string)
  (fuel : nat) :
  forall (extra : nat) (st st' : loop_state),
    run fuel max_iterations b u st = Some st' ->
    run (fuel + extra) max_iterations b u st = Some st'.
Proof.
  induction fuel as [|fuel IH]; intros extra st st'; simpl.
  - destruct (iteration st <? max_iterations)%Z eqn:E; [discriminate|].
    intros [= <-]. destruct extra; simpl; now rewrite E.
  - destruct (iteration st <? max_iterations)%Z; [|auto].
    destruct (iterate b u st) as [st1 stop]. destruct stop; [auto|].
    apply IH.
Qed.

End Budget.

(** *** A concrete world *)

Definition call (name arg : string) : ToolCallRequest :=
  mkToolCall "id" name [("path", JStr arg)].

Definition has_assistant (ms : list message) : bool :=
  existsb (fun m => match m with AssistantMsg _ _ _ => true | _ => false end) ms.

(** A provider that asks once for five tools and then answers, and tools
    that fail exactly when they are called "bad". *)
#[local] Instance demo_world : World := {
  chat ms :=
    if has_assistant ms then mkResponse (Some "done") [] None
    else mkResponse None
           [call "bad" "a"; call "good" "x"; call "bad" "b";
            call "good" "y"; call "bad" "c"] None;
  execute _ tc :=
    if (tc_name tc =? "bad")%string then "Error: no such file" else "fine";
  _compress_state _ _ _ _ := None;
  _check_sufficiency _ _ := false;
  json_dumps _ := "{}"
}.

(** A provider that never stops asking for the failing tool. *)
Definition stubborn_world : World := {|
  chat _ := mkResponse None [call "bad" "a"] None;
  execute _ _ := "Traceback (most recent call last)";
  _compress_state _ _ _ _ := None;
  _check_sufficiency _ _ := false;
  json_dumps _ := "{}"
|}.

Definition demo_round : loop_state :=
  run_tools (initial_state [UserMsg "hi"]) (resp_tool_calls (chat [UserMsg "hi"])).

Example demo_round_counters :
  consecutive_errors demo_round = 1%Z /\ total_errors demo_round = 3%Z /\
  failed_directions demo_round = ["bad(a)"; "bad(b)"; "bad(c)"].
Proof. repeat split; reflexivity. Qed.

Example strip_think_examples :
  _strip_think (Some "<think>plan</think> done ") = Some "done" /\
  _strip_think (Some "a<think>x</think>b<think>y</think>c") = Some "abc" /\
  _strip_think (Some "a<think>never closed") = Some "a<think>never closed" /\
  _strip_think (Some "<think>only</think>") = None /\
  _strip_think (Some "") = None /\ _strip_think None = None.
Proof. repeat split; reflexivity. Qed.

Example has_error_examples :
  has_error "Error: no such file" = true /\
  has_error "Permission Denied" = true /\
  has_error "3 files written" = false.
Proof. repeat split; reflexivity. Qed.

(** *** The error streak *)

(** C2. After a tool result that is not classified as an error the
    consecutive-error counter is 0, and an error result adds 1 to it; the
    "STOP retrying" instruction is the feedback of a round only when the
    counter is at least 3; and in every run of the loop the counter is the
    number of error results that end the sequence of tool results of the
    run, and every "STOP retrying" message the run appended follows at
    least three error results in a row with no other result between
    them. *)
Theorem error_streak_counter (world : World) :
  (forall st tc,
     consecutive_errors (run_tool st tc) =
     if has_error (execute (messages st) tc)
     then (consecutive_errors st + 1)%Z else 0%Z) /\
  (forall st text,
     error_feedback st = Some text -> is_escalation (UserMsg text) = true ->
     (3 <= consecutive_errors st)%Z) /\
  (forall max_iterations initial on_progress,
     exists st app,
       _run_agent_loop max_iterations initial on_progress = Some st /\
       messages st = (initial ++ app)%list /\
       consecutive_errors st = Z.of_nat (trailing_errors (tool_results app)) /\
       escalations_justified app).
Proof.
  split; [|split].
  - intros st tc. reflexivity.
  - intros st text. unfold error_feedback.
    destruct (3 <=? consecutive_errors st)%Z eqn:E3.
    + intros _ _. apply Z.leb_le, E3.
    + destruct (0 <? consecutive_errors st)%Z; [|discriminate].
      intros [= <-]. simpl. discriminate.
  - intros max_iterations initial on_progress.
    destruct (run_enough (Z.to_nat max_iterations) max_iterations on_progress
                (user_request_of initial) (initial_state initial))
      as (st & Hrun & _); [simpl; lia|].
    pose proof (inv_run initial _ _ _ _ _ _ (inv_initial initial) Hrun)
      as (app & Hm & Hc & Hj).
    exists st, app. auto.
Qed.

Lemma error_streak_counter_witness :
  exists st app,
    _run_agent_loop (world := stubborn_world) 4 [UserMsg "hi"] false = Some st /\
    messages st = ([UserMsg "hi"] ++ app)%list /\
    consecutive_errors st = Z.of_nat (trailing_errors (tool_results app)) /\
    escalations_justified app.
Proof.
  exact (proj2 (proj2 (error_streak_counter stubborn_world)) 4%Z [UserMsg "hi"] false).
Defined.

(** *** The iteration budget *)

(** C6. For every initial message list the loop returns, with the fuel
    of [max_iterations] passes and with any larger fuel, after at most
    [max_iterations] iterations; when every provider response carries tool
    calls it uses the whole budget and returns no final content; a final
    content, when there is one, is the stripped content of a response
    without tool calls. *)
Theorem agent_loop_within_budget (world : World) (max_iterations : Z)
  (initial : list message) (on_progress : bool) :
  exists st,
    _run_agent_loop max_iterations initial on_progress = Some st /\
    (forall fuel, (Z.to_nat max_iterations <= fuel)%nat ->
       run fuel max_iterations on_progress (user_request_of initial)
         (initial_state initial) = Some st) /\
    (iteration st <= Z.max 0 max_iterations)%Z /\
    ((forall ms, has_tool_calls (chat ms) = true) ->
     iteration st = Z.max 0 max_iterations /\ final_content st = None) /\
    (final_content st <> None ->
     exists ms, has_tool_calls (chat ms) = false /\
       final_content st = _strip_think (resp_content (chat ms))).
Proof.
  destruct (run_enough (Z.to_nat max_iterations) max_iterations on_progress
              (user_request_of initial) (initial_state initial))
    as (st & Hrun & Hle & Hcase); [simpl; lia|].
  exists st. simpl in Hle, Hcase. split; [exact Hrun|]. split.
  { intros fuel Hfuel.
    replace fuel with (Z.to_nat max_iterations + (fuel - Z.to_nat max_iterations))%nat
      by lia.
    now apply run_more_fuel. }
  repeat split; try assumption.
  - destruct Hcase as [[_ Hi]|(ms & Hms & _)]; [exact Hi|].
    rewrite H in Hms. discriminate.
  - destruct Hcase as [[Hf _]|(ms & Hms & _)]; [exact Hf|].
    rewrite H in Hms. discriminate.
  - intros Hne. destruct Hcase as [[Hf _]|Hex]; [contradiction|exact Hex].
Qed.

Lemma agent_loop_within_budget_witness :
  exists st,
    _run_agent_loop (world := stubborn_world) 3 [UserMsg "hi"] false = Some st /\
    iteration st = 3%Z /\ final_content st = None.
Proof.
  destruct (agent_loop_within_budget stubborn_world 3 [UserMsg "hi"] false)
    as (st & Hrun & _ & _ & Hall & _).
  exists st. split; [exact Hrun|].
  apply Hall. intros ms. reflexivity.
Defined.

(** *** The milder instruction *)

Definition mild_base : string :=
  "The tool returned an error. Analyze what went wrong and try a different approach.".

Definition hinted (directions : list string) : string :=
  mild_base ++ nl ++ "Already tried and failed: " ++ join "; " directions.

(** The instruction as the specification words it: the one or two most
    recent failed directions are listed. *)
Definition mild_lists_one_or_two : Prop :=
  forall st : loop_state,
    (1 <= consecutive_errors st <= 2)%Z ->
    (1 < List.length (failed_directions st))%nat ->
    exists k, (1 <= k <= 2)%nat /\
      error_feedback st = Some (hinted (lastn k (failed_directions st))).

(** C8, as stated, fails: after a round whose tools fail, succeed, fail,
    succeed and fail, the streak is 1 and the milder instruction lists
    three failed directions. *)
Lemma mild_feedback_lists_three :
  consecutive_errors demo_round = 1%Z /\
  error_feedback demo_round = Some (hinted ["bad(a)"; "bad(b)"; "bad(c)"]) /\
  ~ mild_lists_one_or_two.
Proof.
  split; [reflexivity|]. split; [reflexivity|].
  intros H. destruct (H demo_round) as (k & Hk & Heq).
  - vm_compute. split; discriminate.
  - vm_compute. lia.
  - destruct k as [|[|[|k]]]; try lia; vm_compute in Heq; discriminate.
Qed.

Lemma lastn_suffix {A} (n : nat) (l : list A) :
  List.length (lastn n l) = Nat.min n (List.length l) /\
  exists older, l = (older ++ lastn n l)%list.
Proof.
  unfold lastn. split.
  - rewrite length_skipn. lia.
  - exists (firstn (List.length l - n) l). symmetry. apply firstn_skipn.
Qed.

(** C8, amended. When the tool calls of a round leave the streak at 1 or
    2, the round appends the milder instruction; with more than one failed
    direction so far the instruction lists the most recent ones, up to
    three of them, and with at most one it lists none. *)
Theorem mild_feedback_after_round (world : World) (on_progress : bool)
  (response : LLMResponse) (st : loop_state) :
  let after :=
    run_tools
      (add_message (report_progress on_progress response st)
         (AssistantMsg (resp_content response) (resp_tool_calls response)
            (resp_reasoning_content response)))
      (resp_tool_calls response) in
  let directions := failed_directions after in
  (1 <= consecutive_errors after <= 2)%Z ->
  messages (tool_round on_progress response st) =
    (messages after ++
     [UserMsg (if (1 <? List.length directions)%nat
               then hinted (lastn 3 directions) else mild_base)])%list /\
  List.length (lastn 3 directions) = Nat.min 3 (List.length directions) /\
  exists older, directions = (older ++ lastn 3 directions)%list.
Proof.
  intros after directions Hc. split; [|apply lastn_suffix].
  unfold tool_round. fold after. unfold inject_feedback, error_feedback.
  destruct (3 <=? consecutive_errors after)%Z eqn:E3;
    [apply Z.leb_le in E3; lia|].
  destruct (0 <? consecutive_errors after)%Z eqn:E0;
    [|apply Z.ltb_ge in E0; lia].
  unfold mild_feedback. fold directions.
  destruct (1 <? List.length directions)%nat; reflexivity.
Qed.

Lemma mild_feedback_after_round_witness :
  messages (tool_round (world := demo_world) false (chat [UserMsg "hi"])
              (initial_state [UserMsg "hi"])) =
  [UserMsg "hi";
   AssistantMsg None (resp_tool_calls (chat [UserMsg "hi"])) None;
   ToolMsg "id" "bad" "Error: no such file"; ToolMsg "id" "good" "fine";
   ToolMsg "id" "bad" "Error: no such file"; ToolMsg "id" "good" "fine";
   ToolMsg "id" "bad" "Error: no such file";
   UserMsg (hinted ["bad(a)"; "bad(b)"; "bad(c)"])].
Proof.
  refine (proj1 (mild_feedback_after_round demo_world false
                   (chat [UserMsg "hi"]) (initial_state [UserMsg "hi"]) _)).
  vm_compute. split; discriminate.
Defined.

End AgentFacts.

(* ================================================================== *)
(** ** Facts about the experience store *)
(* ================================================================== *)

Module MemoryFacts.
Import Memory PyStrFacts.

(** *** Reading and writing content fields *)

(** Two field tags that no line can start with at once. *)
Definition tags_apart (f g : string) : Prop :=
  forall line, startswith line (tag f) = true -> startswith line (tag g) = false.

Lemma tags_apart_intro (f g : string) :
  String.prefix (tag f) (tag g) = false ->
  String.prefix (tag g) (tag f) = false -> tags_apart f g.
Proof.
  intros Hfg Hgf line Hf. unfold startswith in *.
  destruct (String.prefix (tag g) line) eqn:Hg; [|reflexivity].
  destruct (prefix_both _ _ _ Hf Hg); congruence.
Qed.

Lemma startswith_tag (f rest : string) :
  startswith (tag f ++ rest) (tag f) = true.
Proof. apply prefix_app. Qed.

Lemma after_first_tag (f rest : string) :
  has_char "]" f = false -> after_first "]" (tag f ++ rest) = Some rest.
Proof.
  intros H. unfold tag. cbn [append after_first].
  change (Ascii.eqb "[" "]") with false. cbv iota.
  induction f as [|c f IH]; [reflexivity|].
  simpl in H. apply orb_false_iff in H. destruct H as [Hc Hf].
  cbn [append after_first]. rewrite Hc. auto.
Qed.

Lemma one_line_field_line (f v : string) :
  one_line f -> one_line v -> one_line (tag f ++ " " ++ v).
Proof.
  unfold one_line, tag. intros Hf Hv.
  rewrite !has_char_app, Hf, Hv. reflexivity.
Qed.

Lemma set_field_lines_shape (ls : list string) (f v : string) :
  set_field_lines ls f v <> [] /\
  (Forall one_line ls -> one_line f -> one_line v ->
   Forall one_line (set_field_lines ls f v)).
Proof.
  split.
  - destruct ls as [|l ls]; simpl; [discriminate|].
    destruct (startswith l (tag f)); discriminate.
  - intros Hls Hf Hv. induction Hls as [|l ls Hl Hls IH]; simpl.
    + constructor; [now apply one_line_field_line|constructor].
    + destruct (startswith l (tag f)); constructor; auto.
      now apply one_line_field_line.
Qed.

Lemma lines_set_field (content f v : string) :
  one_line f -> one_line v ->
  lines (_set_field content f v) = set_field_lines (lines content) f v.
Proof.
  intros Hf Hv. unfold _set_field.
  destruct (set_field_lines_shape (lines content) f v) as [Hne Hall].
  apply lines_unlines; [assumption|].
  apply Hall; auto. apply lines_all_one_line.
Qed.

Lemma parse_int_lines_hit (f : string) (z d : Z) (rest : list string) :
  has_char "]" f = false ->
  parse_int_lines ((tag f ++ " " ++ str z) :: rest) f d = z.
Proof.
  intros Hf. cbn [parse_int_lines].
  rewrite startswith_tag, after_first_tag by assumption.
  change (" " ++ str z) with (String " " (str z)).
  now rewrite py_int_field_value.
Qed.

Lemma parse_int_lines_set_same (ls : list string) (f : string) (z d : Z) :
  has_char "]" f = false ->
  parse_int_lines (set_field_lines ls f (str z)) f d = z.
Proof.
  intros Hf.
  assert (Hnew : forall rest,
             parse_int_lines ((tag f ++ " " ++ str z) :: rest) f d = z).
  { intros rest. now apply parse_int_lines_hit. }
  induction ls as [|l ls IH]; cbn [set_field_lines]; [apply Hnew|].
  destruct (startswith l (tag f)) eqn:E; [apply Hnew|].
  cbn [parse_int_lines]. now rewrite E.
Qed.

Lemma parse_int_lines_set_other (ls : list string) (f g v : string) (d : Z) :
  tags_apart f g ->
  parse_int_lines (set_field_lines ls f v) g d = parse_int_lines ls g d.
Proof.
  intros Ha.
  assert (Hnew : startswith (tag f ++ " " ++ v) (tag g) = false).
  { apply Ha, startswith_tag. }
  induction ls as [|l ls IH]; cbn [set_field_lines parse_int_lines].
  - now rewrite Hnew.
  - destruct (startswith l (tag f)) eqn:E; cbn [parse_int_lines].
    + now rewrite Hnew, (Ha _ E).
    + now rewrite IH.
Qed.

Lemma parse_field_lines_set_other (ls : list string) (f g v : string) :
  tags_apart f g ->
  parse_field_lines (set_field_lines ls f v) g = parse_field_lines ls g.
Proof.
  intros Ha.
  assert (Hnew : startswith (tag f ++ " " ++ v) (tag g) = false).
  { apply Ha, startswith_tag. }
  induction ls as [|l ls IH]; cbn [set_field_lines parse_field_lines].
  - now rewrite Hnew.
  - destruct (startswith l (tag f)) eqn:E; cbn [parse_field_lines].
    + now rewrite Hnew, (Ha _ E).
    + now rewrite IH.
Qed.

(** A field written with [_set_field] reads back as the integer written. *)
Lemma parse_set_same (content f : string) (z d : Z) :
  has_char "]" f = false -> one_line f ->
  _parse_int_field (_set_field content f (str z)) f d = z.
Proof.
  intros Hb Hf. unfold _parse_int_field.
  rewrite lines_set_field by (auto using str_one_line).
  now apply parse_int_lines_set_same.
Qed.

(** Writing one field leaves the reading of another alone. *)
Lemma parse_set_other (content f g v : string) (d : Z) :
  one_line f -> one_line v -> tags_apart f g ->
  _parse_int_field (_set_field content f v) g d = _parse_int_field content g d.
Proof.
  intros Hf Hv Ha. unfold _parse_int_field.
  rewrite lines_set_field by assumption.
  now apply parse_int_lines_set_other.
Qed.

Lemma parse_field_set_other (content f g v : string) :
  one_line f -> one_line v -> tags_apart f g ->
  _parse_field (_set_field content f v) g = _parse_field content g.
Proof.
  intros Hf Hv Ha. unfold _parse_field.
  rewrite lines_set_field by assumption.
  now apply parse_field_lines_set_other.
Qed.

Ltac apart := apply tags_apart_intro; reflexivity.

(** What the loop body of [record_reuse] writes, field by field. *)
Lemma reuse_content_spec (content : string) (success : bool) :
  let uses := _parse_int_field content "Uses" 0 in
  let successes := _parse_int_field content "Successes" 0 in
  let quality := _parse_quality content in
  let uses' := (uses + 1)%Z in
  let successes' := (successes + (if success then 1 else 0))%Z in
  let conf := inject_Z successes' / inject_Z uses' in
  let content' := reuse_content content success in
  _parse_int_field content' "Uses" 0 = uses' /\
  _parse_int_field content' "Successes" 0 = successes' /\
  _parse_quality content' =
    (if (3 <=? uses')%Z then
       if Qle_bool (8 # 10) conf then Z.min 5 (quality + 1)
       else if Qltb conf (4 # 10) then Z.max 1 (quality - 1)
       else quality
     else quality).
Proof.
  intros uses successes quality uses' successes' conf content'.
  unfold content', reuse_content.
  fold uses successes. fold uses' successes'. fold conf.
  set (u1 := _set_field content "Uses" (str uses')).
  set (u2 := _set_field u1 "Successes" (str successes')).
  assert (Hq2 : _parse_quality u2 = quality).
  { unfold _parse_quality, u2, u1.
    rewrite !parse_set_other; auto using str_one_line; try apart; reflexivity. }
  assert (Hu2 : _parse_int_field u2 "Uses" 0 = uses').
  { unfold u2, u1. rewrite parse_set_other; auto using str_one_line; try apart;
      try reflexivity.
    apply parse_set_same; reflexivity. }
  assert (Hs2 : _parse_int_field u2 "Successes" 0 = successes').
  { unfold u2. apply parse_set_same; reflexivity. }
  destruct (3 <=? uses')%Z.
  - rewrite Hq2. repeat split.
    + rewrite parse_set_other; auto using str_one_line; try apart; reflexivity.
    + rewrite parse_set_other; auto using str_one_line; try apart; reflexivity.
    + unfold _parse_quality. apply parse_set_same; reflexivity.
  - auto.
Qed.

(** *** Comparisons *)

Lemma Qltb_lt (a b : Q) : Qltb a b = true <-> (a < b)%Q.
Proof.
  unfold Qltb. rewrite negb_true_iff, <- not_true_iff_false, Qle_bool_iff.
  split; [apply Qnot_le_lt|apply Qlt_not_le].
Qed.

(** *** Lists *)

Lemma filter_all {A} (p : A -> bool) (l : list A) :
  (forall x, In x l -> p x = true) -> filter p l = l.
Proof.
  induction l as [|x l IH]; simpl; intros H; [reflexivity|].
  rewrite (H x) by auto. f_equal. apply IH. auto.
Qed.

Lemma filter_none {A} (p : A -> bool) (l : list A) :
  (forall x, In x l -> p x = false) -> filter p l = [].
Proof.
  induction l as [|x l IH]; simpl; intros H; [reflexivity|].
  rewrite (H x) by auto. apply IH. auto.
Qed.

Lemma filter_twice {A} (p q : A -> bool) (l : list A) :
  filter p (filter q l) = filter (fun x => q x && p x) l.
Proof.
  induction l as [|x l IH]; simpl; [reflexivity|].
  destruct (q x); simpl; [destruct (p x)|]; now rewrite IH.
Qed.

Lemma In_firstn {A} (n : nat) (l : list A) (x : A) :
  In x (firstn n l) -> In x l.
Proof.
  revert n. induction l as [|y l IH]; intros [|n]; simpl; try tauto.
  intros [H|H]; eauto.
Qed.

(** Distinct images stay distinct in a filtered list and in a prefix. *)
Lemma distinct_images_filter {X K} (image : X -> K) (keep : X -> bool)
  (xs : list X) (Hxs : NoDup (map image xs)) :
  NoDup (map image (filter keep xs)).
Proof.
  revert Hxs. induction xs as [|a xs IHxs]; simpl; intros Hxs; [constructor|].
  inversion Hxs as [|? ? Ha Hrest]; subst.
  destruct (keep a); simpl; auto. constructor; auto.
  intros Hin. apply Ha. apply in_map_iff in Hin.
  destruct Hin as (y & Hy & Hin). apply filter_In in Hin.
  apply in_map_iff. exists y. tauto.
Qed.

Lemma distinct_images_firstn {X K} (image : X -> K) (xs : list X)
  (Hxs : NoDup (map image xs)) (n : nat) :
  NoDup (map image (firstn n xs)).
Proof.
  revert n Hxs. induction xs as [|a xs IHxs]; intros [|n] Hxs; simpl;
    try constructor.
  - inversion Hxs; subst. intros Hin. apply in_map_iff in Hin.
    destruct Hin as (y & Hy & Hin). apply In_firstn in Hin.
    match goal with Ha : ~ In _ _ |- _ => apply Ha end.
    apply in_map_iff. eauto.
  - inversion Hxs; subst. auto.
Qed.

Lemma NoDup_map_In_inj {A B} (f : A -> B) (l : list A) (x y : A) :
  NoDup (map f l) -> In x l -> In y l -> f x = f y -> x = y.
Proof.
  induction l as [|z l IH]; simpl; [tauto|].
  intros H Hx Hy Hf. inversion H as [|? ? Hz Hl]; subst.
  destruct Hx as [-> | Hx], Hy as [-> | Hy]; auto.
  - exfalso. apply Hz. rewrite Hf. now apply in_map.
  - exfalso. apply Hz. rewrite <- Hf. now apply in_map.
Qed.

Lemma fold_left_collect {A B} (skip keep : A -> bool) (g : A -> B)
  (l : list A) :
  forall acc,
    fold_left
      (fun results r =>
         if skip r then results
         else if keep r then (results ++ [g r])%list else results)
      l acc =
    (acc ++ map g (filter (fun r => negb (skip r) && keep r) l))%list.
Proof.
  induction l as [|x l IH]; intros acc; simpl.
  - symmetry. apply app_nil_r.
  - rewrite IH. destruct (skip x); simpl; [reflexivity|].
    destruct (keep x); simpl; [|reflexivity].
    now rewrite <- app_assoc.
Qed.

(** *** Tables *)

Section Tables.
Context {platform : Platform}.

(** Keys identify rows: they are pairwise distinct and none is empty, as
    are the keys the store writes at distinct instants. *)
Definition well_keyed (t : table) : Prop :=
  NoDup (map key t) /\ Forall (fun r => key r <> "") t.

Definition key_in (ks : list string) (r : row) : bool :=
  existsb (String.eqb (key r)) ks.

Definition has_key (k : string) (r : row) : bool := (key r =? k)%string.

(** The rows of a table that carry the key [k]. *)
Definition rows_with_key (t : table) (k : string) : list row :=
  filter (has_key k) t.


Lemma key_in_spec (ks : list string) (r : row) :
  key_in ks r = true <-> In (key r) ks.
Proof.
  unfold key_in. rewrite existsb_exists. split.
  - intros (k & Hk & E). apply String.eqb_eq in E. now subst.
  - intros H. exists (key r). split; [assumption|apply String.eqb_refl].
Qed.

Lemma rows_with_key_unique (l : list row) (r : row) :
  NoDup (map key l) -> In r l -> rows_with_key l (key r) = [r].
Proof.
  unfold rows_with_key, has_key.
  induction l as [|x l IH]; simpl; [tauto|].
  intros H Hin. inversion H as [|? ? Hx Hl]; subst.
  destruct Hin as [-> | Hin].
  - rewrite String.eqb_refl. f_equal. apply filter_none.
    intros y Hy. apply String.eqb_neq. intros E. apply Hx.
    rewrite <- E. now apply in_map.
  - destruct (String.eqb_spec (key x) (key r)) as [E|E]; [|auto].
    exfalso. apply Hx. rewrite E. now apply in_map.
Qed.

Lemma tbl_where_type_In (t : table) (ty : string) (n : nat) (r : row) :
  In r (tbl_where_type t ty n) -> In r t /\ type_ r = ty.
Proof.
  unfold tbl_where_type. intros H. apply In_firstn, filter_In in H.
  destruct H as [H E]. now apply String.eqb_eq in E.
Qed.

Lemma tbl_where_type_keys (t : table) (ty : string) (n : nat) :
  NoDup (map key t) -> NoDup (map key (tbl_where_type t ty n)).
Proof.
  intros H. now apply distinct_images_firstn, distinct_images_filter.
Qed.

(** When no more than [n] rows have the type, the query returns them all. *)
Lemma tbl_where_type_all (t : table) (ty : string) (n : nat) (r : row) :
  (List.length (filter (fun r => (type_ r =? ty)%string) t) <= n)%nat ->
  In r t -> type_ r = ty -> In r (tbl_where_type t ty n).
Proof.
  intros Hn Hin Hty. unfold tbl_where_type.
  rewrite firstn_all2 by assumption.
  apply filter_In. split; [assumption|]. now apply String.eqb_eq.
Qed.

(** *** Matching *)

Definition matching (keywords : list string) (threshold : Q) (r : row)
  : bool :=
  negb (is_deprecated (content r)) && overlaps keywords (content r) threshold.

Definition with_content (r : row) : row * string := (r, content r).

Lemma match_rows_filter (t : table) (task_desc : string) (threshold : Q) :
  _match_experience_rows t task_desc threshold =
  match keywords_of task_desc with
  | [] => []
  | _ =>
      map with_content
        (filter (matching (keywords_of task_desc) threshold)
           (tbl_where_type t "experience" 100))
  end.
Proof.
  unfold _match_experience_rows.
  destruct (keywords_of task_desc) as [|kw kws] eqn:E; [reflexivity|].
  apply (fold_left_collect (fun r => is_deprecated (content r))
           (fun r => overlaps (kw :: kws) (content r) threshold)
           with_content).
Qed.

Lemma match_rows_In (t : table) (task_desc : string) (threshold : Q)
  (r : row) (c : string) :
  In (r, c) (_match_experience_rows t task_desc threshold) <->
  keywords_of task_desc <> [] /\
  In r (tbl_where_type t "experience" 100) /\
  is_deprecated (content r) = false /\
  overlaps (keywords_of task_desc) (content r) threshold = true /\
  c = content r.
Proof.
  rewrite match_rows_filter.
  destruct (keywords_of task_desc) as [|kw kws] eqn:E.
  - simpl. split; [tauto|]. intros [H _]. congruence.
  - rewrite in_map_iff. unfold with_content, matching. split.
    + intros (x & [= <- <-] & Hin). apply filter_In in Hin.
      destruct Hin as [Hin Hm]. apply andb_true_iff in Hm.
      destruct Hm as [Hd Ho]. apply negb_true_iff in Hd.
      split; [discriminate|]. auto.
    + intros (_ & Hin & Hd & Ho & ->). exists r. split; [reflexivity|].
      apply filter_In. split; [assumption|]. now rewrite Hd, Ho.
Qed.

Lemma match_rows_keys (t : table) (task_desc : string) (threshold : Q) :
  NoDup (map key t) ->
  NoDup (map (fun m => key (fst m))
           (_match_experience_rows t task_desc threshold)).
Proof.
  intros H. rewrite match_rows_filter.
  destruct (keywords_of task_desc); [constructor|].
  rewrite map_map. simpl.
  now apply distinct_images_filter, tbl_where_type_keys.
Qed.

(** *** Rewriting matched rows *)

Definition update_step (F : string -> string) (st : table * Z)
  (m : row * string) : table * Z :=
  let (t, count) := st in
  let (r, content) := m in
  (_update_experience_row t r (F content), (count + 1)%Z).

Definition rewritten (F : string -> string) (m : row * string) : row :=
  mkRow (key (fst m)) (F (snd m)) "experience" (updated_at (fst m)).

Definition keys_of (ms : list (row * string)) : list string :=
  map (fun m => key (fst m)) ms.

(** The table after the matched rows were rewritten one by one: the rows
    that were not matched, in their order, then the rewritten rows. *)
Lemma update_fold_closed (F : string -> string) (ms : list (row * string)) :
  NoDup (keys_of ms) -> Forall (fun m => key (fst m) <> "") ms ->
  forall t c,
    fold_left (update_step F) ms (t, c) =
    ((filter (fun r => negb (key_in (keys_of ms) r)) t ++
      map (rewritten F) ms)%list,
     (c + Z.of_nat (List.length ms))%Z).
Proof.
  induction ms as [|[r content] ms IH]; intros Hnd Hne t c.
  - simpl. rewrite app_nil_r, filter_all by reflexivity. f_equal. lia.
  - inversion Hnd as [|? ? Hk Hnd']; subst.
    inversion Hne as [|? ? Hr Hne']; subst. simpl in Hr, Hk.
    cbn [fold_left update_step]. unfold _update_experience_row.
    apply String.eqb_neq in Hr. rewrite Hr.
    rewrite (IH Hnd' Hne'). f_equal; [|cbn [List.length]; lia].
    unfold tbl_add, tbl_delete_key.
    rewrite filter_app, filter_twice. cbn [filter map].
    replace (key_in (keys_of ms) (mkRow (key r) (F content) "experience" (updated_at r)))
      with false.
    + cbn [negb]. rewrite <- app_assoc. f_equal.
      apply filter_ext. intros x. unfold key_in, keys_of. cbn [map existsb fst].
      now rewrite negb_orb.
    + symmetry. apply not_true_iff_false. rewrite key_in_spec. exact Hk.
Qed.

Lemma rows_with_key_app (a b : table) (k : string) :
  rows_with_key (a ++ b)%list k =
  (rows_with_key a k ++ rows_with_key b k)%list.
Proof. apply filter_app. Qed.

(** A matched row is the one row of its key afterwards: rewritten. *)
Lemma update_fold_row (F : string -> string) (ms : list (row * string))
  (t : table) (c : Z) (m : row * string) :
  NoDup (keys_of ms) -> Forall (fun m => key (fst m) <> "") ms -> In m ms ->
  rows_with_key (fst (fold_left (update_step F) ms (t, c))) (key (fst m)) =
  [rewritten F m].
Proof.
  intros Hnd Hne Hin. rewrite update_fold_closed by assumption.
  cbn [fst]. rewrite rows_with_key_app.
  replace (rows_with_key (filter _ t) (key (fst m))) with (@nil row).
  - cbn [app].
    apply (rows_with_key_unique (map (rewritten F) ms) (rewritten F m)).
    + rewrite map_map. exact Hnd.
    + now apply in_map.
  - symmetry. unfold rows_with_key. rewrite filter_twice. apply filter_none.
    intros x _. apply andb_false_iff.
    destruct (has_key (key (fst m)) x) eqn:E; [left|now right].
    apply negb_false_iff, key_in_spec. unfold has_key in E.
    apply String.eqb_eq in E. rewrite E. unfold keys_of.
    now apply (in_map (fun m => key (fst m))).
Qed.

(** A row that was not matched stays. *)
Lemma update_fold_frame (F : string -> string) (ms : list (row * string))
  (t : table) (c : Z) (x : row) :
  NoDup (keys_of ms) -> Forall (fun m => key (fst m) <> "") ms ->
  In x t -> ~ In (key x) (keys_of ms) ->
  In x (fst (fold_left (update_step F) ms (t, c))).
Proof.
  intros Hnd Hne Hin Hk. rewrite update_fold_closed by assumption.
  cbn [fst]. apply in_or_app. left. apply filter_In. split; [assumption|].
  apply negb_true_iff, not_true_iff_false. now rewrite key_in_spec.
Qed.

(** Every row afterwards is a row from before or a rewritten match. *)
Lemma update_fold_In (F : string -> string) (ms : list (row * string)) :
  forall (t : table) (c : Z) (x : row),
    In x (fst (fold_left (update_step F) ms (t, c))) ->
    In x t \/ exists m, In m ms /\ x = rewritten F m.
Proof.
  induction ms as [|[r content] ms IH]; intros t c x H.
  - now left.
  - cbn [fold_left update_step] in H. apply IH in H.
    destruct H as [H|(m & Hm & ->)].
    + unfold _update_experience_row in H.
      destruct (key r =? "")%string; [now left|].
      apply in_app_or in H. destruct H as [H|[<-|[]]].
      * left. now apply filter_In in H.
      * right. exists (r, content). split; [now left|reflexivity].
    + right. exists m. split; [now right|reflexivity].
Qed.

Lemma record_reuse_fold (t : table) (task_desc : string) (success : bool) :
  record_reuse t task_desc success =
  fold_left (update_step (fun c => reuse_content c success))
    (_match_experience_rows t task_desc (4 # 10)) (t, 0%Z).
Proof. reflexivity. Qed.

Lemma deprecate_similar_fold (t : table) (task_desc : string) :
  deprecate_similar t task_desc =
  fold_left (update_step (fun c => "[Deprecated] " ++ c))
    (_match_experience_rows t task_desc (5 # 10)) (t, 0%Z).
Proof. reflexivity. Qed.

Lemma match_rows_nonempty_keys (t : table) (task_desc : string)
  (threshold : Q) :
  well_keyed t ->
  Forall (fun m => key (fst m) <> "")
    (_match_experience_rows t task_desc threshold).
Proof.
  intros [_ Hne]. apply Forall_forall. intros [r c] Hin.
  apply match_rows_In in Hin. destruct Hin as (_ & Hin & _).
  apply tbl_where_type_In in Hin. destruct Hin as [Hin _].
  rewrite Forall_forall in Hne. now apply Hne.
Qed.

(** The row of a match after the matched rows were rewritten with [F]. *)
Lemma rewritten_match (F : string -> string) (t : table)
  (task_desc : string) (threshold : Q) (r : row) (c : string) (n : Z) :
  well_keyed t ->
  In (r, c) (_match_experience_rows t task_desc threshold) ->
  rows_with_key
    (fst (fold_left (update_step F)
            (_match_experience_rows t task_desc threshold) (t, n)))
    (key r) =
  [mkRow (key r) (F (content r)) (type_ r) (updated_at r)].
Proof.
  intros Hwf Hin.
  rewrite (update_fold_row F _ t n (r, c)); try assumption.
  - apply match_rows_In in Hin. destruct Hin as (_ & Hin & _ & _ & ->).
    apply tbl_where_type_In in Hin. destruct Hin as [_ ->]. reflexivity.
  - apply match_rows_keys, Hwf.
  - now apply match_rows_nonempty_keys.
Qed.

(** *** Keys stay distinct *)

Lemma well_keyed_sample : well_keyed _SAMPLE.
Proof.
  split; repeat constructor; simpl; try tauto. discriminate.
Qed.

Lemma well_keyed_filter (p : row -> bool) (t : table) :
  well_keyed t -> well_keyed (filter p t).
Proof.
  intros [Hnd Hne]. split.
  - now apply distinct_images_filter.
  - rewrite Forall_forall in *. intros r Hr. apply filter_In in Hr.
    now apply Hne.
Qed.

Lemma well_keyed_add (t : table) (r : row) :
  well_keyed t -> key r <> "" -> ~ In (key r) (map key t) ->
  well_keyed (tbl_add t r).
Proof.
  intros [Hnd Hne] Hk Hfresh. unfold tbl_add. split.
  - rewrite map_app. apply NoDup_app; [assumption|repeat constructor; auto|].
    intros k Hin [<-|[]]. auto.
  - apply Forall_app. split; [assumption|]. repeat constructor. exact Hk.
Qed.

(** An append at an instant whose key is not in the table yet. *)
Lemma well_keyed_append (now : Z) (t : table)
  (task outcome lessons : string) (quality : Z)
  (category keywords reasoning_trace : string) :
  well_keyed t -> ~ In ("experience_" ++ isoformat now) (map key t) ->
  well_keyed
    (append_experience now t task outcome lessons quality category keywords
       reasoning_trace).
Proof.
  intros Hwf Hfresh. unfold append_experience.
  apply well_keyed_add; [assumption|discriminate|exact Hfresh].
Qed.

Lemma well_keyed_update_fold (F : string -> string) (t : table)
  (task_desc : string) (threshold : Q) (n : Z) :
  well_keyed t ->
  well_keyed
    (fst (fold_left (update_step F)
            (_match_experience_rows t task_desc threshold) (t, n))).
Proof.
  intros Hwf.
  pose proof (match_rows_keys t task_desc threshold (proj1 Hwf)) as Hk.
  pose proof (match_rows_nonempty_keys t task_desc threshold Hwf) as Hn.
  rewrite update_fold_closed by assumption. cbn [fst].
  set (ms := _match_experience_rows t task_desc threshold) in *.
  destruct (well_keyed_filter (fun r => negb (key_in (keys_of ms) r)) t Hwf)
    as [Hnd Hne].
  split.
  - rewrite map_app, map_map. apply NoDup_app; [assumption|exact Hk|].
    intros k Hin Hms. apply in_map_iff in Hin.
    destruct Hin as (x & <- & Hx). apply filter_In in Hx.
    destruct Hx as [_ Hx]. apply negb_true_iff, not_true_iff_false in Hx.
    apply Hx. now apply key_in_spec.
  - apply Forall_app. split; [assumption|].
    apply Forall_forall. intros x Hx. apply in_map_iff in Hx.
    destruct Hx as (m & <- & Hm). rewrite Forall_forall in Hn.
    now apply Hn.
Qed.

Lemma well_keyed_record_reuse (t : table) (task_desc : string)
  (success : bool) :
  well_keyed t -> well_keyed (fst (record_reuse t task_desc success)).
Proof. apply well_keyed_update_fold. Qed.

Lemma well_keyed_deprecate_similar (t : table) (task_desc : string) :
  well_keyed t -> well_keyed (fst (deprecate_similar t task_desc)).
Proof. apply well_keyed_update_fold. Qed.

(** *** Reinforcement *)

(** What the specification says of [record_reuse], for every record. *)
Definition reuse_claim : Prop :=
  forall (t : table) (task_desc : string) (success : bool) (r : row),
    In r t -> type_ r = "experience" ->
    is_deprecated (content r) = false ->
    overlaps (keywords_of task_desc) (content r) (4 # 10) = true ->
    exists r',
      In r' (fst (record_reuse t task_desc success)) /\ key r' = key r /\
      _parse_int_field (content r') "Uses" 0 =
      (_parse_int_field (content r) "Uses" 0 + 1)%Z.

(** The quality rule of [record_reuse], case by case. *)
Lemma quality_rule (uses' quality : Z) (conf : Q) :
  let quality' :=
    (if (3 <=? uses')%Z then
       if Qle_bool (8 # 10) conf then Z.min 5 (quality + 1)
       else if Qltb conf (4 # 10) then Z.max 1 (quality - 1)
       else quality
     else quality) in
  ((uses' < 3)%Z -> quality' = quality) /\
  ((3 <= uses')%Z ->
   ((8 # 10 <= conf)%Q -> quality' = Z.min 5 (quality + 1)) /\
   ((conf < 4 # 10)%Q -> quality' = Z.max 1 (quality - 1)) /\
   ((4 # 10 <= conf)%Q -> (conf < 8 # 10)%Q -> quality' = quality)).
Proof.
  intros quality'. unfold quality'. split; intros Hu.
  - apply Z.leb_gt in Hu. now rewrite Hu.
  - apply Z.leb_le in Hu. rewrite Hu.
    destruct (Qle_bool (8 # 10) conf) eqn:E8.
    + apply Qle_bool_iff in E8. repeat split; auto.
      * intros Hlt. exfalso.
        apply (Qlt_irrefl (4 # 10)), Qle_lt_trans with conf; [|assumption].
        apply Qle_trans with (8 # 10); [discriminate|assumption].
      * intros _ Hlt. exfalso. apply (Qlt_irrefl conf).
        now apply Qlt_le_trans with (8 # 10).
    + assert (H8 : (conf < 8 # 10)%Q).
      { apply Qnot_le_lt. intros Hle. apply Qle_bool_iff in Hle. congruence. }
      destruct (Qltb conf (4 # 10)) eqn:E4.
      * apply Qltb_lt in E4. repeat split; auto.
        -- intros Hle. exfalso. apply (Qlt_irrefl conf).
           now apply Qlt_le_trans with (8 # 10).
        -- intros Hle _. exfalso. apply (Qlt_irrefl conf).
           now apply Qlt_le_trans with (4 # 10).
      * assert (H4 : ~ (conf < 4 # 10)%Q).
        { intros Hlt. apply Qltb_lt in Hlt. congruence. }
        repeat split; auto.
        -- intros Hle. exfalso. apply (Qlt_irrefl conf).
           now apply Qlt_le_trans with (8 # 10).
        -- intros Hlt. contradiction.
Qed.

(** C4, amended. Let the task be ASCII text and the keys of the store
    distinct and not empty.  For every active record with ASCII content
    among the first 100 experience rows whose keyword overlap is at least
    40% of the keyword set of the task, which is not empty,
    [record_reuse] leaves one row under the record's key, with [uses] one
    higher, [successes] one higher iff [success], and, when the new
    [uses] is at least 3, the quality moved by the confidence
    [successes/uses]: up by one (at most 5) from 0.8 on, down by one (at
    least 1) below 0.4, unchanged between; below 3 uses the quality is
    unchanged.  Rows past the first 100 experience rows, and rows of
    another type, are still in the table afterwards, and a task without
    keywords changes nothing and counts 0. *)
Theorem record_reuse_reinforces (t : table) (task_desc : string)
  (success : bool) :
  well_keyed t ->
  isascii task_desc = true ->
  (forall r : row,
     keywords_of task_desc <> [] ->
     In r (tbl_where_type t "experience" 100) ->
     isascii (content r) = true ->
     is_deprecated (content r) = false ->
     overlaps (keywords_of task_desc) (content r) (4 # 10) = true ->
     let uses' := (_parse_int_field (content r) "Uses" 0 + 1)%Z in
     let successes' :=
       (_parse_int_field (content r) "Successes" 0 +
        (if success then 1 else 0))%Z in
     let quality := _parse_quality (content r) in
     let conf := inject_Z successes' / inject_Z uses' in
     exists r',
       rows_with_key (fst (record_reuse t task_desc success)) (key r)
       = [r'] /\
       _parse_int_field (content r') "Uses" 0 = uses' /\
       _parse_int_field (content r') "Successes" 0 = successes' /\
       ((uses' < 3)%Z -> _parse_quality (content r') = quality) /\
       ((3 <= uses')%Z ->
        ((8 # 10 <= conf)%Q ->
         _parse_quality (content r') = Z.min 5 (quality + 1)) /\
        ((conf < 4 # 10)%Q ->
         _parse_quality (content r') = Z.max 1 (quality - 1)) /\
        ((4 # 10 <= conf)%Q -> (conf < 8 # 10)%Q ->
         _parse_quality (content r') = quality))) /\
  (forall x : row,
     In x t -> ~ In x (tbl_where_type t "experience" 100) ->
     In x (fst (record_reuse t task_desc success))) /\
  (keywords_of task_desc = [] ->
   record_reuse t task_desc success = (t, 0%Z)).
Proof.
  intros Hwf _. split; [|split].
  - intros r Hkw Hin _ Hd Ho uses' successes' quality conf.
    assert (Hm : In (r, content r)
                   (_match_experience_rows t task_desc (4 # 10))).
    { apply match_rows_In. auto. }
    eexists. split.
    + rewrite record_reuse_fold.
      apply (rewritten_match (fun c => reuse_content c success)
               t task_desc (4 # 10) r (content r) 0%Z Hwf Hm).
    + cbn [content].
      destruct (reuse_content_spec (content r) success) as (Hu & Hs & Hq).
      split; [exact Hu|]. split; [exact Hs|].
      rewrite Hq. apply quality_rule.
  - intros x Hx Hout. rewrite record_reuse_fold.
    apply update_fold_frame; auto.
    + apply match_rows_keys, Hwf.
    + now apply match_rows_nonempty_keys.
    + unfold keys_of. intros Hk. apply in_map_iff in Hk.
      destruct Hk as ([r c] & Hkey & Hm). cbn [fst] in Hkey.
      apply match_rows_In in Hm. destruct Hm as (_ & Hr & _).
      assert (Hrt : In r t).
      { unfold tbl_where_type in Hr. apply In_firstn in Hr.
        now apply filter_In in Hr. }
      destruct Hwf as [Hnd _].
      assert (r = x) by (apply (NoDup_map_In_inj key t); assumption).
      subst r. contradiction.
  - intros Hkw. unfold record_reuse. rewrite match_rows_filter, Hkw.
    reflexivity.
Qed.

(** *** What a rewrite leaves alone *)

(** C10. [record_reuse] and [deprecate_similar] put back, under the key of
    every matched record, one row with the same key, the same type and the
    same [updated_at]; only the content differs.  The age that
    [search_experience] computes from [updated_at] is therefore the same
    before and after. *)
Theorem rewrite_keeps_key_and_timestamp (t : table) (task_desc : string)
  (success : bool) (r : row) (c : string) :
  well_keyed t ->
  (In (r, c) (_match_experience_rows t task_desc (4 # 10)) ->
   exists r',
     rows_with_key (fst (record_reuse t task_desc success)) (key r) = [r'] /\
     key r' = key r /\ updated_at r' = updated_at r /\ type_ r' = type_ r /\
     content r' = reuse_content (content r) success /\
     forall now, _days_since (updated_at r') now =
                 _days_since (updated_at r) now) /\
  (In (r, c) (_match_experience_rows t task_desc (5 # 10)) ->
   exists r',
     rows_with_key (fst (deprecate_similar t task_desc)) (key r) = [r'] /\
     key r' = key r /\ updated_at r' = updated_at r /\ type_ r' = type_ r /\
     content r' = "[Deprecated] " ++ content r /\
     forall now, _days_since (updated_at r') now =
                 _days_since (updated_at r) now).
Proof.
  intros Hwf. split; intros Hm.
  - eexists. split.
    + rewrite record_reuse_fold.
      apply (rewritten_match (fun c => reuse_content c success)
               t task_desc (4 # 10) r c 0%Z Hwf Hm).
    + cbn. auto.
  - eexists. split.
    + rewrite deprecate_similar_fold.
      apply (rewritten_match (fun c => "[Deprecated] " ++ c)
               t task_desc (5 # 10) r c 0%Z Hwf Hm).
    + cbn. auto.
Qed.

(** Rows that were not matched are not touched. *)
Lemma rewrite_frame (t : table) (task_desc : string) (success : bool)
  (x : row) :
  well_keyed t -> In x t ->
  (~ In (key x) (keys_of (_match_experience_rows t task_desc (4 # 10))) ->
   In x (fst (record_reuse t task_desc success))) /\
  (~ In (key x) (keys_of (_match_experience_rows t task_desc (5 # 10))) ->
   In x (fst (deprecate_similar t task_desc))).
Proof.
  intros Hwf Hin. split; intros Hk.
  - rewrite record_reuse_fold. apply update_fold_frame; auto.
    + apply match_rows_keys, Hwf.
    + now apply match_rows_nonempty_keys.
  - rewrite deprecate_similar_fold. apply update_fold_frame; auto.
    + apply match_rows_keys, Hwf.
    + now apply match_rows_nonempty_keys.
Qed.

End Tables.

(** *** Cleanup *)

Section Cleanup.
Context {platform : Platform}.

Definition removable (now a b : Z) (r : row) : bool :=
  should_remove now a b r && negb (key r =? "")%string.

Lemma cleanup_fold_closed (now a b : Z) (rows : list row) :
  forall (t : table) (n : Z),
    fold_left
      (fun (st : table * Z) (r : row) =>
         let (t, removed) := st in
         if should_remove now a b r && negb (key r =? "")%string
         then (tbl_delete_key t (key r), (removed + 1)%Z)
         else st)
      rows (t, n) =
    (filter
       (fun r => negb (key_in (map key (filter (removable now a b) rows)) r)) t,
     (n + Z.of_nat (List.length (filter (removable now a b) rows)))%Z).
Proof.
  induction rows as [|x rows IH]; intros t n.
  - cbn. rewrite filter_all by reflexivity. f_equal. lia.
  - cbn [fold_left filter]. fold (removable now a b x).
    destruct (removable now a b x).
    + rewrite IH. cbn [map List.length]. f_equal; [|lia].
      unfold tbl_delete_key. rewrite filter_twice. apply filter_ext.
      intros y. unfold key_in. cbn [existsb]. now rewrite negb_orb.
    + apply IH.
Qed.



Lemma well_keyed_cleanup_stale (now a b : Z) (t : table) :
  well_keyed t -> well_keyed (fst (cleanup_stale now t a b)).
Proof.
  intros Hwf. unfold cleanup_stale. rewrite cleanup_fold_closed.
  now apply well_keyed_filter.
Qed.



End Cleanup.

(** *** Dictionaries *)

Section DictFacts.
Context {V : Type}.

Lemma get_set (d : Dict.dict V) (k k' : string) (v : V) :
  Dict.get (Dict.set d k v) k' =
  if (k =? k')%string then Some v else Dict.get d k'.
Proof.
  induction d as [|[k0 v0] d IH]; cbn [Dict.set Dict.get].
  - reflexivity.
  - destruct (String.eqb_spec k0 k) as [->|Hne]; cbn [Dict.get].
    + destruct (k =? k')%string; reflexivity.
    + rewrite IH. destruct (String.eqb_spec k0 k') as [->|Hne'];
        [|reflexivity].
      apply not_eq_sym, String.eqb_neq in Hne. now rewrite Hne.
Qed.

Lemma get_snoc (d : Dict.dict V) (k k' : string) (v : V) :
  Dict.get (d ++ [(k, v)])%list k' =
  match Dict.get d k' with
  | Some x => Some x
  | None => if (k =? k')%string then Some v else None
  end.
Proof.
  induction d as [|[k0 v0] d IH]; simpl; [reflexivity|].
  destruct (k0 =? k')%string; [reflexivity|exact IH].
Qed.

Lemma get_In_values (d : Dict.dict V) (k : string) (v : V) :
  Dict.get d k = Some v -> In v (Dict.values d).
Proof.
  induction d as [|[k0 v0] d IH]; cbn; [discriminate|].
  destruct (k0 =? k)%string; [intros [= ->]; now left|auto].
Qed.

Lemma values_In_get (d : Dict.dict V) (v : V) :
  NoDup (map fst d) -> In v (Dict.values d) ->
  exists k, Dict.get d k = Some v.
Proof.
  induction d as [|[k0 v0] d IH]; cbn; [tauto|].
  intros Hnd [->|Hin].
  - exists k0. now rewrite String.eqb_refl.
  - inversion Hnd as [|? ? Hk Hd]; subst.
    destruct (IH Hd Hin) as [k Hget]. exists k.
    destruct (String.eqb_spec k0 k) as [->|_]; [|exact Hget].
    exfalso. apply Hk. clear - Hget.
    induction d as [|[k1 v1] d IH]; cbn in *; [discriminate|].
    destruct (String.eqb_spec k1 k); [now left|right; auto].
Qed.

Lemma get_None_keys (d : Dict.dict V) (k : string) :
  Dict.get d k = None -> ~ In k (map fst d).
Proof.
  induction d as [|[k0 v0] d IH]; cbn; [tauto|].
  destruct (String.eqb_spec k0 k); [discriminate|]. intros H [E|Hin]; auto.
  now apply IH.
Qed.

Lemma keys_set (d : Dict.dict V) (k : string) (v : V) :
  Dict.get d k <> None -> map fst (Dict.set d k v) = map fst d.
Proof.
  induction d as [|[k0 v0] d IH]; cbn; [congruence|].
  destruct (k0 =? k)%string; cbn; [reflexivity|].
  intros H. now rewrite IH.
Qed.

End DictFacts.

Lemma get_append_to {A} (d : Dict.dict (list A)) (k k' : string) (x : A) :
  Dict.get (Dict.append_to d k x) k' =
  if (k =? k')%string
  then Some (match Dict.get d k with Some l => l ++ [x] | None => [x] end)%list
  else Dict.get d k'.
Proof.
  unfold Dict.append_to. destruct (Dict.get d k) as [l|] eqn:E.
  - apply get_set.
  - rewrite get_snoc. destruct (String.eqb_spec k k') as [<-|_].
    + now rewrite E.
    + now destruct (Dict.get d k').
Qed.

Lemma keys_append_to {A} (d : Dict.dict (list A)) (k : string) (x : A) :
  NoDup (map fst d) -> NoDup (map fst (Dict.append_to d k x)).
Proof.
  intros H. unfold Dict.append_to. destruct (Dict.get d k) as [l|] eqn:E.
  - rewrite keys_set by congruence. exact H.
  - rewrite map_app. cbn. apply NoDup_app; [assumption|repeat constructor; auto|].
    intros y Hy [<-|[]]. revert Hy. now apply get_None_keys.
Qed.

(** *** Merge candidates *)

Section Merging.
Context {platform : Platform}.

(** The contents of the rows of one category, in table order. *)
Definition members (cat : string) (rows : list row) : list string :=
  map content
    (filter (fun r => (category_of (content r) =? cat)%string) rows).

Definition group_step (groups : Dict.dict (list string)) (r : row)
  : Dict.dict (list string) :=
  Dict.append_to groups (category_of (content r)) (content r).

Lemma groups_get (rows : list row) :
  forall (d : Dict.dict (list string)) (cat : string),
    Dict.get (fold_left group_step rows d) cat =
    match Dict.get d cat, members cat rows with
    | Some l, m => Some (l ++ m)%list
    | None, [] => None
    | None, m => Some m
    end.
Proof.
  induction rows as [|x rows IH]; intros d cat.
  - cbn. destruct (Dict.get d cat); [now rewrite app_nil_r|reflexivity].
  - cbn [fold_left]. rewrite IH. unfold group_step.
    rewrite get_append_to. unfold members. cbn [filter].
    destruct (String.eqb_spec (category_of (content x)) cat) as [->|Hne].
    + cbn [map]. fold (members cat rows).
      destruct (Dict.get d cat); [now rewrite <- app_assoc|reflexivity].
    + fold (members cat rows). reflexivity.
Qed.

Lemma groups_keys (rows : list row) :
  forall d : Dict.dict (list string),
    NoDup (map fst d) -> NoDup (map fst (fold_left group_step rows d)).
Proof.
  induction rows as [|x rows IH]; intros d H; [exact H|].
  cbn [fold_left]. apply IH. now apply keys_append_to.
Qed.

(** The active rows [get_merge_candidates] looks at. *)
Definition fetched_active (t : table) : list row :=
  filter (fun r => negb (is_deprecated (content r)))
    (tbl_where_type t "experience" 200).

(** All the active experience rows of the table. *)
Definition all_active (t : table) : list row :=
  filter (fun r => (type_ r =? "experience")%string
                   && negb (is_deprecated (content r))) t.

(** What the specification says, with the default [min_count]. *)
Definition merge_claim : Prop :=
  forall (t : table) (cat : string),
    (3 <= List.length (members cat (all_active t)))%nat ->
    In (members cat (all_active t)) (get_merge_candidates t 5).

(** C9, amended. [get_merge_candidates] returns nothing when fewer than
    [min_count] (5 by default) active records are among the first 200
    experience rows.  Otherwise it groups those active records by category
    and returns exactly the groups with at least 3 members: every category
    with 3 or more of them appears, with its records in table order. *)
Theorem merge_candidates_groups (t : table) (min_count : Z) :
  let active := fetched_active t in
  ((Z.of_nat (List.length active) < min_count)%Z ->
   get_merge_candidates t min_count = []) /\
  ((min_count <= Z.of_nat (List.length active))%Z ->
   forall g,
     In g (get_merge_candidates t min_count) <->
     exists cat, g = members cat active /\ (3 <= List.length g)%nat).
Proof.
  intros active. unfold get_merge_candidates. fold (fetched_active t).
  fold active. split; intros Hc.
  - apply Z.ltb_lt in Hc. now rewrite Hc.
  - apply Z.ltb_ge in Hc. rewrite Hc. intros g.
    change (fold_left _ active [])
      with (fold_left group_step active (@nil (string * list string))).
    rewrite filter_In, Nat.leb_le. split.
    + intros [Hin Hlen].
      apply values_In_get in Hin; [|apply groups_keys; constructor].
      destruct Hin as [cat Hget]. exists cat. split; [|assumption].
      rewrite groups_get in Hget. cbn [Dict.get] in Hget.
      destruct (members cat active); congruence.
    + intros (cat & -> & Hlen). split; [|assumption].
      apply (get_In_values _ cat). rewrite groups_get. cbn [Dict.get].
      destruct (members cat active); [cbn in Hlen; lia|reflexivity].
Qed.

End Merging.

(** *** Replacing merged records *)

Section Replacing.
Context {platform : Platform}.

Definition key_step (d : Dict.dict string) (r : row) : Dict.dict string :=
  Dict.set d (content r) (key r).

(** The key of the last of [rows] that holds the content [c]. *)
Definition last_key (c : string) (rows : list row) (init : option string)
  : option string :=
  fold_left
    (fun acc r => if (content r =? c)%string then Some (key r) else acc)
    rows init.

Lemma content_to_key_get (rows : list row) :
  forall (d : Dict.dict string) (c : string),
    Dict.get (fold_left key_step rows d) c = last_key c rows (Dict.get d c).
Proof.
  induction rows as [|x rows IH]; intros d c; [reflexivity|].
  cbn [fold_left]. unfold last_key in *. cbn [fold_left].
  rewrite IH. unfold key_step. now rewrite get_set.
Qed.

Lemma last_key_absent (c : string) (rows : list row) (init : option string) :
  ~ In c (map content rows) -> last_key c rows init = init.
Proof.
  revert init. induction rows as [|x rows IH]; intros init H; [reflexivity|].
  unfold last_key in *. cbn [fold_left].
  destruct (String.eqb_spec (content x) c) as [E|_].
  - exfalso. apply H. now left.
  - apply IH. intros Hin. apply H. now right.
Qed.

Lemma last_key_unique (rows : list row) (r : row) :
  NoDup (map content rows) -> In r rows ->
  forall init, last_key (content r) rows init = Some (key r).
Proof.
  induction rows as [|x rows IH]; intros Hnd Hin init; [destruct Hin|].
  inversion Hnd as [|? ? Hx Hrows]; subst.
  unfold last_key in *. cbn [fold_left]. destruct Hin as [->|Hin].
  - rewrite String.eqb_refl. now apply (last_key_absent (content r) rows).
  - now apply IH.
Qed.

Lemma last_key_found (c : string) (rows : list row) (k : string) :
  forall init,
    last_key c rows init = Some k ->
    init = Some k \/ exists r, In r rows /\ content r = c /\ key r = k.
Proof.
  induction rows as [|x rows IH]; intros init H; [now left|].
  unfold last_key in *. cbn [fold_left] in H. apply IH in H.
  destruct H as [H|(r & Hr & Hc & Hk)].
  - destruct (String.eqb_spec (content x) c) as [E|_]; [|now left].
    injection H as <-. right. exists x. split; [now left|auto].
  - right. exists r. split; [now right|auto].
Qed.

Definition delete_step (d : Dict.dict string) (t : table) (entry : string)
  : table :=
  match Dict.get d entry with
  | Some k => if (k =? "")%string then t else tbl_delete_key t k
  | None => t
  end.

(** The keys the deletion loop deletes. *)
Definition doomed (d : Dict.dict string) (old_entries : list string)
  : list string :=
  flat_map
    (fun entry =>
       match Dict.get d entry with
       | Some k => if (k =? "")%string then [] else [k]
       | None => []
       end)
    old_entries.

Lemma delete_fold_closed (d : Dict.dict string) (old_entries : list string) :
  forall t : table,
    fold_left (delete_step d) old_entries t =
    filter (fun r => negb (key_in (doomed d old_entries) r)) t.
Proof.
  induction old_entries as [|e old IH]; intros t.
  - cbn. now rewrite filter_all.
  - cbn [fold_left doomed flat_map]. rewrite IH. fold (doomed d old).
    unfold delete_step.
    destruct (Dict.get d e) as [k|]; [|reflexivity].
    destruct (k =? "")%string; [reflexivity|].
    unfold tbl_delete_key. rewrite filter_twice. apply filter_ext.
    intros y. unfold key_in. simpl. now rewrite negb_orb.
Qed.

Lemma replace_merged_closed (now : Z) (t : table) (old_entries : list string)
  (merged_content : string) :
  replace_merged now t old_entries merged_content =
  (filter
     (fun r =>
        negb (key_in
                (doomed (fold_left key_step (tbl_where_type t "experience" 200) [])
                   old_entries) r)) t ++
   [mkRow ("experience_merged_" ++ isoformat now) merged_content "experience"
      (isoformat now)])%list.
Proof.
  unfold replace_merged, tbl_add. f_equal.
  apply (delete_fold_closed
           (fold_left key_step (tbl_where_type t "experience" 200) [])).
Qed.

(** A merge at an instant whose key is not in the table yet. *)
Lemma well_keyed_replace_merged (now : Z) (t : table)
  (old_entries : list string) (merged_content : string) :
  well_keyed t -> ~ In ("experience_merged_" ++ isoformat now) (map key t) ->
  well_keyed (replace_merged now t old_entries merged_content).
Proof.
  intros Hwf Hfresh. rewrite replace_merged_closed.
  apply (well_keyed_add _ (mkRow _ _ _ _)).
  - now apply well_keyed_filter.
  - discriminate.
  - cbn [key]. intros Hin. apply Hfresh. apply in_map_iff in Hin.
    destruct Hin as (x & Hx & Hin). apply filter_In in Hin.
    apply in_map_iff. exists x. tauto.
Qed.

(** What the specification says of [replace_merged], for every record. *)
Definition replace_claim : Prop :=
  forall (now : Z) (t : table) (old_entries : list string)
    (merged_content : string) (r : row),
    In r t -> type_ r = "experience" -> In (content r) old_entries ->
    ~ In r (replace_merged now t old_entries merged_content).

(** C7, amended. When the first 200 experience rows hold pairwise
    distinct contents, [replace_merged] deletes exactly those of them
    whose content was passed, keeps every other row, and adds exactly one
    new record with the merged content at the end of the table. *)
Theorem replace_merged_replaces (now : Z) (t : table)
  (old_entries : list string) (merged_content : string) :
  let rows := tbl_where_type t "experience" 200 in
  well_keyed t -> NoDup (map content rows) ->
  exists kept,
    replace_merged now t old_entries merged_content =
    (kept ++
     [mkRow ("experience_merged_" ++ isoformat now) merged_content
        "experience" (isoformat now)])%list /\
    forall x,
      In x kept <-> In x t /\ ~ (In x rows /\ In (content x) old_entries).
Proof.
  intros rows [Hnd Hne] Hc. rewrite replace_merged_closed. fold rows.
  eexists. split; [reflexivity|]. intros x. rewrite filter_In.
  rewrite negb_true_iff, <- not_true_iff_false, key_in_spec.
  assert (Hmain : In x t ->
            (In (key x) (doomed (fold_left key_step rows []) old_entries) <->
             In x rows /\ In (content x) old_entries)).
  { intros Hx. unfold doomed. rewrite in_flat_map. split.
    - intros (e & He & Hk).
      destruct (Dict.get _ e) as [k|] eqn:Hget; [|destruct Hk].
      destruct (k =? "")%string; [destruct Hk|].
      destruct Hk as [E|[]]. subst k.
      rewrite content_to_key_get in Hget. apply last_key_found in Hget.
      destruct Hget as [Hget|(r & Hr & <- & Hkr)]; [discriminate|].
      assert (r = x).
      { apply (NoDup_map_In_inj key t); auto.
        now apply (tbl_where_type_In t "experience" 200). }
      subst r. auto.
    - intros [Hr Hold]. exists (content x). split; [assumption|].
      rewrite content_to_key_get.
      rewrite (last_key_unique rows x Hc Hr).
      rewrite Forall_forall in Hne. specialize (Hne x Hx).
      apply String.eqb_neq in Hne. rewrite Hne. now left. }
  split; intros [Hx Hn]; (split; [assumption|]); intros H'; apply Hn;
    now apply (Hmain Hx).
Qed.

End Replacing.

(** *** Ranked retrieval *)

Section Ranking.
Context {platform : Platform}.

Definition scored (now : Z) (r : row) : Q * string :=
  (score_of now r, content r).

Definition is_positive (r : row) : bool :=
  negb (is_deprecated (content r)) && negb (is_failed (content r)).

Definition is_warning (r : row) : bool :=
  negb (is_deprecated (content r)) && is_failed (content r).

Lemma buckets_fold (now : Z) (candidates : list row) :
  forall positive warnings,
    fold_left
      (fun (pw : list (Q * string) * list (Q * string)) (r : row) =>
         let (positive, warnings) := pw in
         if is_deprecated (content r) then pw
         else
           let score := score_of now r in
           if is_failed (content r)
           then (positive, (warnings ++ [(score, content r)])%list)
           else ((positive ++ [(score, content r)])%list, warnings))
      candidates (positive, warnings) =
    ((positive ++ map (scored now) (filter is_positive candidates))%list,
     (warnings ++ map (scored now) (filter is_warning candidates))%list).
Proof.
  induction candidates as [|r rows IH]; intros positive warnings.
  - cbn. now rewrite !app_nil_r.
  - cbn [fold_left filter]. unfold is_positive, is_warning.
    destruct (is_deprecated (content r)); cbn [negb andb]; [apply IH|].
    destruct (is_failed (content r)); cbn [negb map];
      rewrite IH, <- app_assoc; reflexivity.
Qed.

Lemma buckets_spec (now : Z) (candidates : list row) :
  buckets now candidates =
  (map (scored now) (filter is_positive candidates),
   map (scored now) (filter is_warning candidates)).
Proof. unfold buckets. now rewrite buckets_fold. Qed.

(** Sorting *)

Lemma insert_desc_In (x y : Q * string) (l : list (Q * string)) :
  In y (insert_desc x l) <-> y = x \/ In y l.
Proof.
  induction l as [|z l IH]; cbn; [intuition|].
  destruct (Qle_bool (fst z) (fst x)); cbn; [intuition|].
  rewrite IH. intuition.
Qed.

Lemma sort_desc_In (y : Q * string) (l : list (Q * string)) :
  In y (sort_desc l) <-> In y l.
Proof.
  induction l as [|x l IH]; cbn; [tauto|].
  rewrite insert_desc_In, IH. intuition.
Qed.

(** The head of a list is one of its highest-scoring elements. *)
Definition head_max (l : list (Q * string)) : Prop :=
  match l with
  | [] => True
  | w :: rest => Forall (fun y => (fst y <= fst w)%Q) rest
  end.

Lemma insert_desc_head_max (x : Q * string) (l : list (Q * string)) :
  head_max l -> head_max (insert_desc x l).
Proof.
  destruct l as [|z l]; cbn; [constructor|]. intros Hz.
  destruct (Qle_bool (fst z) (fst x)) eqn:E; cbn.
  - apply Qle_bool_iff in E. constructor; [assumption|].
    eapply Forall_impl; [|exact Hz]. intros a Ha. cbn in Ha.
    now apply Qle_trans with (fst z).
  - assert (Hlt : (fst x < fst z)%Q).
    { apply Qnot_le_lt. intros Hle. apply Qle_bool_iff in Hle. congruence. }
    apply Forall_forall. intros a Ha. apply insert_desc_In in Ha.
    destruct Ha as [->|Ha]; [now apply Qlt_le_weak|].
    rewrite Forall_forall in Hz. now apply Hz.
Qed.

Lemma sort_desc_head_max (l : list (Q * string)) : head_max (sort_desc l).
Proof.
  induction l as [|x l IH]; cbn; [exact I|].
  now apply insert_desc_head_max.
Qed.

Lemma sort_desc_head (l : list (Q * string)) (w : Q * string)
  (rest : list (Q * string)) :
  sort_desc l = w :: rest ->
  In w l /\ forall y, In y l -> (fst y <= fst w)%Q.
Proof.
  intros E. split.
  - apply sort_desc_In. rewrite E. now left.
  - intros y Hy. apply sort_desc_In in Hy. rewrite E in Hy.
    pose proof (sort_desc_head_max l) as Hm. rewrite E in Hm. cbn in Hm.
    destruct Hy as [<-|Hy]; [apply Qle_refl|].
    rewrite Forall_forall in Hm. now apply Hm.
Qed.

(** Prefixed entries *)

Lemma parse_field_lines_one_line (ls : list string) (field : string) :
  Forall one_line ls -> one_line (parse_field_lines ls field).
Proof.
  induction 1 as [|l ls Hl Hls IH]; cbn [parse_field_lines]; [reflexivity|].
  destruct (startswith l (tag field)); [|exact IH].
  destruct (after_first "]" l) as [rest|] eqn:E; [|reflexivity].
  apply has_char_strip. eapply has_char_suffix_after; eauto.
Qed.

Lemma parse_field_one_line (content field : string) :
  one_line (_parse_field content field).
Proof. apply parse_field_lines_one_line, lines_all_one_line. Qed.

Lemma category_of_one_line (content : string) : one_line (category_of content).
Proof.
  unfold category_of. destruct (_ =? "")%string; [reflexivity|].
  apply parse_field_one_line.
Qed.

(** A first line that starts no field does not change what is read. *)
Lemma parse_field_skip_first (first content field : string) :
  one_line first -> startswith first (tag field) = false ->
  _parse_field (first ++ nl ++ content) field = _parse_field content field.
Proof.
  intros H1 Hs. unfold _parse_field. rewrite lines_cons by assumption.
  cbn [parse_field_lines]. now rewrite Hs.
Qed.

Lemma is_failed_warning_text (content : string) :
  is_failed (warning_text content) = is_failed content.
Proof.
  unfold is_failed, warning_text.
  now rewrite parse_field_skip_first.
Qed.

Lemma is_failed_conflict_text (cat prev outcome content : string) :
  one_line cat -> one_line prev -> one_line outcome ->
  is_failed (conflict_text cat prev outcome content) = is_failed content.
Proof.
  intros Hc Hp Ho. unfold is_failed, conflict_text.
  set (a := "⚡ CONFLICTING experience (category '").
  replace (a ++ cat ++ "' has both " ++ prev ++ " and " ++ outcome ++ "):" ++
           nl ++ content)
    with ((a ++ cat ++ "' has both " ++ prev ++ " and " ++ outcome ++ "):") ++
          nl ++ content)
    by (rewrite !append_assoc; reflexivity).
  rewrite parse_field_skip_first; [reflexivity| |reflexivity].
  repeat (apply one_line_prefixed; try assumption; try reflexivity).
Qed.

(** The selection loop only appends, keeps to [limit - 1] entries, and
    appends no entry whose outcome reads "failed". *)
Lemma select_positive_spec (limit : Z) (positive : list (Q * string)) :
  forall (results : list string) (seen : Dict.dict string),
    Forall (fun p => is_failed (snd p) = false) positive ->
    Forall one_line (Dict.values seen) ->
    exists added,
      select_positive limit positive results seen = (results ++ added)%list /\
      Forall (fun e => is_failed e = false) added /\
      (List.length results + List.length added <=
       Nat.max (List.length results) (Z.to_nat (limit - 1)))%nat.
Proof.
  induction positive as [|[score content] rest IH]; intros results seen Hp Hs.
  - exists []. cbn. rewrite app_nil_r. repeat split; [constructor|lia].
  - cbn [select_positive].
    destruct (limit - 1 <=? Z.of_nat (List.length results))%Z eqn:E.
    + exists []. rewrite app_nil_r. repeat split; [constructor|cbn; lia].
    + apply Z.leb_gt in E. inversion Hp as [|? ? Hc Hrest]; subst.
      cbn [snd] in Hc.
      set (cat := category_of content).
      set (outcome := _parse_field content "Outcome").
      set (entry := match Dict.get seen cat with
                    | Some prev_outcome =>
                        if negb (prev_outcome =? "")%string
                           && negb (prev_outcome =? outcome)%string
                        then conflict_text cat prev_outcome outcome content
                        else content
                    | None => content
                    end).
      assert (He : is_failed entry = false).
      { unfold entry. destruct (Dict.get seen cat) as [prev|] eqn:G;
          [|exact Hc].
        destruct (_ && _)%bool; [|exact Hc].
        rewrite is_failed_conflict_text; auto.
        - apply category_of_one_line.
        - rewrite Forall_forall in Hs. eapply Hs, get_In_values, G.
        - apply parse_field_one_line. }
      destruct (IH (results ++ [entry])%list
                  (Dict.setdefault seen cat outcome) Hrest)
        as (added & Heq & Hadd & Hlen).
      { unfold Dict.setdefault. destruct (Dict.get seen cat); [exact Hs|].
        unfold Dict.values. rewrite map_app. apply Forall_app.
        split; [exact Hs|]. repeat constructor. apply parse_field_one_line. }
      exists (entry :: added). rewrite Heq, <- app_assoc.
      repeat split; [constructor; assumption|].
      rewrite length_app in Hlen. cbn [List.length] in *. lia.
Qed.

Lemma nth_error_last_part {A} (a b : list A) (i : nat) (e : A)
  (P : A -> Prop) :
  Forall (fun x => ~ P x) a -> (List.length b <= 1)%nat ->
  nth_error (a ++ b) i = Some e -> P e ->
  S i = List.length (a ++ b).
Proof.
  intros Ha Hb Hn He. rewrite length_app.
  destruct (Nat.lt_ge_cases i (List.length a)) as [Hlt|Hge].
  - rewrite nth_error_app1 in Hn by assumption.
    apply nth_error_In in Hn. rewrite Forall_forall in Ha.
    now apply Ha in Hn.
  - rewrite nth_error_app2 in Hn by assumption.
    assert (i - List.length a < List.length b)%nat
      by (apply nth_error_Some; congruence).
    lia.
Qed.

(** C1. [search_experience] returns at most [limit] entries (none when
    [limit] is not positive).  The result is a run of at most [limit - 1]
    entries whose outcome is not "failed", followed by at most one
    warning; a warning, when present, is therefore the last entry, its
    outcome is "failed", and it is made from an active failed candidate
    whose score no other active failed candidate exceeds.  The score is
    the float product [quality * decay * conf] of the source. *)
Theorem search_experience_shape (now : Z) (t : table) (semantic : list row)
  (query : string) (limit : Z) :
  let candidates := candidates_of t semantic query in
  let result := search_experience now t semantic query limit in
  (List.length result <= Z.to_nat limit)%nat /\
  ((limit <= 0)%Z -> result = []) /\
  (forall i e, nth_error result i = Some e -> is_failed e = true ->
               S i = List.length result) /\
  exists positive warning,
    result = (positive ++ warning)%list /\
    (List.length positive <= Z.to_nat (limit - 1))%nat /\
    Forall (fun e => is_failed e = false) positive /\
    (warning = [] \/
     exists r,
       warning = [warning_text (content r)] /\
       is_failed (warning_text (content r)) = true /\
       In r candidates /\ is_deprecated (content r) = false /\
       is_failed (content r) = true /\
       forall r',
         In r' candidates -> is_deprecated (content r') = false ->
         is_failed (content r') = true ->
         (score_of now r' <= score_of now r)%Q).
Proof.
  intros candidates result.
  assert (Hshape :
    (List.length result <= Z.to_nat limit)%nat /\
    exists positive warning,
      result = (positive ++ warning)%list /\
      (List.length positive <= Z.to_nat (limit - 1))%nat /\
      Forall (fun e => is_failed e = false) positive /\
      (warning = [] \/
       exists r,
         warning = [warning_text (content r)] /\
         is_failed (warning_text (content r)) = true /\
         In r candidates /\ is_deprecated (content r) = false /\
         is_failed (content r) = true /\
         forall r',
           In r' candidates -> is_deprecated (content r') = false ->
           is_failed (content r') = true ->
           (score_of now r' <= score_of now r)%Q)).
  { unfold result, search_experience, rank. fold candidates.
    rewrite buckets_spec.
    set (P := sort_desc (map (scored now) (filter is_positive candidates))).
    set (W := map (scored now) (filter is_warning candidates)).
    assert (HP : Forall (fun p => is_failed (snd p) = false) P).
    { apply Forall_forall. intros p Hp. apply sort_desc_In, in_map_iff in Hp.
      destruct Hp as (r & <- & Hr). apply filter_In in Hr.
      destruct Hr as [_ Hr]. unfold is_positive in Hr.
      apply andb_true_iff in Hr. destruct Hr as [_ Hr].
      now apply negb_true_iff in Hr. }
    destruct (select_positive_spec limit P [] [] HP) as (added & -> & Hadd & Hlen);
      [constructor|].
    simpl in Hlen. change ([] ++ added)%list with added.
    destruct (sort_desc W) as [|w rest] eqn:EW.
    - split.
      + unfold slice_to. destruct (0 <=? limit)%Z eqn:E0.
        * apply firstn_le_length.
        * apply Z.leb_gt in E0. rewrite length_firstn. lia.
      + exists (slice_to limit added), []. rewrite app_nil_r.
        split; [reflexivity|]. split; [|split; [|now left]].
        * unfold slice_to. destruct (0 <=? limit)%Z; rewrite length_firstn; lia.
        * unfold slice_to.
          destruct (0 <=? limit)%Z; apply Forall_forall; intros e He;
            apply In_firstn in He; rewrite Forall_forall in Hadd; auto.
    - destruct (sort_desc_head W w rest EW) as [Hw Hmax].
      unfold W in Hw. apply in_map_iff in Hw. destruct Hw as (r & <- & Hr).
      apply filter_In in Hr. destruct Hr as [Hr Hrw].
      unfold is_warning in Hrw. apply andb_true_iff in Hrw.
      destruct Hrw as [Hd Hf]. apply negb_true_iff in Hd.
      cbn [scored snd].
      destruct (Z.lt_ge_cases 0 limit) as [Hpos|Hnonpos].
      + assert (Hid : slice_to limit (added ++ [warning_text (content r)])%list
                      = (added ++ [warning_text (content r)])%list).
        { unfold slice_to. replace (0 <=? limit)%Z with true
            by (symmetry; apply Z.leb_le; lia).
          apply firstn_all2. rewrite length_app. cbn. lia. }
        rewrite Hid. split; [rewrite length_app; cbn; lia|].
        exists added, [warning_text (content r)].
        split; [reflexivity|]. split; [lia|]. split; [assumption|]. right.
        exists r. rewrite is_failed_warning_text. repeat split; auto.
        intros r' Hr' Hd' Hf'.
        apply (Hmax (scored now r')). unfold W. apply in_map, filter_In.
        split; [assumption|]. unfold is_warning. now rewrite Hd', Hf'.
      + assert (Ha : added = []) by (destruct added; [reflexivity|cbn in Hlen; lia]).
        subst added. rewrite app_nil_l.
        assert (Hnil : slice_to limit [warning_text (content r)] = []).
        { unfold slice_to. destruct (0 <=? limit)%Z eqn:E0.
          - apply Z.leb_le in E0. replace limit with 0%Z by lia. reflexivity.
          - apply Z.leb_gt in E0. cbn [List.length].
            replace (1 - Z.to_nat (- limit))%nat with 0%nat by lia.
            reflexivity. }
        rewrite Hnil. split; [cbn; lia|]. exists [], [].
        repeat split; [cbn; lia|constructor|now left]. }
  destruct Hshape as (Hlen & positive & warning & Heq & Hpl & Hpf & Hw).
  split; [exact Hlen|]. split.
  { intros Hle. destruct result; [reflexivity|]. cbn in Hlen. lia. }
  split.
  - intros i e Hn He. rewrite Heq in *.
    apply (nth_error_last_part positive warning i e
             (fun x => is_failed x = true)); auto.
    + eapply Forall_impl; [|exact Hpf]. cbn. intros a Ha. congruence.
    + destruct Hw as [->|(r & -> & _)]; cbn; lia.
  - exists positive, warning. auto.
Qed.

End Ranking.

(** *** The quality range *)

Section QualityRange.
Context {platform : Platform}.

(** The first four lines of a record that [append_experience] writes. *)
Definition header (task outcome category : string) (quality : Z) : string :=
  ("[Task] " ++ task) ++ nl ++ ("[Outcome] " ++ outcome) ++ nl ++
  ("[Category] " ++ category) ++ nl ++ ("[Quality] " ++ str quality).

Lemma experience_content_header
  (task outcome lessons : string) (quality : Z)
  (category keywords reasoning_trace : string) :
  exists rest,
    experience_content task outcome lessons quality category keywords
      reasoning_trace =
    header task outcome category quality ++ nl ++ rest.
Proof.
  unfold experience_content, header.
  set (rest0 := "[Uses] 0" ++ nl ++ "[Successes] 0" ++ nl ++
                "[Lessons] " ++ lessons).
  destruct (keywords =? "")%string, (reasoning_trace =? "")%string.
  - exists rest0. unfold rest0. rewrite !append_assoc. reflexivity.
  - exists (rest0 ++ nl ++ "[Trace] " ++ reasoning_trace).
    unfold rest0. rewrite !append_assoc. reflexivity.
  - exists (rest0 ++ nl ++ "[Keywords] " ++ keywords).
    unfold rest0. rewrite !append_assoc. reflexivity.
  - exists (rest0 ++ nl ++ "[Keywords] " ++ keywords ++ nl ++
            "[Trace] " ++ reasoning_trace).
    unfold rest0. rewrite !append_assoc. reflexivity.
Qed.

(** A record reads back the quality it was appended with, when its task,
    outcome and category are single lines. *)
Lemma parse_quality_appended
  (task outcome lessons : string) (quality : Z)
  (category keywords reasoning_trace : string) :
  one_line task -> one_line outcome -> one_line category ->
  _parse_quality
    (experience_content task outcome lessons quality category keywords
       reasoning_trace) = quality.
Proof.
  intros Ht Ho Hc.
  destruct (experience_content_header task outcome lessons quality category
              keywords reasoning_trace) as [rest ->].
  unfold _parse_quality, _parse_int_field, header.
  set (A := "[Task] " ++ task). set (B := "[Outcome] " ++ outcome).
  set (C := "[Category] " ++ category). set (D := "[Quality] " ++ str quality).
  assert (HA : one_line A) by (apply one_line_prefixed; auto; reflexivity).
  assert (HB : one_line B) by (apply one_line_prefixed; auto; reflexivity).
  assert (HC : one_line C) by (apply one_line_prefixed; auto; reflexivity).
  assert (HD : one_line D)
    by (apply one_line_prefixed; auto using str_one_line; reflexivity).
  rewrite !append_assoc.
  rewrite (lines_cons A), (lines_cons B), (lines_cons C), (lines_cons D)
    by assumption.
  cbn [parse_int_lines].
  replace (startswith A (tag "Quality")) with false by reflexivity.
  replace (startswith B (tag "Quality")) with false by reflexivity.
  replace (startswith C (tag "Quality")) with false by reflexivity.
  apply (parse_int_lines_hit "Quality" quality 3). reflexivity.
Qed.

(** The calls the quality invariant is about. *)
Inductive store_op : Type :=
| OpAppend (now : Z) (task outcome lessons : string) (quality : Z)
    (category keywords reasoning_trace : string)
| OpReuse (task_desc : string) (success : bool).

Definition run_op (t : table) (op : store_op) : table :=
  match op with
  | OpAppend now task outcome lessons quality category keywords trace =>
      append_experience now t task outcome lessons quality category keywords
        trace
  | OpReuse task_desc success => fst (record_reuse t task_desc success)
  end.

Definition run_ops (ops : list store_op) : table :=
  fold_left run_op ops _SAMPLE.

Definition quality_in_range (t : table) : Prop :=
  forall r, In r t -> type_ r = "experience" ->
    (1 <= _parse_quality (content r) <= 5)%Z.

(** An append as the experience extraction makes it: the quality clamped
    to 1..5, and the task, outcome and category on one line each. *)
Definition clamped (op : store_op) : Prop :=
  match op with
  | OpAppend _ task outcome _ quality category _ _ =>
      (1 <= quality <= 5)%Z /\ one_line task /\ one_line outcome /\
      one_line category
  | OpReuse _ _ => True
  end.

Lemma reuse_content_in_range (content : string) (success : bool) :
  (1 <= _parse_quality content <= 5)%Z ->
  (1 <= _parse_quality (reuse_content content success) <= 5)%Z.
Proof.
  intros H. destruct (reuse_content_spec content success) as (_ & _ & ->).
  destruct (3 <=? _)%Z; [|exact H].
  destruct (Qle_bool _ _); [lia|]. destruct (Qltb _ _); lia.
Qed.

Lemma run_op_in_range (t : table) (op : store_op) :
  clamped op -> quality_in_range t -> quality_in_range (run_op t op).
Proof.
  intros Hop Ht r Hin Hty. destruct op; cbn [run_op] in Hin.
  - destruct Hop as (Hq & H1 & H2 & H3).
    unfold append_experience, tbl_add in Hin. apply in_app_or in Hin.
    destruct Hin as [Hin|[<-|[]]]; [now apply Ht|].
    cbn [content]. now rewrite parse_quality_appended.
  - rewrite record_reuse_fold in Hin. apply update_fold_In in Hin.
    destruct Hin as [Hin|([r0 c] & Hm & ->)]; [now apply Ht|].
    cbn [rewritten content snd]. apply reuse_content_in_range.
    apply match_rows_In in Hm. destruct Hm as (_ & Hr0 & _ & _ & ->).
    apply tbl_where_type_In in Hr0. destruct Hr0 as [Hr0 Hty0].
    now apply Ht.
Qed.

(** What the specification says: the range holds after any calls. *)
Definition quality_claim : Prop :=
  forall ops : list store_op, quality_in_range (run_ops ops).

(** C3, amended. After any sequence of [append_experience] and
    [record_reuse] calls in which every append passes a quality between 1
    and 5 and a task, outcome and category of one line each, the quality
    of every experience record is between 1 and 5. *)
Theorem quality_stays_in_range (ops : list store_op) :
  Forall clamped ops -> quality_in_range (run_ops ops).
Proof.
  unfold run_ops.
  assert (H0 : quality_in_range _SAMPLE).
  { intros r [<-|[]]. discriminate. }
  revert H0. generalize _SAMPLE.
  induction ops as [|op ops IH]; intros t Ht Hall; [exact Ht|].
  inversion Hall; subst. cbn [fold_left].
  apply IH; [|assumption]. now apply run_op_in_range.
Qed.

End QualityRange.

(** *** A platform to compute with *)

(** Instants are written as decimal numbers, and the decay is a rational
    stand-in for the exponential. *)
#[local] Instance demo_platform : Platform := {
  fromisoformat := py_int;
  isoformat := str;
  exp x := PyFloat.fl (1 / (1 - x))
}.

(** [n] experiences of the same task, appended at the instants 0, 1, ... *)
Definition stored (quality : Z) (n : nat) : table :=
  fold_left
    (fun t i =>
       append_experience (Z.of_nat i) t "git rebase conflict" "success"
         "rebase onto main first" quality "coding" "" "")
    (seq 0 n) _SAMPLE.

Definition appended (n : nat) : table := stored 3 n.

(** [n] experiences of different tasks. *)
Definition varied (n : nat) : table :=
  fold_left
    (fun t i =>
       append_experience (Z.of_nat i) t ("fix bug " ++ str (Z.of_nat i))
         "success" "read the trace" 3 "coding" "" "")
    (seq 0 n) _SAMPLE.

Definition contents_distinct (rows : list row) : bool :=
  let fix go (seen : list string) (l : list row) : bool :=
    match l with
    | [] => true
    | r :: l' =>
        negb (existsb (String.eqb (content r)) seen)
        && go (content r :: seen) l'
    end in
  go [] rows.

Definition nth_row (t : table) (i : nat) : row :=
  nth i t (mkRow "" "" "" "").

Definition uses_of (r : row) : Z := _parse_int_field (content r) "Uses" 0.

Definition keys_distinct (t : table) : bool :=
  let fix go (seen : list string) (l : list row) : bool :=
    match l with
    | [] => true
    | r :: l' =>
        negb (existsb (String.eqb (key r)) seen)
        && negb (key r =? "")%string && go (key r :: seen) l'
    end in
  go [] t.

Lemma keys_distinct_sound (t : table) :
  keys_distinct t = true -> well_keyed t.
Proof.
  unfold keys_distinct.
  set (go := fix go (seen : list string) (l : list row) : bool :=
               match l with
               | [] => true
               | r :: l' =>
                   negb (existsb (String.eqb (key r)) seen)
                   && negb (key r =? "")%string && go (key r :: seen) l'
               end).
  assert (H : forall l seen, go seen l = true ->
            NoDup (map key l) /\ Forall (fun r => key r <> "") l /\
            forall k, In k seen -> ~ In k (map key l)).
  { induction l as [|r l IH]; intros seen Hgo.
    - repeat split; [constructor|constructor|]. intros k _ [].
    - cbn in Hgo. apply andb_true_iff in Hgo. destruct Hgo as [Hgo Hrest].
      apply andb_true_iff in Hgo. destruct Hgo as [Hseen Hne].
      apply IH in Hrest. destruct Hrest as (Hnd & Hall & Hs).
      apply negb_true_iff in Hseen, Hne. apply String.eqb_neq in Hne.
      repeat split.
      + cbn. constructor; [|assumption]. apply Hs. now left.
      + constructor; assumption.
      + intros k Hk [E|Hin].
        * subst k.
          assert (existsb (String.eqb (key r)) seen = true); [|congruence].
          apply existsb_exists. exists (key r).
          split; [assumption|apply String.eqb_refl].
        * revert Hin. apply Hs. now right. }
  intros Hgo. apply H in Hgo. split; tauto.
Qed.

Lemma record_reuse_reinforces_witness :
  (exists r',
     rows_with_key (fst (record_reuse (appended 2) "Git rebase" true))
       "experience_1" = [r'] /\
     uses_of r' = 1%Z /\ _parse_int_field (content r') "Successes" 0 = 1%Z /\
     _parse_quality (content r') = 3%Z) /\
  In (nth_row (appended 2) 0)
    (fst (record_reuse (appended 2) "Git rebase" true)) /\
  record_reuse (appended 2) "a b" true = (appended 2, 0%Z).
Proof.
  assert (Hwf : well_keyed (appended 2)).
  { apply keys_distinct_sound. vm_compute. reflexivity. }
  destruct (record_reuse_reinforces (appended 2) "Git rebase" true Hwf
              eq_refl) as (Hrow & Hframe & _).
  split; [|split].
  - destruct (Hrow (nth_row (appended 2) 2))
      as (r' & Hrows & Hu & Hs & Hq & _).
    + vm_compute. discriminate.
    + vm_compute. auto.
    + vm_compute. reflexivity.
    + vm_compute. reflexivity.
    + vm_compute. reflexivity.
    + exists r'. split; [exact Hrows|]. split; [exact Hu|].
      split; [exact Hs|]. apply Hq. vm_compute. reflexivity.
  - apply Hframe.
    + vm_compute. auto.
    + vm_compute. intros [H|[H|[]]]; discriminate.
  - apply (record_reuse_reinforces (appended 2) "a b" true Hwf eq_refl).
    vm_compute. reflexivity.
Defined.

Example third_success_raises_quality :
  let t1 := fst (record_reuse (appended 1) "git rebase" true) in
  let t2 := fst (record_reuse t1 "git rebase" true) in
  let t3 := fst (record_reuse t2 "git rebase" true) in
  map uses_of (rows_with_key t3 "experience_0") = [3%Z] /\
  map (fun r => _parse_quality (content r)) (rows_with_key t2 "experience_0")
    = [3%Z] /\
  map (fun r => _parse_quality (content r)) (rows_with_key t3 "experience_0")
    = [4%Z].
Proof. vm_compute. auto. Qed.

(** A task without a keyword of two characters or more matches nothing. *)
Example record_reuse_no_keyword :
  record_reuse (appended 2) "a b" true = (appended 2, 0%Z).
Proof. vm_compute. reflexivity. Qed.

(** C4, as stated, fails: of 101 active records that match the task, the
    one that is not among the first 100 experience rows is left as it was,
    with its [uses] at 0. *)
Lemma record_reuse_skips_rows_past_100 :
  let t := appended 101 in
  let r := nth_row t 101 in
  (In r t /\ type_ r = "experience" /\ is_deprecated (content r) = false /\
   overlaps (keywords_of "git rebase") (content r) (4 # 10) = true) /\
  rows_with_key (fst (record_reuse t "git rebase" true)) (key r) = [r] /\
  uses_of r = 0%Z /\
  ~ reuse_claim.
Proof.
  intros t r.
  assert (Hr : In r t /\ type_ r = "experience" /\
               is_deprecated (content r) = false /\
               overlaps (keywords_of "git rebase") (content r) (4 # 10) = true).
  { split; [apply nth_In; vm_compute; lia|]. vm_compute. auto. }
  assert (Hrows : rows_with_key (fst (record_reuse t "git rebase" true)) (key r)
                  = [r]) by (vm_compute; reflexivity).
  split; [exact Hr|]. split; [exact Hrows|].
  split; [vm_compute; reflexivity|].
  intros H. destruct Hr as (Hin & Hty & Hd & Ho).
  destruct (H t "git rebase" true r Hin Hty Hd Ho) as (r' & Hin' & Hk & Hu).
  assert (Hr' : In r' (rows_with_key (fst (record_reuse t "git rebase" true))
                         (key r))).
  { refine (proj2 (filter_In _ _ _) (conj Hin' _)).
    exact (proj2 (String.eqb_eq _ _) Hk). }
  rewrite Hrows in Hr'. destruct Hr' as [E|[]]. rewrite <- E in Hu. lia.
Qed.

Lemma rewrite_keeps_key_and_timestamp_witness :
  exists r',
    rows_with_key (fst (deprecate_similar (appended 2) "git rebase conflict"))
      "experience_0" = [r'] /\
    key r' = "experience_0" /\ updated_at r' = "0" /\
    type_ r' = "experience" /\
    content r' = "[Deprecated] " ++ content (nth_row (appended 2) 1) /\
    forall now, _days_since (updated_at r') now = _days_since "0" now.
Proof.
  refine (proj2 (rewrite_keeps_key_and_timestamp (appended 2)
                   "git rebase conflict" true (nth_row (appended 2) 1)
                   (content (nth_row (appended 2) 1)) _) _).
  - apply keys_distinct_sound. vm_compute. reflexivity.
  - vm_compute. auto.
Defined.

(** C3, as stated, fails: [append_experience] stores the quality it is
    given, here 7. *)
Lemma append_stores_any_quality :
  let t := run_ops [OpAppend 0 "deploy" "success" "check the logs" 7
                      "general" "" ""] in
  map (fun r => _parse_quality (content r)) (rows_with_key t "experience_0")
    = [7%Z] /\
  ~ quality_claim.
Proof.
  intros t. split; [reflexivity|]. intros H.
  specialize (H [OpAppend 0 "deploy" "success" "check the logs" 7 "general" "" ""]
                (nth_row t 1)).
  assert (Hq : (1 <= 7 <= 5)%Z); [|lia].
  apply H; [vm_compute; auto|reflexivity].
Qed.

Lemma quality_stays_in_range_witness :
  quality_in_range
    (run_ops [OpAppend 0 "deploy" "success" "check the logs" 5 "general" "" "";
              OpReuse "deploy" true; OpReuse "deploy" true;
              OpReuse "deploy" true]).
Proof.
  apply quality_stays_in_range.
  repeat constructor; try lia; reflexivity.
Defined.



Example cleanup_missing_timestamp :
  let r := mkRow "experience_x" "[Deprecated] [Task] t" "experience" "" in
  _days_since (updated_at r) 0 = 30%Q /\
  cleanup_stale (1000 * day_us) [r] 30 90 = ([r], 0%Z).
Proof. vm_compute. auto. Qed.

(** C9, as stated, fails: three active records of one category, and no
    other record, are not returned, since fewer than 5 records are active. *)
Lemma merge_needs_min_count :
  List.length (members "coding" (all_active (appended 3))) = 3%nat /\
  get_merge_candidates (appended 3) 5 = [] /\
  ~ merge_claim.
Proof.
  split; [reflexivity|]. split; [reflexivity|].
  intros H. specialize (H (appended 3) "coding").
  assert (Hin : In (members "coding" (all_active (appended 3))) []);
    [|destruct Hin].
  apply H. vm_compute. lia.
Qed.

Lemma merge_candidates_groups_witness :
  In (members "coding" (fetched_active (appended 5)))
    (get_merge_candidates (appended 5) 5).
Proof.
  refine (proj2 (proj2 (merge_candidates_groups (appended 5) 5) _ _) _).
  - vm_compute. discriminate.
  - exists "coding". split; [reflexivity|]. vm_compute. lia.
Defined.

Lemma contents_distinct_sound (rows : list row) :
  contents_distinct rows = true -> NoDup (map content rows).
Proof.
  unfold contents_distinct.
  set (go := fix go (seen : list string) (l : list row) : bool :=
               match l with
               | [] => true
               | r :: l' =>
                   negb (existsb (String.eqb (content r)) seen)
                   && go (content r :: seen) l'
               end).
  assert (H : forall l seen, go seen l = true ->
            NoDup (map content l) /\
            forall c, In c seen -> ~ In c (map content l)).
  { induction l as [|r l IH]; intros seen Hgo.
    - split; [constructor|]. intros c _ [].
    - cbn in Hgo. apply andb_true_iff in Hgo. destruct Hgo as [Hseen Hrest].
      apply IH in Hrest. destruct Hrest as (Hnd & Hs).
      apply negb_true_iff in Hseen. split.
      + cbn. constructor; [|assumption]. apply Hs. now left.
      + intros c Hc [E|Hin].
        * subst c.
          assert (existsb (String.eqb (content r)) seen = true); [|congruence].
          apply existsb_exists. exists (content r).
          split; [assumption|apply String.eqb_refl].
        * revert Hin. apply Hs. now right. }
  intros Hgo. now apply H in Hgo.
Qed.

(** C7, as stated, fails: a record that is not among the first 200
    experience rows is not deleted when its content is passed. *)
Lemma replace_merged_skips_rows_past_200 :
  let t := varied 201 in
  let r := nth_row t 201 in
  (In r t /\ type_ r = "experience") /\
  replace_merged 1000 t [content r] "[Task] fix bugs" =
    (t ++ [mkRow "experience_merged_1000" "[Task] fix bugs" "experience"
             "1000"])%list /\
  ~ replace_claim.
Proof.
  intros t r.
  assert (Hin : In r t) by (apply nth_In; vm_compute; lia).
  assert (E : replace_merged 1000 t [content r] "[Task] fix bugs" =
              (t ++ [mkRow "experience_merged_1000" "[Task] fix bugs"
                       "experience" "1000"])%list)
    by (vm_compute; reflexivity).
  split; [split; [exact Hin|vm_compute; reflexivity]|]. split; [exact E|].
  intros H.
  apply (H 1000%Z t [content r] "[Task] fix bugs" r Hin);
    [vm_compute; reflexivity|left; reflexivity|].
  rewrite E. apply in_or_app. left. exact Hin.
Qed.

Lemma replace_merged_replaces_witness :
  exists kept,
    replace_merged 1000 (varied 3)
      [content (nth_row (varied 3) 1); content (nth_row (varied 3) 3)]
      "[Task] fix bugs" =
    (kept ++ [mkRow "experience_merged_1000" "[Task] fix bugs" "experience"
                "1000"])%list /\
    forall x,
      In x kept <->
      In x (varied 3) /\
      ~ (In x (tbl_where_type (varied 3) "experience" 200) /\
         In (content x)
           [content (nth_row (varied 3) 1); content (nth_row (varied 3) 3)]).
Proof.
  refine (replace_merged_replaces 1000 (varied 3) _ "[Task] fix bugs" _ _).
  - apply keys_distinct_sound. vm_compute. reflexivity.
  - apply contents_distinct_sound. vm_compute. reflexivity.
Defined.

(** Two records with the same content: the dictionary from content to key
    keeps the key of the second, and the first stays behind. *)
Example replace_merged_same_content :
  let t := appended 2 in
  let c := content (nth_row t 1) in
  map key t = ["_init_"; "experience_0"; "experience_1"] /\
  content (nth_row t 2) = c /\
  map key (replace_merged 1000 t [c; c] "[Task] merged") =
  ["_init_"; "experience_0"; "experience_merged_1000"].
Proof. vm_compute. auto. Qed.

(** A store with two successes, a partial result and two failures. *)
Definition mixed : table :=
  let add (now : Z) (outcome : string) (quality : Z) (t : table) :=
    append_experience now t "git rebase conflict" outcome "lesson" quality
      "coding" "" "" in
  add 4%Z "failed" 5%Z (add 3%Z "partial" 2%Z (add 2%Z "failed" 1%Z
    (add 1%Z "success" 4%Z (add 0%Z "success" 3%Z _SAMPLE)))).

Example search_experience_mixed :
  let result := search_experience (35 * day_us) mixed [] "git Rebase" 3 in
  map is_failed result = [false; false; true] /\
  map _parse_quality result = [4; 3; 5]%Z /\
  search_experience (35 * day_us) mixed [] "git Rebase" 1 =
    [warning_text (content (nth_row mixed 5))] /\
  search_experience (35 * day_us) mixed [] "git Rebase" 0 = [] /\
  search_experience (35 * day_us) mixed [] "git Rebase" (-1) = [].
Proof. vm_compute. auto. Qed.

(** Two failures of the same age: quality 1 with 3 successes in 5 uses,
    then quality 3 with 1 success in 5 uses. *)
Definition tied : table :=
  let failure (key : string) (quality : Z) (successes : string) :=
    mkRow key
      (_set_field
         (_set_field
            (experience_content "git rebase conflict" "failed" "lesson"
               quality "coding" "" "")
            "Uses" "5")
         "Successes" successes)
      "experience" "0" in
  [failure "experience_a" 1%Z "3"; failure "experience_b" 3%Z "1"].

(** The products [1 * 1.0 * 0.6] and [3 * 1.0 * 0.2] are the doubles
    0.6 and 0.6000000000000001, so that the second failure is the
    warning; the exact products are equal. *)
Example float_scores_order_warnings :
  let a := nth_row tied 0 in
  let b := nth_row tied 1 in
  (score_of 0 a == 5404319552844595 # 9007199254740992)%Q /\
  (score_of 0 b == 1351079888211149 # 2251799813685248)%Q /\
  (score_of 0 a < score_of 0 b)%Q /\
  (1 * (3 # 5) == 3 * (1 # 5))%Q /\
  search_experience 0 tied [] "git rebase" 1 = [warning_text (content b)].
Proof. vm_compute. repeat split; reflexivity. Qed.

Lemma search_experience_shape_witness :
  (List.length (search_experience (35 * day_us) mixed [] "git Rebase" 3)
   <= Z.to_nat 3)%nat.
Proof.
  exact (proj1 (search_experience_shape (35 * day_us) mixed []
                  "git Rebase" 3)).
Defined.

End MemoryFacts.

(* ================================================================== *)
(** ** More about the store *)
(* ================================================================== *)

Module StoreFacts.
Import Memory PyStrFacts MemoryFacts.

Section LongTerm.
Context {platform : Platform}.

Lemma read_long_term_rows (t : table) :
  read_long_term t =
  match rows_with_key t "long_term" with
  | r :: _ => content r
  | [] => ""
  end.
Proof.
  unfold read_long_term, tbl_where_key, rows_with_key.
  change (fun r : row => (key r =? "long_term")%string) with (has_key "long_term").
  destruct (filter (has_key "long_term") t) as [|r rest]; reflexivity.
Qed.

Lemma rows_with_key_deleted (t : table) (k : string) :
  rows_with_key (tbl_delete_key t k) k = [].
Proof.
  unfold rows_with_key, tbl_delete_key. rewrite filter_twice.
  apply filter_none. intros x _. unfold has_key.
  destruct (key x =? k)%string; reflexivity.
Qed.

Lemma rows_with_key_delete_other (t : table) (k k' : string) :
  k <> k' -> rows_with_key (tbl_delete_key t k) k' = rows_with_key t k'.
Proof.
  intros Hk. unfold rows_with_key, tbl_delete_key. rewrite filter_twice.
  apply filter_ext. intros x. unfold has_key.
  destruct (key x =? k')%string eqn:E'; [|apply andb_false_r].
  apply String.eqb_eq in E'.
  destruct (key x =? k)%string eqn:E; [|reflexivity].
  apply String.eqb_eq in E. congruence.
Qed.

Lemma rows_with_key_add_other (t : table) (r : row) (k : string) :
  key r <> k -> rows_with_key (tbl_add t r) k = rows_with_key t k.
Proof.
  intros Hk. unfold tbl_add. rewrite rows_with_key_app. simpl. unfold has_key.
  destruct (key r =? k)%string eqn:E; [apply String.eqb_eq in E; contradiction|].
  apply app_nil_r.
Qed.

Lemma write_long_term_rows (now : Z) (t : table) (text : string) :
  rows_with_key (write_long_term now t text) "long_term" =
  [mkRow "long_term" text "long_term" (isoformat now)].
Proof.
  unfold write_long_term, tbl_add. rewrite rows_with_key_app.
  rewrite rows_with_key_deleted. reflexivity.
Qed.

Lemma read_after_write (now : Z) (t : table) (text : string) :
  read_long_term (write_long_term now t text) = text.
Proof. rewrite read_long_term_rows, write_long_term_rows. reflexivity. Qed.

Lemma write_long_term_others (now : Z) (t : table) (text : string) :
  tbl_delete_key (write_long_term now t text) "long_term" =
  tbl_delete_key t "long_term".
Proof.
  unfold write_long_term, tbl_add, tbl_delete_key.
  rewrite filter_app. simpl. rewrite app_nil_r. rewrite filter_twice.
  apply filter_ext. intros x. destruct (key x =? "long_term")%string; reflexivity.
Qed.

(** X1: what [write_long_term] stores is what [read_long_term] reads; the
    store then holds exactly one row under the key "long_term", whatever it
    held before, and every row of another key is kept, in order.  Without
    such a row [read_long_term] answers the empty string. *)
Theorem long_term_round_trip (now : Z) (t : table) (text : string) :
  let t' := write_long_term now t text in
  read_long_term t' = text /\
  rows_with_key t' "long_term" =
    [mkRow "long_term" text "long_term" (isoformat now)] /\
  tbl_delete_key t' "long_term" = tbl_delete_key t "long_term" /\
  read_long_term (tbl_delete_key t "long_term") = "" /\
  get_memory_context t' =
    (if (text =? "")%string then ""
     else "## Long-term Memory" ++ nl ++ text).
Proof.
  simpl. repeat split.
  - apply read_after_write.
  - apply write_long_term_rows.
  - apply write_long_term_others.
  - rewrite read_long_term_rows, rows_with_key_deleted. reflexivity.
  - unfold get_memory_context. rewrite read_after_write. reflexivity.
Qed.

(** *** Operations that leave other rows alone *)

Definition boosted (delta : Z) (content : string) : Z :=
  Z.max 1 (Z.min 5 (_parse_quality content + delta)).

Definition boost_changes (delta : Z) (m : row * string) : bool :=
  negb (boosted delta (snd m) =? _parse_quality (snd m))%Z.

Definition boost_content (delta : Z) (content : string) : string :=
  _replace_field content "Quality" (str (boosted delta content)).

(** [boost_experience] rewrites the matches whose quality changes. *)
Lemma boost_experience_fold (t : table) (task_desc : string) (delta : Z) :
  boost_experience t task_desc delta =
  fold_left (update_step (boost_content delta))
    (filter (boost_changes delta) (_match_experience_rows t task_desc (4 # 10)))
    (t, 0%Z).
Proof.
  unfold boost_experience.
  generalize (t, 0%Z) as st.
  induction (_match_experience_rows t task_desc (4 # 10)) as [|m ms IH];
    intros st; [reflexivity|].
  cbn [fold_left filter]. rewrite IH. clear IH.
  destruct st as [t0 c0], m as [r c]. unfold boost_changes, boosted. cbn [snd].
  destruct (Z.max 1 (Z.min 5 (_parse_quality c + delta)) =? _parse_quality c)%Z;
    reflexivity.
Qed.

Lemma update_row_other_key (t : table) (r : row) (c k : string) :
  key r <> k ->
  rows_with_key (_update_experience_row t r c) k = rows_with_key t k.
Proof.
  intros Hk. unfold _update_experience_row.
  destruct (key r =? "")%string; [reflexivity|].
  rewrite rows_with_key_add_other by exact Hk.
  apply rows_with_key_delete_other, Hk.
Qed.

Lemma update_fold_other_key (F : string -> string) (ms : list (row * string))
  (k : string) :
  Forall (fun m => key (fst m) <> k) ms ->
  forall (t : table) (c : Z),
    rows_with_key (fst (fold_left (update_step F) ms (t, c))) k =
    rows_with_key t k.
Proof.
  induction 1 as [|m ms Hm _ IH]; intros t c; [reflexivity|].
  destruct m as [r c0]. cbn [fold_left update_step]. rewrite IH.
  apply update_row_other_key, Hm.
Qed.

(** No experience row of [t] has the key [k]. *)
Definition no_experience_key (t : table) (k : string) : Prop :=
  forall r, In r t -> type_ r = "experience" -> key r <> k.

Lemma matches_other_key (t : table) (task_desc : string) (threshold : Q)
  (k : string) :
  no_experience_key t k ->
  Forall (fun m => key (fst m) <> k)
    (_match_experience_rows t task_desc threshold).
Proof.
  intros H. apply Forall_forall. intros [r c] Hin.
  apply match_rows_In in Hin. destruct Hin as (_ & Hr & _).
  apply tbl_where_type_In in Hr. destruct Hr. apply H; assumption.
Qed.

Lemma Forall_filter_keep {A} (P : A -> Prop) (p : A -> bool) (l : list A) :
  Forall P l -> Forall P (filter p l).
Proof.
  intros H. apply Forall_forall. intros x Hx. apply filter_In in Hx.
  destruct Hx as [Hx _]. revert x Hx. apply Forall_forall, H.
Qed.

Lemma rows_with_key_kept (p : row -> bool) (t : table) (k : string) :
  (forall r, In r t -> key r = k -> p r = true) ->
  rows_with_key (filter p t) k = rows_with_key t k.
Proof.
  intros H. unfold rows_with_key. rewrite filter_twice.
  apply filter_ext_in. intros x Hx. unfold has_key.
  destruct (key x =? k)%string eqn:E; [|apply andb_false_r].
  apply String.eqb_eq in E. rewrite (H x Hx E). reflexivity.
Qed.

Lemma doomed_keys (rows : list row) (old_entries : list string) (k : string) :
  In k (doomed (fold_left key_step rows []) old_entries) ->
  exists r, In r rows /\ key r = k.
Proof.
  unfold doomed. intros H. apply in_flat_map in H.
  destruct H as (entry & _ & H).
  destruct (Dict.get _ entry) as [k0|] eqn:E; [|contradiction].
  destruct (k0 =? "")%string; [contradiction|].
  destruct H as [<-|[]].
  rewrite content_to_key_get in E. apply last_key_found in E.
  destruct E as [E|(r & Hr & _ & Hk)]; [discriminate|]. eauto.
Qed.

Lemma frame_update (F : string -> string) (t : table) (task_desc : string)
  (threshold : Q) (k : string) :
  no_experience_key t k ->
  rows_with_key
    (fst (fold_left (update_step F)
            (_match_experience_rows t task_desc threshold) (t, 0%Z))) k =
  rows_with_key t k.
Proof.
  intros H. apply update_fold_other_key, matches_other_key, H.
Qed.

Lemma frame_boost (t : table) (task_desc : string) (delta : Z) (k : string) :
  no_experience_key t k ->
  rows_with_key (fst (boost_experience t task_desc delta)) k =
  rows_with_key t k.
Proof.
  intros H. rewrite boost_experience_fold.
  apply update_fold_other_key, Forall_filter_keep, matches_other_key, H.
Qed.

Lemma frame_cleanup (now a b : Z) (t : table) (k : string) :
  no_experience_key t k ->
  rows_with_key (fst (cleanup_stale now t a b)) k = rows_with_key t k.
Proof.
  intros H. unfold cleanup_stale. rewrite cleanup_fold_closed.
  cbn [fst]. apply rows_with_key_kept. intros r Hr Hk.
  apply negb_true_iff. destruct (key_in _ r) eqn:E; [|reflexivity].
  apply key_in_spec in E. apply in_map_iff in E.
  destruct E as (x & Hx & Hin). apply filter_In in Hin. destruct Hin as [Hin _].
  apply tbl_where_type_In in Hin. destruct Hin as [Hin Hty].
  exfalso. apply (H x Hin Hty). congruence.
Qed.

Lemma frame_merge (now : Z) (t : table) (old_entries : list string)
  (merged k : string) :
  no_experience_key t k -> "experience_merged_" ++ isoformat now <> k ->
  rows_with_key (replace_merged now t old_entries merged) k =
  rows_with_key t k.
Proof.
  intros H Hnew. rewrite replace_merged_closed.
  match goal with
  | |- rows_with_key (?a ++ [?r])%list _ = _ =>
      change (a ++ [r])%list with (tbl_add a r)
  end.
  rewrite rows_with_key_add_other by exact Hnew.
  apply rows_with_key_kept. intros r Hr Hk.
  apply negb_true_iff. destruct (key_in _ r) eqn:E'; [|reflexivity].
  apply key_in_spec in E'. apply doomed_keys in E'.
  destruct E' as (x & Hin & Hx).
  apply tbl_where_type_In in Hin. destruct Hin as [Hin Hty].
  exfalso. apply (H x Hin Hty). congruence.
Qed.

(** X2: the maintenance of experiences leaves every row alone whose key is
    not the key of an experience row: the long-term row and the history
    entries are never rewritten or deleted by it. *)
Theorem experience_ops_frame (t : table) (k : string) :
  no_experience_key t k ->
  (forall task success,
     rows_with_key (fst (record_reuse t task success)) k = rows_with_key t k) /\
  (forall task,
     rows_with_key (fst (deprecate_similar t task)) k = rows_with_key t k) /\
  (forall task delta,
     rows_with_key (fst (boost_experience t task delta)) k =
     rows_with_key t k) /\
  (forall now a b,
     rows_with_key (fst (cleanup_stale now t a b)) k = rows_with_key t k) /\
  (forall now old_entries merged,
     "experience_merged_" ++ isoformat now <> k ->
     rows_with_key (replace_merged now t old_entries merged) k =
     rows_with_key t k).
Proof.
  intros H. repeat split.
  - intros task success. rewrite record_reuse_fold. apply frame_update, H.
  - intros task. rewrite deprecate_similar_fold. apply frame_update, H.
  - intros task delta. apply frame_boost, H.
  - intros now a b. apply frame_cleanup, H.
  - intros now old_entries merged Hnew. apply frame_merge; assumption.
Qed.

(** *** Sequences of store operations *)

Inductive mem_op : Type :=
| MWrite (now : Z) (text : string)
| MHistory (now : Z) (entry : string)
| MAppend (now : Z) (task outcome lessons : string) (quality : Z)
    (category keywords reasoning_trace : string)
| MReuse (task_desc : string) (success : bool)
| MDeprecate (task_desc : string)
| MBoost (task_desc : string) (delta : Z)
| MCleanup (now max_deprecated_days max_low_quality_days : Z)
| MMerge (now : Z) (old_entries : list string) (merged_content : string).

Definition apply_op (t : table) (op : mem_op) : table :=
  match op with
  | MWrite now text => write_long_term now t text
  | MHistory now entry => append_history now t entry
  | MAppend now task outcome lessons quality category keywords trace =>
      append_experience now t task outcome lessons quality category keywords
        trace
  | MReuse task_desc success => fst (record_reuse t task_desc success)
  | MDeprecate task_desc => fst (deprecate_similar t task_desc)
  | MBoost task_desc delta => fst (boost_experience t task_desc delta)
  | MCleanup now a b => fst (cleanup_stale now t a b)
  | MMerge now old_entries merged => replace_merged now t old_entries merged
  end.

Definition run_mem (ops : list mem_op) : table := fold_left apply_op ops _SAMPLE.

Definition written (acc : string) (op : mem_op) : string :=
  match op with
  | MWrite _ text => text
  | _ => acc
  end.

(** The text of the last [write_long_term] of a sequence, if any. *)
Definition last_written (ops : list mem_op) : string :=
  fold_left written ops "".

Lemma no_experience_key_add (t : table) (r : row) (k : string) :
  no_experience_key t k -> (type_ r = "experience" -> key r <> k) ->
  no_experience_key (tbl_add t r) k.
Proof.
  intros H Hr x Hx. apply in_app_or in Hx. destruct Hx as [Hx|[<-|[]]]; auto.
Qed.

Lemma no_experience_key_filter (p : row -> bool) (t : table) (k : string) :
  no_experience_key t k -> no_experience_key (filter p t) k.
Proof.
  intros H x Hx. apply filter_In in Hx. apply H, Hx.
Qed.

Lemma no_experience_key_update (F : string -> string)
  (ms : list (row * string)) (t : table) (c : Z) (k : string) :
  no_experience_key t k -> Forall (fun m => key (fst m) <> k) ms ->
  no_experience_key (fst (fold_left (update_step F) ms (t, c))) k.
Proof.
  intros H Hms x Hx Hty. apply update_fold_In in Hx.
  destruct Hx as [Hx|(m & Hm & ->)]; [exact (H x Hx Hty)|].
  simpl. clear Hty. revert m Hm. apply Forall_forall, Hms.
Qed.

Lemma no_experience_long_term (t : table) (op : mem_op) :
  no_experience_key t "long_term" ->
  no_experience_key (apply_op t op) "long_term".
Proof.
  intros H. destruct op; cbn [apply_op].
  - apply no_experience_key_add; [|discriminate].
    apply no_experience_key_filter, H.
  - apply no_experience_key_add; [exact H|discriminate].
  - apply no_experience_key_add; [exact H|]. intros _. simpl. discriminate.
  - rewrite record_reuse_fold.
    apply no_experience_key_update, matches_other_key; exact H.
  - rewrite deprecate_similar_fold.
    apply no_experience_key_update, matches_other_key; exact H.
  - rewrite boost_experience_fold.
    apply no_experience_key_update, Forall_filter_keep, matches_other_key;
      exact H.
  - unfold cleanup_stale. rewrite cleanup_fold_closed.
    apply no_experience_key_filter, H.
  - rewrite replace_merged_closed.
    apply no_experience_key_add; [|intros _; simpl; discriminate].
    apply no_experience_key_filter, H.
Qed.

Lemma read_long_term_step (t : table) (op : mem_op) :
  no_experience_key t "long_term" ->
  read_long_term (apply_op t op) = written (read_long_term t) op.
Proof.
  intros H. destruct op; cbn [apply_op written].
  - apply read_after_write.
  - rewrite !read_long_term_rows. unfold append_history.
    rewrite rows_with_key_add_other; [reflexivity|]. simpl. discriminate.
  - rewrite !read_long_term_rows. unfold append_experience.
    rewrite rows_with_key_add_other; [reflexivity|]. simpl. discriminate.
  - rewrite !read_long_term_rows, record_reuse_fold, frame_update by exact H.
    reflexivity.
  - rewrite !read_long_term_rows, deprecate_similar_fold, frame_update
      by exact H.
    reflexivity.
  - rewrite !read_long_term_rows, frame_boost by exact H. reflexivity.
  - rewrite !read_long_term_rows, frame_cleanup by exact H. reflexivity.
  - rewrite !read_long_term_rows, frame_merge; [reflexivity|exact H|].
    simpl. discriminate.
Qed.

(** X3: from the table as it is created, after any sequence of store
    operations, [read_long_term] returns the text of the last
    [write_long_term] of the sequence (the empty string when there was
    none): histories, experiences and their maintenance never disturb
    it. *)
Theorem long_term_is_last_write (ops : list mem_op) :
  read_long_term (run_mem ops) = last_written ops.
Proof.
  unfold run_mem, last_written.
  assert (H0 : no_experience_key _SAMPLE "long_term").
  { intros r [<-|[]] _. discriminate. }
  change "" with (read_long_term _SAMPLE) at 1.
  revert H0. generalize _SAMPLE as t.
  induction ops as [|op ops IH]; intros t Ht; [reflexivity|].
  cbn [fold_left]. rewrite <- read_long_term_step by exact Ht.
  apply IH, no_experience_long_term, Ht.
Qed.

End LongTerm.
Section Boosting.
Context {platform : Platform}.

Definition has_field_line (ls : list string) (field : string) : bool :=
  existsb (fun line => startswith line (tag field)) ls.

Lemma replace_field_lines_spec (ls : list string) (f v : string) :
  replace_field_lines ls f v =
  if has_field_line ls f then Some (set_field_lines ls f v) else None.
Proof.
  induction ls as [|line rest IH]; [reflexivity|]. simpl.
  destruct (startswith line (tag f)); [reflexivity|].
  rewrite IH. simpl. destruct (has_field_line rest f); reflexivity.
Qed.

Lemma replace_field_spec (content f v : string) :
  _replace_field content f v =
  if has_field_line (lines content) f then _set_field content f v else content.
Proof.
  unfold _replace_field, _set_field. rewrite replace_field_lines_spec.
  destruct (has_field_line _ _); reflexivity.
Qed.

Lemma parse_int_lines_absent (ls : list string) (f : string) (d : Z) :
  has_field_line ls f = false -> parse_int_lines ls f d = d.
Proof.
  induction ls as [|line rest IH]; [reflexivity|]. simpl.
  destruct (startswith line (tag f)); [discriminate|]. exact IH.
Qed.

Lemma boosted_range (delta : Z) (content : string) :
  (1 <= boosted delta content <= 5)%Z.
Proof. unfold boosted. lia. Qed.

(** What a boost writes back. *)
Lemma boost_content_spec (delta : Z) (content : string) :
  (if has_field_line (lines content) "Quality"
   then _parse_quality (boost_content delta content) = boosted delta content
   else boost_content delta content = content /\ _parse_quality content = 3%Z)
  /\ _parse_int_field (boost_content delta content) "Uses" 0 =
     _parse_int_field content "Uses" 0
  /\ _parse_int_field (boost_content delta content) "Successes" 0 =
     _parse_int_field content "Successes" 0.
Proof.
  unfold boost_content. rewrite replace_field_spec.
  destruct (has_field_line (lines content) "Quality") eqn:E.
  - repeat split.
    + apply parse_set_same; reflexivity.
    + apply parse_set_other; [reflexivity|apply str_one_line|apart].
    + apply parse_set_other; [reflexivity|apply str_one_line|apart].
  - repeat split. apply parse_int_lines_absent, E.
Qed.

Lemma update_fold_count (F : string -> string) (ms : list (row * string)) :
  forall (t : table) (c : Z),
    snd (fold_left (update_step F) ms (t, c)) =
    (c + Z.of_nat (List.length ms))%Z.
Proof.
  induction ms as [|[r c0] ms IH]; intros t c.
  - simpl. lia.
  - cbn [fold_left update_step]. rewrite IH. cbn [List.length]. lia.
Qed.

(** X4: for an ASCII task with a keyword and a store with distinct,
    non-empty keys, [boost_experience] moves the quality of every active
    record with ASCII content among the first 100 experience rows that
    shares at least 40% of the keywords and has a quality line by
    [delta], kept within 1..5, and leaves its key, timestamp and counters
    alone; such a record without a quality line keeps its content.
    Either way the quality read back is within 1..5.  The count returned
    is the number of matches whose quality had to change. *)
Theorem boost_experience_effect (t : table) (task_desc : string) (delta : Z)
  (r : row) :
  well_keyed t ->
  isascii task_desc = true ->
  keywords_of task_desc <> [] ->
  In r (tbl_where_type t "experience" 100) ->
  isascii (content r) = true ->
  is_deprecated (content r) = false ->
  overlaps (keywords_of task_desc) (content r) (4 # 10) = true ->
  let old_q := _parse_quality (content r) in
  let new_q := Z.max 1 (Z.min 5 (old_q + delta)) in
  (exists r',
     rows_with_key (fst (boost_experience t task_desc delta)) (key r) = [r'] /\
     key r' = key r /\ updated_at r' = updated_at r /\ type_ r' = type_ r /\
     (1 <= _parse_quality (content r') <= 5)%Z /\
     (has_field_line (lines (content r)) "Quality" = true ->
      _parse_quality (content r') = new_q) /\
     (has_field_line (lines (content r)) "Quality" = false ->
      content r' = content r) /\
     _parse_int_field (content r') "Uses" 0 =
       _parse_int_field (content r) "Uses" 0 /\
     _parse_int_field (content r') "Successes" 0 =
       _parse_int_field (content r) "Successes" 0) /\
  snd (boost_experience t task_desc delta) =
    Z.of_nat
      (List.length
         (filter (fun m => negb (Z.max 1 (Z.min 5 (_parse_quality (snd m) + delta))
                                 =? _parse_quality (snd m))%Z)
            (_match_experience_rows t task_desc (4 # 10)))).
Proof.
  intros Hwk _ Hkw Hin _ Hdep Hov old_q new_q.
  assert (Hm : In (r, content r) (_match_experience_rows t task_desc (4 # 10))).
  { apply match_rows_In. auto. }
  pose proof (tbl_where_type_In _ _ _ _ Hin) as [Hrt Hty].
  split.
  2:{ rewrite boost_experience_fold, update_fold_count. reflexivity. }
  rewrite boost_experience_fold.
  set (ms := filter (boost_changes delta)
               (_match_experience_rows t task_desc (4 # 10))).
  assert (Hnd : NoDup (keys_of ms)).
  { apply distinct_images_filter, match_rows_keys, Hwk. }
  assert (Hne : Forall (fun m => key (fst m) <> "") ms).
  { apply Forall_filter_keep, match_rows_nonempty_keys, Hwk. }
  destruct (boost_content_spec delta (content r)) as (Hq & Hu & Hs).
  destruct (boost_changes delta (r, content r)) eqn:Hch.
  - (* the quality changes: the row is rewritten *)
    assert (Hms : In (r, content r) ms) by (apply filter_In; auto).
    exists (rewritten (boost_content delta) (r, content r)).
    rewrite (update_fold_row _ ms t 0 (r, content r) Hnd Hne Hms).
    cbn [rewritten fst snd key updated_at type_ content].
    repeat split; try assumption; try (symmetry; assumption).
    + destruct (has_field_line _ _).
      * rewrite Hq. apply boosted_range.
      * destruct Hq as [-> ->]. lia.
    + destruct (has_field_line _ _).
      * rewrite Hq. apply boosted_range.
      * destruct Hq as [-> ->]. lia.
    + intros E. rewrite E in Hq. exact Hq.
    + intros E. rewrite E in Hq. apply Hq.
  - (* the quality stays: the row is not touched *)
    assert (Hsame : new_q = old_q).
    { unfold boost_changes, boosted in Hch. cbn [snd] in Hch.
      apply negb_false_iff, Z.eqb_eq in Hch. exact Hch. }
    exists r.
    rewrite update_fold_other_key.
    + rewrite rows_with_key_unique; [|apply Hwk|exact Hrt].
      repeat split; try reflexivity.
      * fold old_q. rewrite <- Hsame. unfold new_q. lia.
      * fold old_q. rewrite <- Hsame. unfold new_q. lia.
      * intros _. fold old_q. symmetry. exact Hsame.
    + apply Forall_forall. intros [r0 c0] H0 Hk.
      apply filter_In in H0. destruct H0 as [H0 Hch0].
      apply match_rows_In in H0. destruct H0 as (_ & Hr0 & _ & _ & ->).
      apply tbl_where_type_In in Hr0. destruct Hr0 as [Hr0 _].
      cbn [fst] in Hk.
      assert (r0 = r).
      { apply (NoDup_map_In_inj key t); try assumption. apply Hwk. }
      subst r0. congruence.
Qed.

End Boosting.

Section Counting.
Context {platform : Platform}.

Lemma filter_split_length {A} (p : A -> bool) (l : list A) :
  (List.length (filter p l) + List.length (filter (fun x => negb (p x)) l) =
   List.length l)%nat.
Proof.
  induction l as [|x l IH]; [reflexivity|]. simpl.
  destruct (p x); simpl; lia.
Qed.

Lemma filter_split_perm {A} (p : A -> bool) (l : list A) :
  Permutation (filter (fun x => negb (p x)) l ++ filter p l) l.
Proof.
  induction l as [|x l IH]; [constructor|]. simpl.
  destruct (p x); simpl.
  - apply Permutation_sym, Permutation_cons_app, Permutation_sym, IH.
  - constructor. exact IH.
Qed.

(** The rows of [t] under the keys [ks], when every key is in use. *)
Lemma keyed_rows_perm (t : table) (ks : list string) :
  NoDup (map key t) -> NoDup ks -> incl ks (map key t) ->
  Permutation (map key (filter (key_in ks) t)) ks.
Proof.
  intros Ht Hks Hin. apply NoDup_Permutation.
  - apply distinct_images_filter, Ht.
  - exact Hks.
  - intros k. split.
    + intros H. apply in_map_iff in H. destruct H as (x & <- & Hx).
      apply filter_In in Hx. apply key_in_spec, Hx.
    + intros H. pose proof (Hin k H) as Hk. apply in_map_iff in Hk.
      destruct Hk as (x & <- & Hx). apply in_map, filter_In. split; [exact Hx|].
      apply key_in_spec, H.
Qed.

Lemma update_fold_keys (F : string -> string) (ms : list (row * string))
  (t : table) (c : Z) :
  NoDup (map key t) -> NoDup (keys_of ms) ->
  Forall (fun m => key (fst m) <> "") ms -> incl (keys_of ms) (map key t) ->
  Permutation (map key (fst (fold_left (update_step F) ms (t, c)))) (map key t).
Proof.
  intros Ht Hnd Hne Hin. rewrite update_fold_closed by assumption.
  cbn [fst]. rewrite map_app.
  assert (Hk : map key (map (rewritten F) ms) = keys_of ms).
  { unfold keys_of. rewrite map_map. reflexivity. }
  rewrite Hk.
  rewrite <- (filter_split_perm (key_in (keys_of ms)) t) at 2.
  rewrite map_app. apply Permutation_app_head, Permutation_sym.
  apply keyed_rows_perm; assumption.
Qed.

Lemma matches_keys_incl (t : table) (task_desc : string) (threshold : Q) :
  incl (keys_of (_match_experience_rows t task_desc threshold)) (map key t).
Proof.
  intros k H. apply in_map_iff in H. destruct H as ([r c] & <- & H).
  apply match_rows_In in H. destruct H as (_ & Hr & _).
  apply tbl_where_type_In in Hr. apply in_map, Hr.
Qed.

Lemma matches_at_most_100 (t : table) (task_desc : string) (threshold : Q) :
  (List.length (_match_experience_rows t task_desc threshold) <= 100)%nat.
Proof.
  rewrite match_rows_filter. destruct (keywords_of task_desc); [simpl; lia|].
  rewrite length_map.
  pose proof (filter_split_length
                (matching (s :: l) threshold)
                (tbl_where_type t "experience" 100)) as H.
  pose proof (firstn_le_length 100
                (filter (fun r => (type_ r =? "experience")%string) t)) as H'.
  unfold tbl_where_type in *. lia.
Qed.

(** X5: reinforcing, deprecating and boosting rewrite records in place: the
    keys in the store are the same afterwards (none lost, none added, none
    doubled), and the count returned is the number of matching records,
    which is at most 100. *)
Theorem rewrites_keep_keys (t : table) (task_desc : string) (success : bool)
  (delta : Z) :
  well_keyed t ->
  Permutation (map key (fst (record_reuse t task_desc success))) (map key t) /\
  Permutation (map key (fst (deprecate_similar t task_desc))) (map key t) /\
  Permutation (map key (fst (boost_experience t task_desc delta))) (map key t) /\
  snd (record_reuse t task_desc success) =
    Z.of_nat (List.length (_match_experience_rows t task_desc (4 # 10))) /\
  snd (deprecate_similar t task_desc) =
    Z.of_nat (List.length (_match_experience_rows t task_desc (5 # 10))) /\
  (0 <= snd (record_reuse t task_desc success) <= 100)%Z /\
  (0 <= snd (deprecate_similar t task_desc) <= 100)%Z /\
  (0 <= snd (boost_experience t task_desc delta)
     <= snd (record_reuse t task_desc success))%Z.
Proof.
  intros Hwk.
  pose proof (matches_at_most_100 t task_desc (4 # 10)) as H4.
  pose proof (matches_at_most_100 t task_desc (5 # 10)) as H5.
  rewrite record_reuse_fold, deprecate_similar_fold, boost_experience_fold.
  rewrite !update_fold_count.
  pose proof (filter_split_length (boost_changes delta)
                (_match_experience_rows t task_desc (4 # 10))) as Hb.
  repeat split; try lia.
  - apply update_fold_keys;
      [apply Hwk|apply match_rows_keys, Hwk
      |apply match_rows_nonempty_keys, Hwk|apply matches_keys_incl].
  - apply update_fold_keys;
      [apply Hwk|apply match_rows_keys, Hwk
      |apply match_rows_nonempty_keys, Hwk|apply matches_keys_incl].
  - apply update_fold_keys.
    + apply Hwk.
    + apply distinct_images_filter, match_rows_keys, Hwk.
    + apply Forall_filter_keep, match_rows_nonempty_keys, Hwk.
    + intros k H. apply (matches_keys_incl t task_desc (4 # 10)).
      apply in_map_iff in H. destruct H as (m & <- & H).
      apply filter_In in H.
      apply (in_map (fun m0 : row * string => key (fst m0))), H.
Qed.

(** X6: [cleanup_stale] returns exactly the number of rows it deleted;
    what it keeps stays in its order, and only experience rows go. *)
Theorem cleanup_counts_removed (now a b : Z) (t : table) :
  well_keyed t ->
  let t' := fst (cleanup_stale now t a b) in
  snd (cleanup_stale now t a b) =
    (Z.of_nat (List.length t) - Z.of_nat (List.length t'))%Z /\
  (0 <= snd (cleanup_stale now t a b) <= 500)%Z /\
  (exists keep, t' = filter keep t) /\
  (forall r, In r t -> type_ r <> "experience" -> In r t').
Proof.
  intros Hwk. unfold cleanup_stale. rewrite cleanup_fold_closed. cbn [fst snd].
  set (rows := tbl_where_type t "experience" 500).
  set (gone := filter (removable now a b) rows).
  assert (Hperm : Permutation (map key (filter (key_in (map key gone)) t))
                    (map key gone)).
  { apply keyed_rows_perm.
    - apply Hwk.
    - apply distinct_images_filter, tbl_where_type_keys, Hwk.
    - intros k H. apply in_map_iff in H. destruct H as (x & <- & Hx).
      apply filter_In in Hx. destruct Hx as [Hx _].
      apply tbl_where_type_In in Hx. apply in_map, Hx. }
  apply Permutation_length in Hperm. rewrite !length_map in Hperm.
  pose proof (filter_split_length (key_in (map key gone)) t) as Hs.
  pose proof (filter_split_length (removable now a b) rows) as Hg.
  pose proof (firstn_le_length 500
                (filter (fun r => (type_ r =? "experience")%string) t)) as H5.
  fold (tbl_where_type t "experience" 500) in H5. fold rows in H5.
  fold gone in Hg.
  repeat split; try lia.
  - eexists. reflexivity.
  - intros r Hr Hty. apply filter_In. split; [exact Hr|].
    apply negb_true_iff. destruct (key_in _ r) eqn:E; [|reflexivity].
    apply key_in_spec in E. apply in_map_iff in E.
    destruct E as (x & Hk & Hx). apply filter_In in Hx. destruct Hx as [Hx _].
    apply tbl_where_type_In in Hx. destruct Hx as [Hx Hxt].
    assert (x = r).
    { apply (NoDup_map_In_inj key t); try assumption. apply Hwk. }
    subst x. contradiction.
Qed.

End Counting.

Section Soundness.
Context {platform : Platform}.

(** The first line of a record is none of the lines the counters and the
    quality are read from. *)
Definition head_safe (content : string) : Prop :=
  forall l0 rest, lines content = l0 :: rest ->
    startswith l0 (tag "Quality") = false /\
    startswith l0 (tag "Uses") = false /\
    startswith l0 (tag "Successes") = false.

Definition counters_ok (content : string) : Prop :=
  (0 <= _parse_int_field content "Successes" 0
     <= _parse_int_field content "Uses" 0)%Z.

Definition sound (content : string) : Prop :=
  head_safe content /\ (1 <= _parse_quality content <= 5)%Z /\
  counters_ok content.

Lemma lines_prefixed (p content : string) :
  one_line p ->
  exists l0 rest,
    lines content = l0 :: rest /\ lines (p ++ content) = (p ++ l0) :: rest.
Proof.
  intros Hp. unfold lines.
  induction p as [|ch p IH].
  - destruct (split_char LF content) as [|l0 rest] eqn:E.
    + now apply split_char_nonempty in E.
    + exists l0, rest. auto.
  - unfold one_line in Hp. simpl in Hp. apply orb_false_iff in Hp.
    destruct Hp as [Hch Hp]. destruct (IH Hp) as (l0 & rest & E & E').
    exists l0, rest. split; [exact E|]. simpl. rewrite Hch, E'. reflexivity.
Qed.

Lemma head_safe_set_field (content f v : string) :
  one_line f -> one_line v ->
  In f ["Quality"; "Uses"; "Successes"] ->
  head_safe content -> head_safe (_set_field content f v).
Proof.
  intros Hf Hv Hin Hs l0 rest E.
  rewrite lines_set_field in E by assumption.
  destruct (lines content) as [|h tl] eqn:El.
  - now apply split_char_nonempty in El.
  - destruct (Hs h tl El) as (Hq & Hu & Hc). simpl in E.
    assert (Hh : startswith h (tag f) = false).
    { destruct Hin as [<-|[<-|[<-|[]]]]; assumption. }
    rewrite Hh in E. injection E as <- _. auto.
Qed.

Lemma head_safe_reuse (content : string) (success : bool) :
  head_safe content -> head_safe (reuse_content content success).
Proof.
  intros H. unfold reuse_content.
  assert (H2 : head_safe
                 (_set_field (_set_field content "Uses"
                    (str (_parse_int_field content "Uses" 0 + 1)))
                    "Successes"
                    (str (_parse_int_field content "Successes" 0 +
                          (if success then 1 else 0))))).
  { apply head_safe_set_field; try reflexivity; try apply str_one_line.
    - simpl. auto.
    - apply head_safe_set_field; try reflexivity; try apply str_one_line;
        simpl; auto. }
  destruct (3 <=? _)%Z; [|exact H2].
  apply head_safe_set_field; try reflexivity; try apply str_one_line;
    simpl; auto.
Qed.

Lemma sound_reuse (content : string) (success : bool) :
  sound content -> sound (reuse_content content success).
Proof.
  intros (Hh & Hq & Hc).
  split; [apply head_safe_reuse, Hh|].
  split; [apply reuse_content_in_range, Hq|].
  unfold counters_ok in *.
  destruct (reuse_content_spec content success) as (-> & -> & _).
  destruct success; lia.
Qed.

Lemma sound_boost (delta : Z) (content : string) :
  sound content -> sound (boost_content delta content).
Proof.
  intros (Hh & Hq & Hc).
  destruct (boost_content_spec delta content) as (Hb & Hu & Hs).
  split; [|split].
  - unfold boost_content. rewrite replace_field_spec.
    destruct (has_field_line _ _); [|exact Hh].
    apply head_safe_set_field; try reflexivity; try apply str_one_line;
      simpl; auto.
  - destruct (has_field_line _ _); [rewrite Hb; apply boosted_range|].
    destruct Hb as [-> _]. apply Hq.
  - unfold counters_ok. rewrite Hs, Hu. apply Hc.
Qed.

(** Marking a record as deprecated changes none of its fields. *)
Lemma parse_deprecated (content f : string) (d : Z) :
  (forall l0 rest, lines content = l0 :: rest ->
     startswith l0 (tag f) = false) ->
  String.prefix (tag f) "[Deprecated] " = false ->
  String.prefix "[Deprecated] " (tag f) = false ->
  _parse_int_field ("[Deprecated] " ++ content) f d =
  _parse_int_field content f d.
Proof.
  intros Hh Hp1 Hp2. unfold _parse_int_field.
  destruct (lines_prefixed "[Deprecated] " content eq_refl)
    as (l0 & rest & E & ->).
  rewrite E. cbn [parse_int_lines]. rewrite (Hh l0 rest E).
  assert (Hd : startswith ("[Deprecated] " ++ l0) (tag f) = false).
  { unfold startswith.
    destruct (String.prefix (tag f) ("[Deprecated] " ++ l0)) eqn:Ep;
      [|reflexivity].
    destruct (prefix_both _ _ _ Ep (prefix_app "[Deprecated] " l0));
      congruence. }
  rewrite Hd. reflexivity.
Qed.

Lemma sound_deprecate (content : string) :
  sound content -> sound ("[Deprecated] " ++ content).
Proof.
  intros (Hh & Hq & Hc).
  assert (Hf : forall f, In f ["Quality"; "Uses"; "Successes"] ->
                 forall l0 rest, lines content = l0 :: rest ->
                   startswith l0 (tag f) = false).
  { intros f Hin l0 rest E. destruct (Hh l0 rest E) as (H1 & H2 & H3).
    destruct Hin as [<-|[<-|[<-|[]]]]; assumption. }
  split; [|split].
  - intros h tl E.
    destruct (lines_prefixed "[Deprecated] " content eq_refl)
      as (l0 & rest & _ & E').
    rewrite E' in E. injection E as <- _. clear.
    assert (G : forall f,
               String.prefix (tag f) "[Deprecated] " = false ->
               String.prefix "[Deprecated] " (tag f) = false ->
               startswith ("[Deprecated] " ++ l0) (tag f) = false).
    { intros f Hp1 Hp2. unfold startswith.
      destruct (String.prefix (tag f) ("[Deprecated] " ++ l0)) eqn:Ep;
        [|reflexivity].
      destruct (prefix_both _ _ _ Ep (prefix_app "[Deprecated] " l0));
        congruence. }
    repeat split; apply G; reflexivity.
  - unfold _parse_quality.
    rewrite parse_deprecated; [apply Hq|apply Hf; simpl; auto|reflexivity..].
  - unfold counters_ok.
    rewrite (parse_deprecated content "Successes");
      [|apply Hf; simpl; auto|reflexivity..].
    rewrite (parse_deprecated content "Uses");
      [|apply Hf; simpl; auto|reflexivity..].
    apply Hc.
Qed.

Lemma experience_content_lines
  (task outcome lessons : string) (quality : Z)
  (category keywords reasoning_trace : string) :
  one_line task -> one_line outcome -> one_line category ->
  exists tail,
    lines (experience_content task outcome lessons quality category keywords
             reasoning_trace) =
    ("[Task] " ++ task) :: ("[Outcome] " ++ outcome) ::
    ("[Category] " ++ category) :: ("[Quality] " ++ str quality) ::
    "[Uses] 0" :: "[Successes] 0" :: tail.
Proof.
  intros Ht Ho Hc.
  assert (E : exists rest,
             experience_content task outcome lessons quality category keywords
               reasoning_trace =
             ("[Task] " ++ task) ++ nl ++ ("[Outcome] " ++ outcome) ++ nl ++
             ("[Category] " ++ category) ++ nl ++
             ("[Quality] " ++ str quality) ++ nl ++
             "[Uses] 0" ++ nl ++ "[Successes] 0" ++ nl ++ rest).
  { unfold experience_content.
    destruct (keywords =? "")%string, (reasoning_trace =? "")%string;
      eexists; rewrite !append_assoc; reflexivity. }
  destruct E as [rest ->].
  exists (lines rest).
  rewrite !lines_cons; try reflexivity;
    apply one_line_prefixed; auto using str_one_line; reflexivity.
Qed.

Lemma sound_appended
  (task outcome lessons : string) (quality : Z)
  (category keywords reasoning_trace : string) :
  one_line task -> one_line outcome -> one_line category ->
  (1 <= quality <= 5)%Z ->
  sound (experience_content task outcome lessons quality category keywords
           reasoning_trace).
Proof.
  intros Ht Ho Hc Hq.
  destruct (experience_content_lines task outcome lessons quality category
              keywords reasoning_trace Ht Ho Hc) as [tail E].
  split; [|split].
  - intros l0 rest E'. rewrite E in E'. injection E' as <- _.
    repeat split; reflexivity.
  - rewrite parse_quality_appended; assumption.
  - unfold counters_ok, _parse_int_field. rewrite E.
    cbn [parse_int_lines].
    replace (startswith ("[Task] " ++ task) (tag "Successes")) with false
      by reflexivity.
    replace (startswith ("[Outcome] " ++ outcome) (tag "Successes")) with false
      by reflexivity.
    replace (startswith ("[Category] " ++ category) (tag "Successes"))
      with false by reflexivity.
    replace (startswith ("[Quality] " ++ str quality) (tag "Successes"))
      with false by reflexivity.
    replace (startswith ("[Task] " ++ task) (tag "Uses")) with false
      by reflexivity.
    replace (startswith ("[Outcome] " ++ outcome) (tag "Uses")) with false
      by reflexivity.
    replace (startswith ("[Category] " ++ category) (tag "Uses"))
      with false by reflexivity.
    replace (startswith ("[Quality] " ++ str quality) (tag "Uses"))
      with false by reflexivity.
    simpl. lia.
Qed.

(** What a sequence of operations is asked to respect: an appended
    experience has a quality within 1..5 and a task, outcome and category
    of one line, as the extraction passes them; a merged record is sound
    itself. *)
Definition respectful (op : mem_op) : Prop :=
  match op with
  | MAppend _ task outcome _ quality category _ _ =>
      (1 <= quality <= 5)%Z /\ one_line task /\ one_line outcome /\
      one_line category
  | MMerge _ _ merged => sound merged
  | _ => True
  end.

Definition all_sound (t : table) : Prop :=
  forall r, In r t -> type_ r = "experience" -> sound (content r).

Lemma all_sound_add (t : table) (r : row) :
  all_sound t -> (type_ r = "experience" -> sound (content r)) ->
  all_sound (tbl_add t r).
Proof.
  intros H Hr x Hx. apply in_app_or in Hx. destruct Hx as [Hx|[<-|[]]]; auto.
Qed.

Lemma all_sound_filter (p : row -> bool) (t : table) :
  all_sound t -> all_sound (filter p t).
Proof.
  intros H x Hx. apply filter_In in Hx. apply H, Hx.
Qed.

Lemma all_sound_update (F : string -> string) (t : table)
  (ms : list (row * string)) (c : Z) :
  all_sound t -> (forall m, In m ms -> sound (F (snd m))) ->
  all_sound (fst (fold_left (update_step F) ms (t, c))).
Proof.
  intros H HF x Hx Hty. apply update_fold_In in Hx.
  destruct Hx as [Hx|(m & Hm & ->)]; [exact (H x Hx Hty)|].
  simpl. apply HF, Hm.
Qed.

Lemma matches_sound (t : table) (task_desc : string) (threshold : Q)
  (m : row * string) :
  all_sound t -> In m (_match_experience_rows t task_desc threshold) ->
  sound (snd m).
Proof.
  intros H Hm. destruct m as [r c]. apply match_rows_In in Hm.
  destruct Hm as (_ & Hr & _ & _ & ->).
  apply tbl_where_type_In in Hr. simpl. apply H; apply Hr.
Qed.

Lemma all_sound_step (t : table) (op : mem_op) :
  respectful op -> all_sound t -> all_sound (apply_op t op).
Proof.
  intros Hop H. destruct op; cbn [apply_op].
  - apply all_sound_add; [|discriminate]. apply all_sound_filter, H.
  - apply all_sound_add; [exact H|discriminate].
  - destruct Hop as (Hq & Ht & Ho & Hc).
    apply all_sound_add; [exact H|]. intros _. cbn [content].
    apply sound_appended; assumption.
  - rewrite record_reuse_fold. apply all_sound_update; [exact H|].
    intros m Hm. apply sound_reuse. eapply matches_sound; eassumption.
  - rewrite deprecate_similar_fold. apply all_sound_update; [exact H|].
    intros m Hm. apply sound_deprecate. eapply matches_sound; eassumption.
  - rewrite boost_experience_fold. apply all_sound_update; [exact H|].
    intros m Hm. apply filter_In in Hm. destruct Hm as [Hm _].
    apply sound_boost. eapply matches_sound; eassumption.
  - unfold cleanup_stale. rewrite cleanup_fold_closed.
    apply all_sound_filter, H.
  - rewrite replace_merged_closed.
    apply all_sound_add; [|intros _; exact Hop]. apply all_sound_filter, H.
Qed.

Lemma confidence_unit (content : string) :
  counters_ok content -> (0 <= _confidence content <= 1)%Q.
Proof.
  unfold counters_ok, _confidence. intros H.
  destruct (_ <? 2)%Z eqn:E.
  - split; [discriminate|apply Qle_refl].
  - apply Z.ltb_ge in E. apply PyFloatFacts.div_int_unit; lia.
Qed.

(** X7: from the table as it is created, after any sequence of store
    operations whose appended experiences carry a quality within 1..5 and
    a one-line task, outcome and category (and whose merged records are
    sound themselves), every experience record, deprecated or not, has a
    quality within 1..5 and counters with 0 <= successes <= uses, so that
    its confidence lies between 0 and 1. *)
Theorem records_stay_sound (ops : list mem_op) :
  Forall respectful ops ->
  forall r, In r (run_mem ops) -> type_ r = "experience" ->
    (1 <= _parse_quality (content r) <= 5)%Z /\
    (0 <= _parse_int_field (content r) "Successes" 0
       <= _parse_int_field (content r) "Uses" 0)%Z /\
    (0 <= _confidence (content r) <= 1)%Q.
Proof.
  intros Hops.
  assert (H : all_sound (run_mem ops)).
  { unfold run_mem.
    assert (H0 : all_sound _SAMPLE) by (intros r [<-|[]]; discriminate).
    revert H0. generalize _SAMPLE as t.
    induction Hops as [|op ops Hop _ IH]; intros t Ht; [exact Ht|].
    cbn [fold_left]. apply IH, all_sound_step; assumption. }
  intros r Hr Hty. destruct (H r Hr Hty) as (_ & Hq & Hc).
  repeat split; try apply Hq; try apply Hc; apply confidence_unit, Hc.
Qed.

End Soundness.

Section Deprecation.
Context {platform : Platform}.

Lemma deprecated_marked (content : string) :
  is_deprecated ("[Deprecated] " ++ content) = true.
Proof. reflexivity. Qed.

(** A deprecated row matches no task. *)
Lemma deprecated_unmatched (t : table) (r : row) (task_desc : string)
  (threshold : Q) :
  well_keyed t -> In r t -> is_deprecated (content r) = true ->
  Forall (fun m => key (fst m) <> key r)
    (_match_experience_rows t task_desc threshold).
Proof.
  intros Hwk Hr Hdep. apply Forall_forall. intros [r0 c0] H0 Hk.
  apply match_rows_In in H0. destruct H0 as (_ & Hr0 & Hact & _).
  apply tbl_where_type_In in Hr0. destruct Hr0 as [Hr0 _]. cbn [fst] in Hk.
  assert (r0 = r).
  { apply (NoDup_map_In_inj key t); try assumption. apply Hwk. }
  subst r0. congruence.
Qed.

Lemma deprecated_frozen (t : table) (r : row) :
  well_keyed t -> In r t -> is_deprecated (content r) = true ->
  forall task_desc success delta,
    rows_with_key (fst (record_reuse t task_desc success)) (key r) = [r] /\
    rows_with_key (fst (deprecate_similar t task_desc)) (key r) = [r] /\
    rows_with_key (fst (boost_experience t task_desc delta)) (key r) = [r].
Proof.
  intros Hwk Hr Hdep task_desc success delta.
  rewrite record_reuse_fold, deprecate_similar_fold, boost_experience_fold.
  rewrite !update_fold_other_key;
    try (apply Forall_filter_keep); try (apply deprecated_unmatched; assumption).
  rewrite rows_with_key_unique; [auto|apply Hwk|exact Hr].
Qed.

(** X8: deprecation is final.  A record that [deprecate_similar] marks is
    stored with the marker in front of its content, and from then on no
    [record_reuse], [deprecate_similar] or [boost_experience] rewrites it,
    whatever the task.  When the store holds at most 100 experience rows,
    deprecating the same task again changes nothing and counts 0. *)
Theorem deprecation_is_final (t : table) (task_desc : string) :
  well_keyed t ->
  let t' := fst (deprecate_similar t task_desc) in
  (forall r c,
     In (r, c) (_match_experience_rows t task_desc (5 # 10)) ->
     let r' := mkRow (key r) ("[Deprecated] " ++ content r) (type_ r)
                 (updated_at r) in
     rows_with_key t' (key r) = [r'] /\
     is_deprecated (content r') = true /\
     forall task2 success delta,
       rows_with_key (fst (record_reuse t' task2 success)) (key r) = [r'] /\
       rows_with_key (fst (deprecate_similar t' task2)) (key r) = [r'] /\
       rows_with_key (fst (boost_experience t' task2 delta)) (key r) = [r']) /\
  ((List.length (filter (fun r => (type_ r =? "experience")%string) t)
      <= 100)%nat ->
   deprecate_similar t' task_desc = (t', 0%Z)).
Proof.
  intros Hwk t'.
  assert (Hwk' : well_keyed t') by (apply well_keyed_deprecate_similar, Hwk).
  split.
  - intros r c Hm r'.
    assert (Hrows : rows_with_key t' (key r) = [r']).
    { unfold t'. rewrite deprecate_similar_fold.
      apply (rewritten_match (fun c => "[Deprecated] " ++ c) t task_desc
               (5 # 10) r c 0 Hwk Hm). }
    assert (Hin : In r' t').
    { assert (H : In r' (rows_with_key t' (key r))) by (rewrite Hrows; now left).
      apply filter_In in H. apply H. }
    split; [exact Hrows|]. split; [reflexivity|].
    intros task2 success delta.
    apply (deprecated_frozen t' r' Hwk' Hin eq_refl).
  - intros Hsmall.
    assert (Hnone : _match_experience_rows t' task_desc (5 # 10) = []).
    { rewrite match_rows_filter. destruct (keywords_of task_desc) eqn:Ek;
        [reflexivity|]. rewrite <- Ek.
      rewrite filter_none; [reflexivity|].
      intros x Hx. apply tbl_where_type_In in Hx. destruct Hx as [Hx Hty].
      pose proof Hx as Hx'.
      unfold t' in Hx. rewrite deprecate_similar_fold in Hx.
      apply update_fold_In in Hx. destruct Hx as [Hx|(m & Hm & ->)].
      + destruct (matching (keywords_of task_desc) (5 # 10) x) eqn:Em;
          [|reflexivity].
        exfalso.
        unfold matching in Em. apply andb_true_iff in Em.
        destruct Em as [Ea Eo]. apply negb_true_iff in Ea.
        assert (Hmx : In (x, content x)
                        (_match_experience_rows t task_desc (5 # 10))).
        { apply match_rows_In. repeat split; try assumption.
          - rewrite Ek. discriminate.
          - apply tbl_where_type_all; assumption. }
        pose proof (rewritten_match (fun c => "[Deprecated] " ++ c) t task_desc
                      (5 # 10) x (content x) 0 Hwk Hmx) as Hrows.
        rewrite <- deprecate_similar_fold in Hrows. fold t' in Hrows.
        assert (Hxr : In x (rows_with_key t' (key x))).
        { apply filter_In. split; [exact Hx'|]. apply String.eqb_refl. }
        rewrite Hrows in Hxr. destruct Hxr as [Hxr|[]].
        rewrite <- Hxr in Ea. discriminate Ea.
      + unfold matching. cbn [rewritten content]. reflexivity. }
    unfold deprecate_similar at 1. fold t'. rewrite Hnone. reflexivity.
Qed.

End Deprecation.

Section Ranked.
Context {platform : Platform}.

(** [a] comes no later than [b] in a list sorted by descending score. *)
Definition by_score (a b : Q * string) : Prop := (fst b <= fst a)%Q.

Definition same_score (q : Q) (p : Q * string) : bool := Qeq_bool (fst p) q.

Lemma insert_desc_perm (x : Q * string) (l : list (Q * string)) :
  Permutation (insert_desc x l) (x :: l).
Proof.
  induction l as [|y l IH]; simpl; [apply Permutation_refl|].
  destruct (Qle_bool (fst y) (fst x)); [apply Permutation_refl|].
  apply perm_trans with (y :: x :: l); [now constructor|apply perm_swap].
Qed.

Lemma sort_desc_perm (l : list (Q * string)) : Permutation (sort_desc l) l.
Proof.
  induction l as [|x l IH]; simpl; [constructor|].
  apply perm_trans with (x :: sort_desc l);
    [apply insert_desc_perm|now constructor].
Qed.

Lemma insert_desc_sorted (x : Q * string) (l : list (Q * string)) :
  StronglySorted by_score l -> StronglySorted by_score (insert_desc x l).
Proof.
  induction 1 as [|y l Hs IH Hy]; simpl.
  - repeat constructor.
  - destruct (Qle_bool (fst y) (fst x)) eqn:E.
    + apply Qle_bool_iff in E. constructor; [now constructor|].
      constructor; [exact E|].
      eapply Forall_impl; [|exact Hy]. intros z Hz. unfold by_score in *.
      eapply Qle_trans; eassumption.
    + assert (Hlt : (fst x <= fst y)%Q).
      { apply Qlt_le_weak, Qnot_le_lt. intros H.
        apply Qle_bool_iff in H. congruence. }
      constructor; [exact IH|].
      apply Forall_forall. intros z Hz. apply insert_desc_In in Hz.
      destruct Hz as [->|Hz]; [exact Hlt|].
      rewrite Forall_forall in Hy. now apply Hy.
Qed.

Lemma sort_desc_sorted (l : list (Q * string)) :
  StronglySorted by_score (sort_desc l).
Proof.
  induction l as [|x l IH]; simpl; [constructor|].
  apply insert_desc_sorted, IH.
Qed.

(** The sort is stable: entries of one score keep their order. *)
Lemma insert_desc_stable (q : Q) (x : Q * string) (l : list (Q * string)) :
  filter (same_score q) (insert_desc x l) = filter (same_score q) (x :: l).
Proof.
  induction l as [|y l IH]; [reflexivity|]. cbn [insert_desc].
  destruct (Qle_bool (fst y) (fst x)) eqn:E; [reflexivity|].
  cbn [filter] in *. rewrite IH.
  destruct (same_score q x) eqn:Ex; [|reflexivity].
  destruct (same_score q y) eqn:Ey; [|reflexivity].
  exfalso. unfold same_score in *.
  apply Qeq_bool_iff in Ex, Ey.
  assert (H : Qle_bool (fst y) (fst x) = true).
  { apply Qle_bool_iff. rewrite Ex, Ey. apply Qle_refl. }
  congruence.
Qed.

Lemma sort_desc_stable (q : Q) (l : list (Q * string)) :
  filter (same_score q) (sort_desc l) = filter (same_score q) l.
Proof.
  induction l as [|x l IH]; [reflexivity|]. cbn [sort_desc fold_right].
  fold (sort_desc l). rewrite insert_desc_stable. cbn [filter].
  rewrite IH. reflexivity.
Qed.

Lemma sorted_split {A} (R : A -> A -> Prop) (a b : list A) :
  StronglySorted R (a ++ b) ->
  forall x y, In x a -> In y b -> R x y.
Proof.
  induction a as [|h a IH]; intros Hs x y Hx Hy; [contradiction|].
  simpl in Hs. inversion Hs as [|? ? Hs' Hh]; subst.
  destruct Hx as [<-|Hx].
  - rewrite Forall_forall in Hh. apply Hh, in_or_app. now right.
  - now apply IH.
Qed.

(** *** The entries shown for the ranked experiences *)

Definition outcome_of (content : string) : string :=
  _parse_field content "Outcome".

(** The outcome of the first of the [earlier] entries of category [cat]. *)
Definition first_outcome (cat : string) (earlier : list (Q * string))
  : option string :=
  option_map (fun p => outcome_of (snd p))
    (List.find (fun p => (category_of (snd p) =? cat)%string) earlier).

(** An entry is marked as conflicting when the first entry shown before it
    in its category has another outcome, and that outcome is not empty. *)
Definition entry_for (earlier : list (Q * string)) (p : Q * string) : string :=
  let cat := category_of (snd p) in
  let outcome := outcome_of (snd p) in
  match first_outcome cat earlier with
  | Some prev =>
      if negb (prev =? "")%string && negb (prev =? outcome)%string
      then conflict_text cat prev outcome (snd p)
      else snd p
  | None => snd p
  end.

Fixpoint entries_of (earlier l : list (Q * string)) : list string :=
  match l with
  | [] => []
  | p :: l' => entry_for earlier p :: entries_of (earlier ++ [p]) l'
  end.

Lemma entries_of_length (l : list (Q * string)) :
  forall earlier, List.length (entries_of earlier l) = List.length l.
Proof.
  induction l as [|p l IH]; intros earlier; simpl; [reflexivity|].
  now rewrite IH.
Qed.

Lemma get_setdefault {V} (d : Dict.dict V) (k k' : string) (v : V) :
  Dict.get (Dict.setdefault d k v) k' =
  match Dict.get d k' with
  | Some x => Some x
  | None => if (k =? k')%string then Some v else None
  end.
Proof.
  unfold Dict.setdefault. destruct (Dict.get d k) as [x|] eqn:E.
  - destruct (Dict.get d k') as [y|] eqn:E'; [reflexivity|].
    destruct (k =? k')%string eqn:Ek; [|reflexivity].
    apply String.eqb_eq in Ek. congruence.
  - apply get_snoc.
Qed.

Lemma find_snoc {A} (f : A -> bool) (l : list A) (x : A) :
  List.find f (l ++ [x]) =
  match List.find f l with
  | Some y => Some y
  | None => if f x then Some x else None
  end.
Proof.
  induction l as [|y l IH]; simpl; [reflexivity|].
  destruct (f y); [reflexivity|exact IH].
Qed.

Lemma select_positive_entries (limit : Z) (positive : list (Q * string)) :
  forall (results : list string) (seen : Dict.dict string)
    (earlier : list (Q * string)),
    (forall cat, Dict.get seen cat = first_outcome cat earlier) ->
    select_positive limit positive results seen =
    (results ++
     entries_of earlier
       (firstn (Z.to_nat (limit - 1) - List.length results) positive))%list.
Proof.
  induction positive as [|[q c] positive IH]; intros results seen earlier Hseen.
  - simpl. rewrite firstn_nil. simpl. symmetry. apply app_nil_r.
  - cbn [select_positive].
    destruct (limit - 1 <=? Z.of_nat (List.length results))%Z eqn:E.
    + apply Z.leb_le in E.
      replace (Z.to_nat (limit - 1) - List.length results)%nat with 0%nat by lia.
      simpl. symmetry. apply app_nil_r.
    + apply Z.leb_gt in E.
      destruct (Z.to_nat (limit - 1) - List.length results)%nat as [|k] eqn:Ek;
        [lia|].
      cbn [firstn entries_of].
      rewrite (IH _ _ (earlier ++ [(q, c)])%list).
      * rewrite length_app. cbn [List.length].
        replace (Z.to_nat (limit - 1) - (List.length results + 1))%nat with k
          by lia.
        rewrite <- app_assoc. cbn [app].
        unfold entry_for. cbn [snd]. rewrite <- Hseen. reflexivity.
      * intros cat. rewrite get_setdefault, Hseen.
        unfold first_outcome. rewrite find_snoc. cbn [snd].
        destruct (List.find _ earlier); [reflexivity|].
        destruct (category_of c =? cat)%string; reflexivity.
Qed.

(** X9: for a limit of at least 1, [search_experience] shows the active
    experiences that did not fail in descending order of score, equal
    scores in the order of the candidates, and of these the first
    [limit - 1]: none that is left out scores higher than one that is
    shown.  Each is shown as it is stored, or marked as conflicting when
    the first one shown before it in its category has another, non-empty
    outcome.  One warning follows exactly when an active failed candidate
    exists.  The score is the float product [quality * decay * conf] of
    the source, and equal scores are equal floats. *)
Theorem search_experience_ranked (now : Z) (t : table) (semantic : list row)
  (query : string) (limit : Z) :
  (1 <= limit)%Z ->
  let candidates := candidates_of t semantic query in
  let positive := map (scored now) (filter is_positive candidates) in
  let k := Z.to_nat (limit - 1) in
  exists ranked warning,
    search_experience now t semantic query limit =
      (entries_of [] (firstn k ranked) ++ warning)%list /\
    Permutation ranked positive /\
    StronglySorted by_score ranked /\
    (forall q, filter (same_score q) ranked = filter (same_score q) positive) /\
    (forall a b, In a (firstn k ranked) -> In b (skipn k ranked) ->
                 (fst b <= fst a)%Q) /\
    (List.length warning <= 1)%nat /\
    (warning = [] <-> filter is_warning candidates = []).
Proof.
  intros Hlimit candidates positive k.
  exists (sort_desc positive).
  unfold search_experience, rank. fold candidates. rewrite buckets_spec.
  fold positive.
  rewrite (select_positive_entries limit (sort_desc positive) [] [] [])
    by reflexivity.
  rewrite app_nil_l. cbn [List.length]. rewrite Nat.sub_0_r. fold k.
  set (entries := entries_of [] (firstn k (sort_desc positive))).
  assert (Hlen : (List.length entries <= k)%nat).
  { unfold entries. rewrite entries_of_length. apply firstn_le_length. }
  set (W := map (scored now) (filter is_warning candidates)).
  assert (HW : sort_desc W = [] <-> filter is_warning candidates = []).
  { split; intros H.
    - pose proof (Permutation_length (sort_desc_perm W)) as HL.
      rewrite H in HL. unfold W in HL. rewrite length_map in HL.
      destruct (filter is_warning candidates); [reflexivity|discriminate].
    - unfold W. rewrite H. reflexivity. }
  assert (Hid : forall l : list string,
             (List.length l <= S k)%nat -> slice_to limit l = l).
  { intros l Hl. unfold slice_to.
    replace (0 <=? limit)%Z with true by (symmetry; apply Z.leb_le; lia).
    apply firstn_all2. unfold k in Hl. lia. }
  assert (Hrest :
    Permutation (sort_desc positive) positive /\
    StronglySorted by_score (sort_desc positive) /\
    (forall q, filter (same_score q) (sort_desc positive) =
               filter (same_score q) positive) /\
    (forall a b, In a (firstn k (sort_desc positive)) ->
                 In b (skipn k (sort_desc positive)) -> (fst b <= fst a)%Q)).
  { split; [apply sort_desc_perm|]. split; [apply sort_desc_sorted|].
    split; [intros q; apply sort_desc_stable|].
    apply (sorted_split by_score).
    rewrite firstn_skipn. apply sort_desc_sorted. }
  destruct Hrest as (H1 & H2 & H3 & H4).
  destruct (sort_desc W) as [|w rest] eqn:EW.
  - exists []. rewrite app_nil_r. rewrite Hid by lia.
    repeat split; auto. intros _. now apply HW.
  - exists [warning_text (snd w)]. rewrite Hid by (rewrite length_app; simpl; lia).
    repeat split; auto; try discriminate.
    intros H. apply HW in H. discriminate.
Qed.

End Ranked.

Section TextSearch.
Context {platform : Platform}.

Definition by_hits (a b : nat * string) : Prop := (fst b <= fst a)%nat.

Definition same_hits (n : nat) (p : nat * string) : bool := (fst p =? n)%nat.

Lemma insert_hits_In (x y : nat * string) (l : list (nat * string)) :
  In y (insert_hits x l) <-> y = x \/ In y l.
Proof.
  induction l as [|z l IH]; simpl; [intuition congruence|].
  destruct (fst z <=? fst x)%nat; simpl; [intuition congruence|].
  rewrite IH. intuition congruence.
Qed.

Lemma insert_hits_perm (x : nat * string) (l : list (nat * string)) :
  Permutation (insert_hits x l) (x :: l).
Proof.
  induction l as [|y l IH]; simpl; [apply Permutation_refl|].
  destruct (fst y <=? fst x)%nat; [apply Permutation_refl|].
  apply perm_trans with (y :: x :: l); [now constructor|apply perm_swap].
Qed.

Lemma sort_hits_perm (l : list (nat * string)) : Permutation (sort_hits l) l.
Proof.
  induction l as [|x l IH]; simpl; [constructor|].
  apply perm_trans with (x :: sort_hits l);
    [apply insert_hits_perm|now constructor].
Qed.

Lemma insert_hits_sorted (x : nat * string) (l : list (nat * string)) :
  StronglySorted by_hits l -> StronglySorted by_hits (insert_hits x l).
Proof.
  induction 1 as [|y l Hs IH Hy]; simpl.
  - repeat constructor.
  - destruct (fst y <=? fst x)%nat eqn:E.
    + apply Nat.leb_le in E. constructor; [now constructor|].
      constructor; [exact E|].
      eapply Forall_impl; [|exact Hy]. intros z Hz. unfold by_hits in *. lia.
    + apply Nat.leb_gt in E. constructor; [exact IH|].
      apply Forall_forall. intros z Hz. apply insert_hits_In in Hz.
      destruct Hz as [->|Hz]; [unfold by_hits; lia|].
      rewrite Forall_forall in Hy. now apply Hy.
Qed.

Lemma sort_hits_sorted (l : list (nat * string)) :
  StronglySorted by_hits (sort_hits l).
Proof.
  induction l as [|x l IH]; simpl; [constructor|].
  apply insert_hits_sorted, IH.
Qed.

Lemma insert_hits_stable (n : nat) (x : nat * string)
  (l : list (nat * string)) :
  filter (same_hits n) (insert_hits x l) = filter (same_hits n) (x :: l).
Proof.
  induction l as [|y l IH]; [reflexivity|]. cbn [insert_hits].
  destruct (fst y <=? fst x)%nat eqn:E; [reflexivity|].
  cbn [filter] in *. rewrite IH.
  destruct (same_hits n x) eqn:Ex; [|reflexivity].
  destruct (same_hits n y) eqn:Ey; [|reflexivity].
  exfalso. unfold same_hits in *.
  apply Nat.eqb_eq in Ex, Ey. apply Nat.leb_gt in E. lia.
Qed.

Lemma sort_hits_stable (n : nat) (l : list (nat * string)) :
  filter (same_hits n) (sort_hits l) = filter (same_hits n) l.
Proof.
  induction l as [|x l IH]; [reflexivity|]. cbn [sort_hits fold_right].
  fold (sort_hits l). rewrite insert_hits_stable. cbn [filter].
  rewrite IH. reflexivity.
Qed.

Lemma slice_to_In {A} (n : Z) (l : list A) (x : A) :
  In x (slice_to n l) -> In x l.
Proof.
  unfold slice_to. destruct (0 <=? n)%Z; apply In_firstn.
Qed.

Lemma slice_to_length {A} (n : Z) (l : list A) :
  (0 <= n)%Z ->
  List.length (slice_to n l) = Nat.min (Z.to_nat n) (List.length l).
Proof.
  intros H. unfold slice_to.
  replace (0 <=? n)%Z with true by (symmetry; apply Z.leb_le; lia).
  apply length_firstn.
Qed.

Lemma hits_empty_content (keywords : list string) :
  Forall (fun kw => kw <> "") keywords -> hits keywords "" = 0%nat.
Proof.
  intros H. unfold hits. rewrite filter_none; [reflexivity|].
  intros kw Hkw. rewrite Forall_forall in H. specialize (H kw Hkw).
  destruct kw; [contradiction|reflexivity].
Qed.

Lemma lower_length (s : string) : String.length (lower s) = String.length s.
Proof.
  induction s as [|c s IH]; simpl; [reflexivity|now rewrite IH].
Qed.

Lemma keywords_nonempty (text : string) :
  Forall (fun kw => kw <> "") (keywords_of text).
Proof.
  apply Forall_forall. intros kw H. unfold keywords_of in H.
  apply nodup_In, in_map_iff in H. destruct H as (w & <- & Hw).
  apply filter_In in Hw. destruct Hw as [_ Hw]. apply Nat.leb_le in Hw.
  intros E. apply (f_equal String.length) in E. rewrite lower_length in E.
  simpl in E. lia.
Qed.

(** The rows the text search looks at, paired with their hit counts. *)
Definition hit_rows (t : table) (query : string) (type_filter : option string)
  : list (nat * string) :=
  map (fun r => (hits (keywords_of query) (content r), content r))
    (filter (fun r => (0 <? hits (keywords_of query) (content r))%nat)
       (firstn 100 (filter (type_matches type_filter) t))).

(** X10: the keyword search over the store, for an ASCII query and
    ASCII contents of the fetched rows (the first 100 of the type asked
    for).  For a query with keywords it ranks the fetched rows with at
    least one hit by descending number of hits, rows with as many hits in
    table order, and returns the contents of the first [limit]; for a
    query without keywords it returns the contents of the first [limit]
    fetched rows that are not empty.  It never returns an empty content,
    and at most 100 rows take part. *)
Theorem fallback_text_search_ranked (t : table) (query : string)
  (type_filter : option string) (limit : Z) :
  isascii query = true ->
  forallb (fun r => isascii (content r))
    (firstn 100 (filter (type_matches type_filter) t)) = true ->
  let rows := firstn 100 (filter (type_matches type_filter) t) in
  let result := _fallback_text_search t query type_filter limit in
  (keywords_of query = [] ->
   result =
   filter (fun c => negb (c =? "")%string) (map content (slice_to limit rows)))
  /\
  (keywords_of query <> [] ->
   exists ranked,
     result = map snd (slice_to limit ranked) /\
     Permutation ranked (hit_rows t query type_filter) /\
     StronglySorted by_hits ranked /\
     (forall n, filter (same_hits n) ranked =
                filter (same_hits n) (hit_rows t query type_filter)) /\
     Forall (fun p => (0 < fst p)%nat /\
                      fst p = hits (keywords_of query) (snd p)) ranked) /\
  ~ In "" result /\
  (forall c, In c result -> exists r, In r rows /\ content r = c) /\
  ((0 <= limit)%Z ->
   (List.length result <= Nat.min (Z.to_nat limit) 100)%nat).
Proof.
  intros _ _ rows result.
  assert (Hrows : (List.length rows <= 100)%nat) by apply firstn_le_length.
  assert (HA : keywords_of query = [] ->
               result =
               filter (fun c => negb (c =? "")%string)
                 (map content (slice_to limit rows))).
  { intros Hk. unfold result, _fallback_text_search. fold rows. rewrite Hk.
    destruct rows; [|reflexivity].
    unfold slice_to. destruct (0 <=? limit)%Z; rewrite firstn_nil; reflexivity. }
  assert (HB : keywords_of query <> [] ->
               result =
               map snd (slice_to limit (sort_hits (hit_rows t query type_filter)))).
  { intros Hk. unfold result, _fallback_text_search, hit_rows. fold rows.
    destruct (keywords_of query) as [|kw kws] eqn:Ek; [contradiction|].
    destruct rows; [|reflexivity].
    simpl. unfold slice_to. destruct (0 <=? limit)%Z; rewrite firstn_nil;
      reflexivity. }
  assert (Hhit : Forall (fun p => (0 < fst p)%nat /\
                           fst p = hits (keywords_of query) (snd p) /\
                           exists r, In r rows /\ content r = snd p)
                   (sort_hits (hit_rows t query type_filter))).
  { apply Forall_forall. intros p Hp.
    apply (Permutation_in _ (sort_hits_perm _)) in Hp.
    unfold hit_rows in Hp. apply in_map_iff in Hp.
    destruct Hp as (r & <- & Hr). apply filter_In in Hr.
    destruct Hr as [Hr Hh]. apply Nat.ltb_lt in Hh. cbn [fst snd].
    repeat split; try assumption. exists r. split; [exact Hr|reflexivity]. }
  split; [exact HA|]. split.
  { intros Hk. exists (sort_hits (hit_rows t query type_filter)).
    split; [exact (HB Hk)|]. split; [apply sort_hits_perm|].
    split; [apply sort_hits_sorted|]. split; [intros n; apply sort_hits_stable|].
    eapply Forall_impl; [|exact Hhit]. cbn. tauto. }
  destruct (keywords_of query) as [|kw kws] eqn:Ek.
  - rewrite (HA eq_refl). split; [|split].
    + intros H. apply filter_In in H. destruct H as [_ H]. discriminate.
    + intros c H. apply filter_In in H. destruct H as [H _].
      apply in_map_iff in H. destruct H as (r & <- & Hr).
      exists r. split; [|reflexivity]. eapply slice_to_In, Hr.
    + intros Hl.
      pose proof (filter_split_length (fun c => negb (c =? "")%string)
                    (map content (slice_to limit rows))) as Hf.
      rewrite length_map, slice_to_length in Hf by exact Hl. lia.
  - assert (Hk : kw :: kws <> []) by discriminate.
    rewrite (HB Hk). split; [|split].
    + intros H. apply in_map_iff in H. destruct H as (p & Hp & H).
      apply slice_to_In in H. rewrite Forall_forall in Hhit.
      destruct (Hhit p H) as (Hpos & Hcount & _).
      rewrite Hp, <- Ek in Hcount.
      rewrite hits_empty_content in Hcount by apply keywords_nonempty. lia.
    + intros c H. apply in_map_iff in H. destruct H as (p & <- & H).
      apply slice_to_In in H. rewrite Forall_forall in Hhit.
      apply (Hhit p H).
    + intros Hl. rewrite length_map, slice_to_length by exact Hl.
      pose proof (Permutation_length (sort_hits_perm (hit_rows t query type_filter)))
        as Hp.
      unfold hit_rows in Hp at 2. rewrite length_map in Hp.
      pose proof (filter_split_length
                    (fun r => (0 <? hits (keywords_of query) (content r))%nat)
                    rows) as Hf.
      fold rows in Hp. apply Nat.min_le_compat_l. rewrite Hp.
      apply Nat.le_trans with (List.length rows); [|exact Hrows].
      rewrite <- Hf. apply Nat.le_add_r.
Qed.

End TextSearch.

Section Keys.
Context {platform : Platform}.

(** The key of the row an operation adds under a new key. *)
Definition new_key (op : mem_op) : option string :=
  match op with
  | MHistory now _ => Some ("history_" ++ isoformat now)
  | MAppend now _ _ _ _ _ _ _ => Some ("experience_" ++ isoformat now)
  | MMerge now _ _ => Some ("experience_merged_" ++ isoformat now)
  | _ => None
  end.

Definition fresh_in (t : table) (op : mem_op) : bool :=
  match new_key op with
  | Some k => negb (existsb (String.eqb k) (map key t))
  | None => true
  end.

(** Every operation of the sequence that adds a key adds one that the
    store does not hold at that moment. *)
Fixpoint all_fresh (t : table) (ops : list mem_op) : bool :=
  match ops with
  | [] => true
  | op :: rest => fresh_in t op && all_fresh (apply_op t op) rest
  end.

Lemma fresh_not_in (k : string) (t : table) :
  negb (existsb (String.eqb k) (map key t)) = true -> ~ In k (map key t).
Proof.
  intros H Hin. apply negb_true_iff in H.
  assert (existsb (String.eqb k) (map key t) = true); [|congruence].
  apply existsb_exists. exists k. split; [exact Hin|apply String.eqb_refl].
Qed.

Lemma well_keyed_boost (t : table) (task_desc : string) (delta : Z) :
  well_keyed t -> well_keyed (fst (boost_experience t task_desc delta)).
Proof.
  intros Hwk. rewrite boost_experience_fold.
  set (ms := filter (boost_changes delta)
               (_match_experience_rows t task_desc (4 # 10))).
  assert (Hne : Forall (fun m => key (fst m) <> "") ms).
  { apply Forall_filter_keep, match_rows_nonempty_keys, Hwk. }
  split.
  - eapply Permutation_NoDup; [|apply Hwk].
    apply Permutation_sym, update_fold_keys.
    + apply Hwk.
    + apply distinct_images_filter, match_rows_keys, Hwk.
    + exact Hne.
    + intros k H. apply (matches_keys_incl t task_desc (4 # 10)).
      apply in_map_iff in H. destruct H as (m & <- & H).
      apply filter_In in H.
      apply (in_map (fun m0 : row * string => key (fst m0))), H.
  - apply Forall_forall. intros x Hx. apply update_fold_In in Hx.
    destruct Hx as [Hx|(m & Hm & ->)].
    + destruct Hwk as [_ Hk]. rewrite Forall_forall in Hk. now apply Hk.
    + cbn [rewritten key]. rewrite Forall_forall in Hne. now apply Hne.
Qed.

Lemma well_keyed_write (now : Z) (t : table) (text : string) :
  well_keyed t -> well_keyed (write_long_term now t text).
Proof.
  intros Hwk. unfold write_long_term. apply well_keyed_add.
  - apply well_keyed_filter, Hwk.
  - discriminate.
  - cbn [key]. intros H. apply in_map_iff in H. destruct H as (x & Hk & Hx).
    apply filter_In in Hx. destruct Hx as [_ Hx].
    apply negb_true_iff, String.eqb_neq in Hx. contradiction.
Qed.

Lemma well_keyed_step (t : table) (op : mem_op) :
  fresh_in t op = true -> well_keyed t -> well_keyed (apply_op t op).
Proof.
  intros Hf Hwk. destruct op; cbn [apply_op]; unfold fresh_in in Hf;
    cbn [new_key] in Hf.
  - apply well_keyed_write, Hwk.
  - unfold append_history. apply well_keyed_add; [exact Hwk|discriminate|].
    apply fresh_not_in, Hf.
  - apply well_keyed_append; [exact Hwk|]. apply fresh_not_in, Hf.
  - apply well_keyed_record_reuse, Hwk.
  - apply well_keyed_deprecate_similar, Hwk.
  - apply well_keyed_boost, Hwk.
  - apply well_keyed_cleanup_stale, Hwk.
  - apply well_keyed_replace_merged; [exact Hwk|]. apply fresh_not_in, Hf.
Qed.

(** X23: the store keeps its keys distinct and none of them empty.  From
    the table as it is created, after any sequence of store operations in
    which no history entry, experience or merged record is written under
    a key that the store holds at that moment (no two of a kind in the
    same instant), no two rows share a key. *)
Theorem store_keeps_keys_distinct (ops : list mem_op) :
  all_fresh _SAMPLE ops = true ->
  NoDup (map key (run_mem ops)) /\
  Forall (fun r => key r <> "") (run_mem ops).
Proof.
  unfold run_mem. pose proof well_keyed_sample as H0. revert H0.
  generalize _SAMPLE as t.
  induction ops as [|op ops IH]; intros t Ht Hf; [exact Ht|].
  cbn [all_fresh] in Hf. apply andb_true_iff in Hf. destruct Hf as [Hop Hrest].
  cbn [fold_left]. apply IH; [|exact Hrest]. apply well_keyed_step; assumption.
Qed.

End Keys.

(** *** Instances *)

#[local] Existing Instance demo_platform.

(** Two experiences and a long-term text. *)
Definition remembered : table := write_long_term 5 (appended 2) "likes tea".

Lemma experience_ops_frame_witness :
  rows_with_key (fst (record_reuse remembered "Git rebase" true)) "long_term" =
  rows_with_key remembered "long_term".
Proof.
  refine (proj1 (experience_ops_frame remembered "long_term" _)
            "Git rebase" true).
  intros r Hr Hty. vm_compute in Hr.
  repeat (destruct Hr as [<-|Hr];
          [first [discriminate Hty | vm_compute; discriminate]|]).
  contradiction.
Defined.

Lemma boost_experience_effect_witness :
  exists r',
    rows_with_key (fst (boost_experience (appended 2) "Git rebase" 1))
      "experience_1" = [r'] /\
    _parse_quality (content r') = 4%Z.
Proof.
  destruct (boost_experience_effect (appended 2) "Git rebase" 1
              (nth_row (appended 2) 2))
    as [(r' & Hrows & _ & _ & _ & _ & Hq & _) _].
  - apply keys_distinct_sound. vm_compute. reflexivity.
  - reflexivity.
  - vm_compute. discriminate.
  - vm_compute. auto.
  - vm_compute. reflexivity.
  - vm_compute. reflexivity.
  - vm_compute. reflexivity.
  - exists r'. split; [exact Hrows|]. apply Hq. vm_compute. reflexivity.
Defined.

Lemma fallback_text_search_ranked_witness :
  (exists ranked,
     _fallback_text_search remembered "Tea rebase" None 2 =
       map snd (slice_to 2 ranked) /\
     StronglySorted by_hits ranked) /\
  (List.length (_fallback_text_search remembered "Tea rebase" None 2)
   <= Nat.min (Z.to_nat 2) 100)%nat.
Proof.
  destruct (fallback_text_search_ranked remembered "Tea rebase" None 2)
    as (_ & Hk & _ & _ & Hl).
  - reflexivity.
  - vm_compute. reflexivity.
  - split.
    + destruct Hk as (ranked & Hr & _ & Hs & _); [vm_compute; discriminate|].
      exists ranked. split; assumption.
    + apply Hl. lia.
Defined.

Lemma rewrites_keep_keys_witness :
  Permutation (map key (fst (record_reuse (appended 2) "Git rebase" true)))
    (map key (appended 2)).
Proof.
  refine (proj1 (rewrites_keep_keys (appended 2) "Git rebase" true 1 _)).
  apply keys_distinct_sound. vm_compute. reflexivity.
Defined.

Lemma cleanup_counts_removed_witness :
  let t := stored 1 2 in
  snd (cleanup_stale (91 * day_us) t 30 90) =
  (Z.of_nat (List.length t) -
   Z.of_nat (List.length (fst (cleanup_stale (91 * day_us) t 30 90))))%Z.
Proof.
  intros t.
  refine (proj1 (cleanup_counts_removed (91 * day_us) 30 90 t _)).
  apply keys_distinct_sound. vm_compute. reflexivity.
Defined.

(** An experience that is appended, reused, boosted and deprecated, around
    a write of the long-term memory. *)
Definition busy_day : list mem_op :=
  [MAppend 0 "git rebase conflict" "success" "rebase onto main first" 4
     "coding" "" "";
   MReuse "git rebase" true;
   MBoost "git rebase" 3;
   MWrite 1 "likes tea";
   MDeprecate "git rebase";
   MCleanup (2 * day_us) 30 90].

Lemma records_stay_sound_witness :
  exists r,
    In r (run_mem busy_day) /\ is_deprecated (content r) = true /\
    (1 <= _parse_quality (content r) <= 5)%Z /\
    (0 <= _confidence (content r) <= 1)%Q.
Proof.
  exists (nth_row (run_mem busy_day) 2).
  assert (Hin : In (nth_row (run_mem busy_day) 2) (run_mem busy_day)).
  { vm_compute. auto. }
  split; [exact Hin|]. split; [vm_compute; reflexivity|].
  refine ((fun H => conj (proj1 H) (proj2 (proj2 H)))
            (records_stay_sound busy_day _ _ Hin _)).
  - unfold busy_day. repeat constructor; try reflexivity; try discriminate.
  - vm_compute. reflexivity.
Defined.

Lemma store_keeps_keys_distinct_witness :
  NoDup (map key (run_mem busy_day)) /\
  Forall (fun r => key r <> "") (run_mem busy_day).
Proof.
  apply (store_keeps_keys_distinct busy_day). vm_compute. reflexivity.
Defined.

Lemma deprecation_is_final_witness :
  let t' := fst (deprecate_similar (appended 2) "Git rebase") in
  deprecate_similar t' "Git rebase" = (t', 0%Z).
Proof.
  intros t'.
  refine (proj2 (deprecation_is_final (appended 2) "Git rebase" _) _).
  - apply keys_distinct_sound. vm_compute. reflexivity.
  - vm_compute. lia.
Defined.

Lemma search_experience_ranked_witness :
  exists ranked warning,
    search_experience (35 * day_us) mixed [] "git Rebase" 3 =
      (entries_of [] (firstn 2 ranked) ++ warning)%list /\
    StronglySorted by_score ranked /\ (List.length warning <= 1)%nat.
Proof.
  destruct (search_experience_ranked (35 * day_us) mixed [] "git Rebase" 3)
    as (ranked & warning & H1 & _ & H3 & _ & _ & H6 & _); [lia|].
  exists ranked, warning. split; [exact H1|]. split; [exact H3|exact H6].
Defined.

End StoreFacts.

(* ================================================================== *)
(** ** Learning from a turn *)
(* ================================================================== *)

Module LearningFacts.
Import Memory PyStrFacts MemoryFacts StoreFacts Learning.

(** *** Substrings *)

Lemma prefix_nil (s : string) : String.prefix "" s = true.
Proof. destruct s; reflexivity. Qed.

Lemma prefix_app_l (p s b : string) :
  String.prefix p s = true -> String.prefix p (s ++ b) = true.
Proof.
  revert s. induction p as [|c p IH]; intros s H; [apply prefix_nil|].
  destruct s as [|c' s]; [discriminate|]. simpl in *.
  destruct (Ascii.ascii_dec c c'); [auto|discriminate].
Qed.

Lemma contains_prefix (p s : string) :
  String.prefix p s = true -> contains p s = true.
Proof. intros H. destruct s; cbn [contains]; rewrite H; reflexivity. Qed.

Lemma contains_cons (sub s : string) (c : ascii) :
  contains sub s = true -> contains sub (String c s) = true.
Proof. intros H. cbn [contains]. rewrite H. apply orb_true_r. Qed.

Lemma contains_app_r (sub a s : string) :
  contains sub s = true -> contains sub (a ++ s) = true.
Proof.
  intros H. induction a as [|c a IH]; [exact H|].
  simpl append. apply contains_cons, IH.
Qed.

Lemma contains_app_l (sub s b : string) :
  contains sub s = true -> contains sub (s ++ b) = true.
Proof.
  induction s as [|c s IH]; intros H.
  - simpl in H. rewrite orb_false_r in H.
    destruct sub; [|discriminate]. apply contains_prefix, prefix_nil.
  - cbn [contains] in H. apply orb_true_iff in H. destruct H as [H|H].
    + apply contains_prefix. change (String c s ++ b) with (String c s ++ b).
      apply prefix_app_l, H.
    + simpl append. apply contains_cons, IH, H.
Qed.

Lemma lower_app (a b : string) : lower (a ++ b) = lower a ++ lower b.
Proof.
  induction a as [|c a IH]; simpl; [reflexivity|now rewrite IH].
Qed.

Lemma prefix_lower (p s : string) :
  String.prefix p s = true -> String.prefix (lower p) (lower s) = true.
Proof.
  revert s. induction p as [|c p IH]; intros s H; [apply prefix_nil|].
  destruct s as [|c' s]; [discriminate|]. simpl in *.
  destruct (Ascii.ascii_dec c c') as [->|]; [|discriminate].
  destruct (Ascii.ascii_dec (lower_ascii c') (lower_ascii c')); [auto|contradiction].
Qed.

Lemma contains_lower (sub s : string) :
  contains sub s = true -> contains (lower sub) (lower s) = true.
Proof.
  induction s as [|c s IH]; intros H.
  - simpl in H. rewrite orb_false_r in H.
    apply contains_prefix. apply (prefix_lower sub ""), H.
  - cbn [contains] in H. apply orb_true_iff in H. destruct H as [H|H].
    + apply contains_prefix. apply (prefix_lower sub (String c s)), H.
    + simpl lower. apply contains_cons, IH, H.
Qed.

(** The words of [s.split()] occur in [s]. *)
Lemma split_ws_go_spec (s : string) :
  String.prefix (fst (split_ws_go s)) s = true /\
  Forall (fun w => contains w s = true) (snd (split_ws_go s)).
Proof.
  induction s as [|c s [IHp IHw]]; [split; [reflexivity|constructor]|].
  cbn [split_ws_go]. destruct (split_ws_go s) as [w ws]. cbn [fst snd] in *.
  assert (Hws : Forall (fun w => contains w (String c s) = true) ws).
  { eapply Forall_impl; [|exact IHw]. intros x. apply contains_cons. }
  destruct (is_space c); cbn [fst snd].
  - split; [reflexivity|].
    destruct (w =? "")%string; [exact Hws|].
    constructor; [|exact Hws]. apply contains_cons, contains_prefix, IHp.
  - split; [|exact Hws]. simpl.
    destruct (Ascii.ascii_dec c c); [exact IHp|contradiction].
Qed.

Lemma split_ws_contains (s w : string) :
  In w (split_ws s) -> contains w s = true.
Proof.
  unfold split_ws. destruct (split_ws_go_spec s) as [Hp Hw].
  destruct (split_ws_go s) as [w0 ws]. cbn [fst snd] in *.
  rewrite Forall_forall in Hw.
  destruct (w0 =? "")%string; [apply Hw|].
  intros [<-|H]; [apply contains_prefix, Hp|apply Hw, H].
Qed.

Lemma keywords_contained (text kw : string) :
  In kw (keywords_of text) -> contains kw (lower text) = true.
Proof.
  unfold keywords_of. intros H. apply nodup_In, in_map_iff in H.
  destruct H as (w & <- & Hw). apply filter_In in Hw.
  apply contains_lower, split_ws_contains, Hw.
Qed.

Section SelfMatch.
Context {platform : Platform}.

Lemma overlaps_all (keywords : list string) (content : string)
  (threshold : Q) :
  (forall kw, In kw keywords -> contains kw (lower content) = true) ->
  (threshold <= 1)%Q ->
  overlaps keywords content threshold = true.
Proof.
  intros Hall Hth. unfold overlaps, hits. rewrite filter_all by exact Hall.
  apply Qle_bool_iff.
  set (n := inject_Z (Z.of_nat (List.length keywords))).
  assert (Hn : (0 <= n)%Q).
  { unfold n. change 0%Q with (inject_Z 0). rewrite <- Zle_Qle. lia. }
  rewrite <- (Qmult_1_r n) at 2.
  rewrite (Qmult_comm n threshold), (Qmult_comm n 1).
  apply Qmult_le_compat_r; assumption.
Qed.

(** A text that holds the task matches the task. *)
Lemma task_matches_text (task before after : string) (threshold : Q) :
  (threshold <= 1)%Q ->
  overlaps (keywords_of task) (before ++ task ++ after) threshold = true.
Proof.
  intros Hth. apply overlaps_all; [|exact Hth].
  intros kw Hkw. rewrite !lower_app.
  apply contains_app_r, contains_app_l, keywords_contained, Hkw.
Qed.

Lemma experience_content_task
  (task outcome lessons : string) (quality : Z)
  (category keywords reasoning_trace : string) :
  exists after,
    experience_content task outcome lessons quality category keywords
      reasoning_trace = "[Task] " ++ task ++ after.
Proof.
  unfold experience_content.
  destruct (keywords =? "")%string, (reasoning_trace =? "")%string;
    eexists; rewrite ?append_assoc; reflexivity.
Qed.

Lemma appended_is_fetched (now : Z) (t : table)
  (task outcome lessons : string) (quality : Z)
  (category keywords reasoning_trace : string) :
  (List.length (filter (fun r => (type_ r =? "experience")%string) t)
     < 100)%nat ->
  In (mkRow ("experience_" ++ isoformat now)
        (experience_content task outcome lessons quality category keywords
           reasoning_trace) "experience" (isoformat now))
    (tbl_where_type
       (append_experience now t task outcome lessons quality category keywords
          reasoning_trace) "experience" 100).
Proof.
  intros Hsmall. apply tbl_where_type_all.
  - unfold append_experience, tbl_add. rewrite filter_app, length_app.
    simpl. lia.
  - unfold append_experience, tbl_add. apply in_or_app. right. now left.
  - reflexivity.
Qed.

(** X11: an experience whose outcome is "failed" is deprecated in the
    memory table as soon as it is stored.  [_summarize_experience] appends
    the record and then deprecates what is similar to its task, and the
    record holds its own task: when the task is ASCII text with a
    keyword, the extracted quality is one [int] accepts, the content does
    not hold the marker yet, the key of the instant is new to a store
    with distinct, non-empty keys and fewer than 100 experience rows were
    stored, the one row under the new key is the record with
    "[Deprecated] " in front.  (The copy that [append_experience] embeds
    into the vector table, which is left out here, is not rewritten.) *)
Theorem failed_experience_is_deprecated (now : Z) (t : table)
  (task lessons : string) (q : int_field) (quality : Z)
  (category keywords : option string) (total_errors : Z)
  (reasoning_snippets : list string) :
  well_keyed t ->
  ~ In ("experience_" ++ isoformat now) (map key t) ->
  (List.length (filter (fun r => (type_ r =? "experience")%string) t)
     < 100)%nat ->
  task <> "" -> lessons <> "" ->
  isascii task = true -> keywords_of task <> [] ->
  clamp_quality q 3 = Some quality ->
  let stored :=
    experience_content task "failed" lessons quality
      (get_or category "general") (get_or keywords "")
      (reasoning_trace_of reasoning_snippets) in
  is_deprecated stored = false ->
  let t' :=
    _summarize_experience now t
      (Some (mkExtraction false (Some task) (Some lessons) (Some "failed") q
               category keywords))
      total_errors reasoning_snippets in
  rows_with_key t' ("experience_" ++ isoformat now) =
    [mkRow ("experience_" ++ isoformat now) ("[Deprecated] " ++ stored)
       "experience" (isoformat now)] /\
  (forall r, In r t' -> key r = "experience_" ++ isoformat now ->
             is_deprecated (content r) = true).
Proof.
  intros Hwk Hfresh Hsmall Htask Hlessons _ Hkw Hq stored Hact t'.
  assert (Hrows :
    rows_with_key t' ("experience_" ++ isoformat now) =
    [mkRow ("experience_" ++ isoformat now) ("[Deprecated] " ++ stored)
       "experience" (isoformat now)]).
  { unfold t', _summarize_experience.
    cbn [x_skip x_task x_lessons x_outcome x_quality x_category x_keywords
         get_or].
    apply String.eqb_neq in Htask, Hlessons. rewrite Htask, Hlessons, Hq.
    cbn [orb]. rewrite String.eqb_refl. fold stored.
    set (t1 := append_experience now t task "failed" lessons quality
                 (get_or category "general") (get_or keywords "")
                 (reasoning_trace_of reasoning_snippets)).
    set (new := mkRow ("experience_" ++ isoformat now) stored "experience"
                  (isoformat now)).
    assert (Hwk1 : well_keyed t1) by (apply well_keyed_append; assumption).
    assert (Hm : In (new, stored) (_match_experience_rows t1 task (5 # 10))).
    { apply match_rows_In. repeat split; try assumption.
      - apply appended_is_fetched, Hsmall.
      - cbn [new content]. unfold stored.
        destruct (experience_content_task task "failed" lessons quality
                    (get_or category "general") (get_or keywords "")
                    (reasoning_trace_of reasoning_snippets)) as [after ->].
        apply task_matches_text. discriminate. }
    rewrite deprecate_similar_fold.
    apply (rewritten_match (fun c => "[Deprecated] " ++ c) t1 task (5 # 10)
             new stored 0 Hwk1 Hm). }
  split; [exact Hrows|].
  intros r Hr Hk.
  assert (H : In r (rows_with_key t' ("experience_" ++ isoformat now))).
  { apply filter_In. split; [exact Hr|]. apply String.eqb_eq, Hk. }
  rewrite Hrows in H. destruct H as [<-|[]]. reflexivity.
Qed.

(** X12: an experience that did not fail, from a turn without tool errors,
    is stored as used once with one success: the reinforcement that
    follows the append matches the new record itself.  This holds when
    the task is ASCII text with a keyword, the task, the outcome and the
    category have no line break, the extracted quality is one [int]
    accepts, the content does not hold the deprecation marker, the key of
    the instant is new to a store with distinct, non-empty keys and
    fewer than 100 experience rows were stored (the record 101st in the
    table is not fetched and keeps [uses] 0).  The quality is the
    extracted one, clamped to 1..5. *)
Theorem clean_success_counts_itself (now : Z) (t : table)
  (task lessons outcome : string) (q : int_field) (quality : Z)
  (category keywords : option string) (reasoning_snippets : list string) :
  well_keyed t ->
  ~ In ("experience_" ++ isoformat now) (map key t) ->
  (List.length (filter (fun r => (type_ r =? "experience")%string) t)
     < 100)%nat ->
  task <> "" -> lessons <> "" ->
  isascii task = true -> keywords_of task <> [] ->
  outcome <> "failed" ->
  one_line task -> one_line outcome -> one_line (get_or category "general") ->
  clamp_quality q 3 = Some quality ->
  let stored :=
    experience_content task outcome lessons quality
      (get_or category "general") (get_or keywords "")
      (reasoning_trace_of reasoning_snippets) in
  is_deprecated stored = false ->
  let t' :=
    _summarize_experience now t
      (Some (mkExtraction false (Some task) (Some lessons) (Some outcome) q
               category keywords))
      0 reasoning_snippets in
  exists r',
    rows_with_key t' ("experience_" ++ isoformat now) = [r'] /\
    updated_at r' = isoformat now /\
    _parse_int_field (content r') "Uses" 0 = 1%Z /\
    _parse_int_field (content r') "Successes" 0 = 1%Z /\
    _parse_quality (content r') = quality /\
    (1 <= quality <= 5)%Z.
Proof.
  intros Hwk Hfresh Hsmall Htask Hlessons _ Hkw Hout H1 H2 H3 Hq stored Hact t'.
  assert (Hrange : (1 <= quality <= 5)%Z).
  { destruct q; simpl in Hq; try discriminate; injection Hq as <-; lia. }
  destruct (sound_appended task outcome lessons quality
              (get_or category "general") (get_or keywords "")
              (reasoning_trace_of reasoning_snippets) H1 H2 H3 Hrange)
    as (_ & _ & Hc).
  assert (Hzero : _parse_int_field stored "Uses" 0 = 0%Z /\
                  _parse_int_field stored "Successes" 0 = 0%Z).
  { destruct (experience_content_lines task outcome lessons quality
                (get_or category "general") (get_or keywords "")
                (reasoning_trace_of reasoning_snippets) H1 H2 H3) as [tail E].
    unfold stored, _parse_int_field. rewrite E. split; reflexivity. }
  destruct Hzero as [Hu Hs].
  pose proof (parse_quality_appended task outcome lessons quality
                (get_or category "general") (get_or keywords "")
                (reasoning_trace_of reasoning_snippets) H1 H2 H3) as Hqual.
  fold stored in Hqual.
  exists (mkRow ("experience_" ++ isoformat now) (reuse_content stored true)
            "experience" (isoformat now)).
  split.
  - unfold t', _summarize_experience.
    cbn [x_skip x_task x_lessons x_outcome x_quality x_category x_keywords
         get_or].
    apply String.eqb_neq in Htask, Hlessons, Hout.
    rewrite Htask, Hlessons, Hq, Hout. cbn [orb Z.eqb]. fold stored.
    set (t1 := append_experience now t task outcome lessons quality
                 (get_or category "general") (get_or keywords "")
                 (reasoning_trace_of reasoning_snippets)).
    set (new := mkRow ("experience_" ++ isoformat now) stored "experience"
                  (isoformat now)).
    assert (Hwk1 : well_keyed t1) by (apply well_keyed_append; assumption).
    assert (Hm : In (new, stored) (_match_experience_rows t1 task (4 # 10))).
    { apply match_rows_In. repeat split; try assumption.
      - apply appended_is_fetched, Hsmall.
      - cbn [new content]. unfold stored.
        destruct (experience_content_task task outcome lessons quality
                    (get_or category "general") (get_or keywords "")
                    (reasoning_trace_of reasoning_snippets)) as [after ->].
        apply task_matches_text. discriminate. }
    rewrite record_reuse_fold.
    apply (rewritten_match (fun c => reuse_content c true) t1 task (4 # 10)
             new stored 0 Hwk1 Hm).
  - cbn [content updated_at].
    destruct (reuse_content_spec stored true) as (Ru & Rs & Rq).
    rewrite Ru, Rs, Rq, Hu, Hs, Hqual. cbn. auto.
Qed.

(** *** Merging a group *)

Lemma candidates_are_members (t : table) (min_count : Z) (g : list string) :
  In g (get_merge_candidates t min_count) ->
  exists cat, g = members cat (fetched_active t) /\ (3 <= List.length g)%nat.
Proof.
  unfold get_merge_candidates. fold (fetched_active t).
  destruct (_ <? min_count)%Z; [contradiction|].
  change (fold_left _ (fetched_active t) [])
    with (fold_left group_step (fetched_active t)
            (@nil (string * list string))).
  rewrite filter_In, Nat.leb_le. intros [Hin Hlen].
  apply values_In_get in Hin; [|apply groups_keys; constructor].
  destruct Hin as [cat Hget]. exists cat. split; [|assumption].
  rewrite groups_get in Hget. cbn [Dict.get] in Hget.
  destruct (members cat (fetched_active t)); congruence.
Qed.

Lemma doomed_step (d : Dict.dict string) (e : string) (old : list string) :
  doomed d (e :: old) =
  (match Dict.get d e with
   | Some k => if (k =? "")%string then [] else [k]
   | None => []
   end ++ doomed d old)%list.
Proof. reflexivity. Qed.

Lemma doomed_source (rows : list row) (old : list string) (k : string) :
  In k (doomed (fold_left key_step rows []) old) ->
  exists r, In r rows /\ In (content r) old /\ key r = k.
Proof.
  unfold doomed. intros H. apply in_flat_map in H.
  destruct H as (entry & He & H).
  destruct (Dict.get _ entry) as [k0|] eqn:E; [|contradiction].
  destruct (k0 =? "")%string; [contradiction|].
  destruct H as [<-|[]].
  rewrite content_to_key_get in E. apply last_key_found in E.
  destruct E as [E|(r & Hr & Hc & Hk)]; [discriminate|].
  exists r. subst entry. auto.
Qed.

(** The keys [replace_merged] deletes, for entries that are contents of
    pairwise different fetched rows. *)
Lemma doomed_count (t : table) (old : list string) :
  let rows := tbl_where_type t "experience" 200 in
  well_keyed t -> NoDup (map content rows) -> NoDup old ->
  incl old (map content rows) ->
  let D := doomed (fold_left key_step rows []) old in
  NoDup D /\ List.length D = List.length old /\ incl D (map key t).
Proof.
  intros rows [Hnd Hne] Hc Hold Hin. cbn zeta.
  induction old as [|e old IH].
  - cbn. repeat split; [constructor|intros k []].
  - inversion Hold as [|? ? He Hold']; subst.
    destruct IH as (IH1 & IH2 & IH3); [assumption|
      intros x Hx; apply Hin; now right|].
    assert (Her : In e (map content rows)) by (apply Hin; now left).
    apply in_map_iff in Her. destruct Her as (r & <- & Hr).
    assert (Hrt : In r t) by (apply (tbl_where_type_In t "experience" 200), Hr).
    rewrite doomed_step, content_to_key_get.
    rewrite (last_key_unique rows r Hc Hr).
    rewrite Forall_forall in Hne. pose proof (Hne r Hrt) as Hk.
    apply String.eqb_neq in Hk. rewrite Hk.
    rewrite <- app_comm_cons, app_nil_l. cbn [List.length].
    repeat split.
    + constructor; [|exact IH1]. intros Hdup.
      apply doomed_source in Hdup. destruct Hdup as (r' & Hr' & Hc' & Hk').
      assert (r' = r).
      { apply (NoDup_map_In_inj key t); try assumption.
        apply (tbl_where_type_In t "experience" 200), Hr'. }
      subst r'. contradiction.
    + now rewrite IH2.
    + intros k [<-|Hk']; [now apply in_map|now apply IH3].
Qed.

Lemma merged_content_lines (task category : string) (quality : Z)
  (lessons : string) :
  one_line task -> one_line category ->
  lines (merged_content task category quality lessons) =
  ("[Task] " ++ task) :: "[Outcome] success" :: ("[Category] " ++ category) ::
  ("[Quality] " ++ str quality) :: lines ("[Lessons] " ++ lessons).
Proof.
  intros Ht Hc. unfold merged_content.
  replace ("[Task] " ++ task ++ nl ++ "[Outcome] success" ++ nl ++
           "[Category] " ++ category ++ nl ++ "[Quality] " ++ str quality ++
           nl ++ "[Lessons] " ++ lessons)
    with (("[Task] " ++ task) ++ nl ++ "[Outcome] success" ++ nl ++
          ("[Category] " ++ category) ++ nl ++
          ("[Quality] " ++ str quality) ++ nl ++ "[Lessons] " ++ lessons)
    by (rewrite !append_assoc; reflexivity).
  rewrite !lines_cons; try reflexivity;
    apply one_line_prefixed; auto using str_one_line; reflexivity.
Qed.

(** X21: merging a candidate group.  When the fetched experience rows
    hold pairwise different contents, keys are distinct and not empty and
    the key of the merged record is new, [merge_group] on a group that
    [get_merge_candidates] returned, with an answer that names a task and
    lessons and a quality that [int] accepts, deletes the records of the
    first six entries of the group and stores one record in their place:
    the store shrinks by two rows at least and five at most.  The new
    record carries the extracted quality clamped to 1..5 and, for a task
    and a category of one line, the outcome "success". *)
Theorem merge_group_replaces (llm : list string -> option extraction)
  (now : Z) (t : table) (g : list string) (result : extraction)
  (quality : Z) :
  well_keyed t ->
  NoDup (map content (tbl_where_type t "experience" 200)) ->
  ~ In ("experience_merged_" ++ isoformat now) (map key t) ->
  In g (get_merge_candidates t 5) ->
  llm (firstn 6 g) = Some result ->
  get_or (x_task result) "" <> "" -> get_or (x_lessons result) "" <> "" ->
  clamp_quality (x_quality result) 5 = Some quality ->
  let merged :=
    merged_content (get_or (x_task result) "")
      (get_or (x_category result) "general") quality
      (get_or (x_lessons result) "") in
  let t' := merge_group llm now t g in
  rows_with_key t' ("experience_merged_" ++ isoformat now) =
    [mkRow ("experience_merged_" ++ isoformat now) merged "experience"
       (isoformat now)] /\
  (List.length t' + Nat.min 6 (List.length g) = List.length t + 1)%nat /\
  (3 <= List.length g)%nat /\
  (forall r, In r t ->
     (In r t' <->
      ~ (In r (tbl_where_type t "experience" 200) /\
         In (content r) (firstn 6 g)))) /\
  (1 <= quality <= 5)%Z /\
  (one_line (get_or (x_task result) "") ->
   one_line (get_or (x_category result) "general") ->
   _parse_quality merged = quality /\
   _parse_field merged "Outcome" = "success").
Proof.
  intros Hwk Hc Hfresh Hg Hllm Htask Hlessons Hq merged t'.
  set (rows := tbl_where_type t "experience" 200) in *.
  set (old := firstn 6 g).
  destruct (candidates_are_members t 5 g Hg) as (cat & Hmem & Hlen).
  assert (Hnd_g : NoDup g).
  { rewrite Hmem. unfold members, fetched_active. fold rows.
    apply distinct_images_filter, distinct_images_filter, Hc. }
  assert (Hold_nd : NoDup old).
  { unfold old. rewrite <- (map_id (firstn 6 g)).
    apply distinct_images_firstn. rewrite map_id. exact Hnd_g. }
  assert (Hold_in : incl old (map content rows)).
  { intros e He. apply In_firstn in He. rewrite Hmem in He.
    unfold members in He. apply in_map_iff in He.
    destruct He as (r & <- & Hr). apply filter_In in Hr. destruct Hr as [Hr _].
    unfold fetched_active in Hr. apply filter_In in Hr. destruct Hr as [Hr _].
    now apply in_map. }
  destruct (doomed_count t old Hwk Hc Hold_nd Hold_in) as (HD1 & HD2 & HD3).
  fold rows in HD1, HD2, HD3.
  set (D := doomed (fold_left key_step rows []) old) in *.
  assert (Ht' : t' =
            (filter (fun r => negb (key_in D r)) t ++
             [mkRow ("experience_merged_" ++ isoformat now) merged "experience"
                (isoformat now)])%list).
  { unfold t', merge_group. rewrite Hllm.
    apply String.eqb_neq in Htask, Hlessons. rewrite Htask, Hlessons, Hq.
    cbn [orb]. fold merged old. apply replace_merged_closed. }
  assert (Hrange : (1 <= quality <= 5)%Z).
  { destruct (x_quality result); simpl in Hq; try discriminate;
      injection Hq as <-; lia. }
  split; [|split; [|split; [exact Hlen|split; [|split; [exact Hrange|]]]]].
  - rewrite Ht', rows_with_key_app.
    assert (Hnone : rows_with_key (filter (fun r => negb (key_in D r)) t)
                      ("experience_merged_" ++ isoformat now) = []).
    { apply filter_none. intros x Hx. apply filter_In in Hx.
      destruct Hx as [Hx _].
      unfold has_key. apply String.eqb_neq. intros E. apply Hfresh.
      rewrite <- E. now apply in_map. }
    rewrite Hnone, app_nil_l. unfold rows_with_key, has_key. cbn [filter key].
    rewrite String.eqb_refl. reflexivity.
  - rewrite Ht', length_app. cbn [List.length].
    pose proof (filter_split_length (key_in D) t) as Hs.
    pose proof (keyed_rows_perm t D (proj1 Hwk) HD1 HD3) as Hp.
    apply Permutation_length in Hp. rewrite length_map in Hp.
    assert (Hn : List.length old = Nat.min 6 (List.length g)).
    { unfold old. apply length_firstn. }
    lia.
  - intros r Hr. rewrite Ht'. rewrite in_app_iff, filter_In.
    rewrite negb_true_iff, <- not_true_iff_false, key_in_spec.
    assert (Hnew : r <> mkRow ("experience_merged_" ++ isoformat now) merged
                          "experience" (isoformat now)).
    { intros E. apply Hfresh. apply (f_equal key) in E. cbn [key] in E.
      rewrite <- E. now apply in_map. }
    assert (Hmain : In (key r) D <-> In r rows /\ In (content r) old).
    { split.
      - intros H. apply doomed_source in H.
        destruct H as (r' & Hr' & Hc' & Hk').
        assert (r' = r).
        { apply (NoDup_map_In_inj key t); try assumption; [apply Hwk|].
          apply (tbl_where_type_In t "experience" 200), Hr'. }
        subst r'. auto.
      - intros [Hrows Hold]. unfold D, doomed. apply in_flat_map.
        exists (content r). split; [exact Hold|].
        rewrite content_to_key_get, (last_key_unique rows r Hc Hrows).
        destruct Hwk as [_ Hne]. rewrite Forall_forall in Hne.
        pose proof (Hne r Hr) as Hk. apply String.eqb_neq in Hk.
        rewrite Hk. now left. }
    split.
    + intros [[_ Hn]|[E|[]]]; [|symmetry in E; contradiction].
      intros H. apply Hn, Hmain, H.
    + intros Hn. left. split; [exact Hr|]. intros H. apply Hn, Hmain, H.
  - intros H1 H2.
    pose proof (merged_content_lines (get_or (x_task result) "")
                  (get_or (x_category result) "general") quality
                  (get_or (x_lessons result) "") H1 H2) as El.
    fold merged in El. split.
    + unfold _parse_quality, _parse_int_field. rewrite El.
      cbn [parse_int_lines].
      replace (startswith ("[Task] " ++ get_or (x_task result) "")
                 (tag "Quality")) with false by reflexivity.
      replace (startswith "[Outcome] success" (tag "Quality")) with false
        by reflexivity.
      replace (startswith ("[Category] " ++ get_or (x_category result) "general")
                 (tag "Quality")) with false by reflexivity.
      apply (parse_int_lines_hit "Quality" quality 3). reflexivity.
    + unfold _parse_field. rewrite El. cbn [parse_field_lines].
      replace (startswith ("[Task] " ++ get_or (x_task result) "")
                 (tag "Outcome")) with false by reflexivity.
      reflexivity.
Qed.

End SelfMatch.

(** *** Instances *)

#[local] Existing Instance demo_platform.

Lemma failed_experience_is_deprecated_witness :
  rows_with_key
    (_summarize_experience 7 (appended 2)
       (Some (mkExtraction false (Some "deploy docker image")
                (Some "check the registry first") (Some "failed")
                (IntValue 9) None None))
       1 [])
    "experience_7" =
  [mkRow "experience_7"
     ("[Deprecated] " ++
      experience_content "deploy docker image" "failed"
        "check the registry first" 5 "general" "" "")
     "experience" "7"].
Proof.
  refine (proj1 (failed_experience_is_deprecated 7 (appended 2)
                   "deploy docker image" "check the registry first"
                   (IntValue 9) 5 None None 1 [] _ _ _ _ _ _ _ _ _)).
  - apply keys_distinct_sound. vm_compute. reflexivity.
  - vm_compute. intros [H|[H|[H|[]]]]; discriminate.
  - vm_compute. lia.
  - discriminate.
  - discriminate.
  - reflexivity.
  - vm_compute. discriminate.
  - reflexivity.
  - vm_compute. reflexivity.
Defined.

Lemma clean_success_counts_itself_witness :
  exists r',
    rows_with_key
      (_summarize_experience 7 (appended 2)
         (Some (mkExtraction false (Some "deploy docker image")
                  (Some "check the registry first") (Some "success")
                  IntAbsent (Some "config") None))
         0 ["look at the registry"])
      "experience_7" = [r'] /\
    _parse_int_field (content r') "Uses" 0 = 1%Z /\
    _parse_int_field (content r') "Successes" 0 = 1%Z /\
    _parse_quality (content r') = 3%Z.
Proof.
  destruct (clean_success_counts_itself 7 (appended 2)
              "deploy docker image" "check the registry first" "success"
              IntAbsent 3 (Some "config") None ["look at the registry"])
    as (r' & Hrows & _ & Hu & Hs & Hq & _).
  - apply keys_distinct_sound. vm_compute. reflexivity.
  - vm_compute. intros [H|[H|[H|[]]]]; discriminate.
  - vm_compute. lia.
  - discriminate.
  - discriminate.
  - reflexivity.
  - vm_compute. discriminate.
  - discriminate.
  - reflexivity.
  - reflexivity.
  - reflexivity.
  - reflexivity.
  - vm_compute. reflexivity.
  - exists r'. split; [exact Hrows|]. split; [exact Hu|].
    split; [exact Hs|exact Hq].
Defined.

(** With 100 experiences stored the new record is the 101st: the
    reinforcement does not fetch it, and it keeps [uses] 0. *)
Example clean_success_past_100 :
  let t' :=
    _summarize_experience 100 (appended 100)
      (Some (mkExtraction false (Some "deploy docker image")
               (Some "check the registry first") (Some "success")
               IntAbsent (Some "config") None))
      0 [] in
  map (fun r => _parse_int_field (content r) "Uses" 0)
    (rows_with_key t' "experience_100") = [0%Z].
Proof. vm_compute. reflexivity. Qed.

(** A model that always proposes the same merged record. *)
Definition merging_model (entries : list string) : option extraction :=
  Some (mkExtraction false (Some "fix bugs") (Some "read the trace first")
          None (IntValue 7) (Some "coding") None).

Lemma merge_group_replaces_witness :
  let g := members "coding" (fetched_active (varied 5)) in
  (List.length (merge_group merging_model 1000 (varied 5) g) +
   Nat.min 6 (List.length g) = List.length (varied 5) + 1)%nat.
Proof.
  intros g.
  refine (proj1 (proj2 (merge_group_replaces merging_model 1000 (varied 5) g
                          (mkExtraction false (Some "fix bugs")
                             (Some "read the trace first") None (IntValue 7)
                             (Some "coding") None)
                          5 _ _ _ _ _ _ _ _))).
  - apply keys_distinct_sound. vm_compute. reflexivity.
  - apply contents_distinct_sound. vm_compute. reflexivity.
  - vm_compute. intros [H|[H|[H|[H|[H|[H|[]]]]]]]; discriminate.
  - vm_compute. left. reflexivity.
  - reflexivity.
  - discriminate.
  - discriminate.
  - reflexivity.
Defined.

End LearningFacts.

(* ================================================================== *)
(** ** Sessions, consolidation, progress and models *)
(* ================================================================== *)

Module SessionFacts.
Import Session.

Lemma slice_last {A} (l : list A) (n : Z) :
  (0 < n)%Z -> slice l (Some (- n)%Z) None = lastn (Z.to_nat n) l.
Proof.
  intros Hn. unfold slice, clip, lastn.
  replace (- n <? 0)%Z with true by (symmetry; apply Z.ltb_lt; lia).
  replace (Z.to_nat (Z.of_nat (List.length l) + - n))
    with (List.length l - Z.to_nat n)%nat by lia.
  apply firstn_all2. rewrite length_skipn. lia.
Qed.

Lemma slice_all {A} (l : list A) : slice l (Some 0%Z) None = l.
Proof.
  unfold slice, clip. simpl. rewrite Nat.sub_0_r. apply firstn_all.
Qed.

(** X13: [get_history] hands over the last [max_messages] messages of the
    session, in order and stripped to role, content and the tool fields.
    A bound of 0 does not mean none: it hands over every message. *)
Theorem get_history_window (s : session) (max_messages : Z) :
  ((0 < max_messages)%Z ->
   get_history s max_messages =
     map entry_of (lastn (Z.to_nat max_messages) (messages s)) /\
   List.length (get_history s max_messages) =
     Nat.min (Z.to_nat max_messages) (List.length (messages s))) /\
  get_history s 0 = map entry_of (messages s) /\
  (forall role content timestamp tools_used,
     (0 < max_messages)%Z ->
     exists earlier,
       get_history (add_message s role content timestamp tools_used)
         max_messages =
       (earlier ++ [mkEntry role content None None None])%list).
Proof.
  split; [|split].
  - intros Hn. unfold get_history. rewrite slice_last by exact Hn.
    split; [reflexivity|]. rewrite length_map. unfold lastn.
    rewrite length_skipn. lia.
  - unfold get_history. simpl Z.opp. rewrite slice_all. reflexivity.
  - intros role content timestamp tools_used Hn. unfold get_history.
    rewrite slice_last by exact Hn. unfold add_message, lastn. cbn [messages].
    rewrite length_app. cbn [List.length].
    rewrite skipn_app.
    replace (List.length (messages s) + 1 - Z.to_nat max_messages -
             List.length (messages s))%nat with 0%nat by lia.
    cbn [skipn]. rewrite map_app. eexists. reflexivity.
Qed.

End SessionFacts.

Module ConsolidationFacts.
Import Memory MemoryFacts StoreFacts Session Consolidation.

Lemma slice_between {A} (l : list A) (lo keep : Z) :
  (0 <= lo)%Z -> (0 < keep)%Z ->
  slice l (Some lo) (Some (- keep)%Z) =
  firstn (List.length l - Z.to_nat keep - Z.to_nat lo) (skipn (Z.to_nat lo) l).
Proof.
  intros Hlo Hkeep. unfold slice, clip.
  replace (lo <? 0)%Z with false by (symmetry; apply Z.ltb_ge; lia).
  replace (- keep <? 0)%Z with true by (symmetry; apply Z.ltb_lt; lia).
  replace (Z.to_nat (Z.of_nat (List.length l) + - keep))
    with (List.length l - Z.to_nat keep)%nat by lia.
  destruct (Nat.le_ge_cases (Z.to_nat lo) (List.length l)) as [H|H].
  - rewrite Nat.min_l by exact H. reflexivity.
  - rewrite Nat.min_r by exact H.
    replace (List.length l - Z.to_nat keep - List.length l)%nat with 0%nat by lia.
    replace (List.length l - Z.to_nat keep - Z.to_nat lo)%nat with 0%nat by lia.
    reflexivity.
Qed.

Lemma slice_to_zero {A} (l : list A) (lo : Z) :
  (0 <= lo)%Z -> slice l (Some lo) (Some (- 0)%Z) = [].
Proof.
  intros Hlo. unfold slice, clip. simpl Z.opp.
  replace (lo <? 0)%Z with false by (symmetry; apply Z.ltb_ge; lia).
  simpl. reflexivity.
Qed.

Lemma window_parts (memory_window : Z) (s : session)
  (old_messages : list stored_message) (keep_count : Z) :
  (0 <= last_consolidated s)%Z -> (2 <= memory_window)%Z ->
  window memory_window false s = Some (old_messages, keep_count) ->
  keep_count = (memory_window / 2)%Z /\
  old_messages <> [] /\
  messages s =
    (firstn (Z.to_nat (last_consolidated s)) (messages s) ++ old_messages ++
     lastn (Z.to_nat keep_count) (messages s))%list /\
  (last_consolidated s + Z.of_nat (List.length old_messages) + keep_count =
   Z.of_nat (List.length (messages s)))%Z.
Proof.
  intros Hlc Hw. unfold window.
  set (keep := (memory_window / 2)%Z).
  assert (Hkeep : (0 < keep)%Z).
  { unfold keep. apply Z.div_str_pos. lia. }
  set (n := List.length (messages s)).
  destruct (Z.of_nat n <=? keep)%Z eqn:E1; [discriminate|].
  destruct (Z.of_nat n - last_consolidated s <=? 0)%Z eqn:E2; [discriminate|].
  apply Z.leb_gt in E1, E2.
  rewrite slice_between by lia. fold n.
  set (lo := Z.to_nat (last_consolidated s)).
  destruct (firstn (n - Z.to_nat keep - lo) (skipn lo (messages s)))
    as [|m rest] eqn:Eold; [discriminate|].
  intros [= <- <-]. split; [reflexivity|]. split; [discriminate|].
  assert (Hlen : (0 < n - Z.to_nat keep - lo)%nat).
  { destruct (n - Z.to_nat keep - lo)%nat; [discriminate|lia]. }
  assert (Hsize : List.length (m :: rest) = (n - Z.to_nat keep - lo)%nat).
  { rewrite <- Eold, length_firstn, length_skipn. fold n. lia. }
  split.
  - rewrite <- Eold. unfold lastn. fold n.
    rewrite <- (firstn_skipn lo (messages s)) at 1. f_equal.
    rewrite <- (firstn_skipn (n - Z.to_nat keep - lo) (skipn lo (messages s)))
      at 1.
    f_equal. rewrite skipn_skipn. f_equal. unfold lo. lia.
  - rewrite Hsize. fold n. unfold lo. lia.
Qed.

(** X14: the part of a session that a consolidation summarizes.  With a
    memory window of at least 2, the messages split into those before the
    mark, the ones summarized now, which are not empty, and the last
    [memory_window // 2], which are kept for later.  With a memory window
    below 2 nothing is kept, and then nothing is ever summarized. *)
Theorem consolidation_window (memory_window : Z) (s : session)
  (old_messages : list stored_message) (keep_count : Z) :
  (0 <= last_consolidated s)%Z ->
  ((0 <= memory_window < 2)%Z -> window memory_window false s = None) /\
  ((2 <= memory_window)%Z ->
   window memory_window false s = Some (old_messages, keep_count) ->
   keep_count = (memory_window / 2)%Z /\
   old_messages <> [] /\
   messages s =
     (firstn (Z.to_nat (last_consolidated s)) (messages s) ++ old_messages ++
      lastn (Z.to_nat keep_count) (messages s))%list /\
   (last_consolidated s + Z.of_nat (List.length old_messages) + keep_count =
    Z.of_nat (List.length (messages s)))%Z).
Proof.
  intros Hlc. split.
  - intros Hw. unfold window.
    replace (memory_window / 2)%Z with 0%Z
      by (symmetry; apply Z.div_small; lia).
    destruct (_ <=? 0)%Z; [reflexivity|].
    destruct (_ <=? 0)%Z; [reflexivity|].
    rewrite slice_to_zero by exact Hlc. reflexivity.
  - intros Hw Hwin. apply window_parts; assumption.
Qed.

Section Effect.
Context {platform : Platform}.

(** The row [append_history] adds for an entry. *)
Definition history_row (now : Z) (entry : string) : row :=
  mkRow ("history_" ++ isoformat now) (rstrip entry) "history" (isoformat now).

(** X15: what an answered consolidation leaves behind.  The mark moves to
    the end of the summarized messages plus the messages that arrived
    during the call: those are passed over without having been
    summarized.  The long-term memory reads as the update when the answer
    carries one, and as before otherwise; one history row is added when
    the answer carries an entry; no other row changes.  When the model
    gives nothing to parse, the store and the mark stay as they are. *)
Theorem consolidation_effect
  (llm : string -> string -> option answer) (now1 now2 memory_window : Z)
  (arrived : list stored_message) (s : session) (t : table)
  (old_messages : list stored_message) (keep_count : Z) :
  (0 <= last_consolidated s)%Z -> (2 <= memory_window)%Z ->
  window memory_window false s = Some (old_messages, keep_count) ->
  let shown :=
    if (read_long_term t =? "")%string then "(empty)" else read_long_term t in
  let after :=
    _consolidate_memory llm now1 now2 memory_window false arrived s t in
  messages (fst after) = (messages s ++ arrived)%list /\
  (llm shown (conversation_of old_messages) = None ->
   last_consolidated (fst after) = last_consolidated s /\ snd after = t) /\
  (forall result,
     llm shown (conversation_of old_messages) = Some result ->
     last_consolidated (fst after) =
       (last_consolidated s + Z.of_nat (List.length old_messages) +
        Z.of_nat (List.length arrived))%Z /\
     read_long_term (snd after) =
       match memory_update_of result with
       | Some update =>
           if (update =? "")%string then read_long_term t else update
       | None => read_long_term t
       end /\
     tbl_delete_key (snd after) "long_term" =
       (tbl_delete_key t "long_term" ++
        match history_entry_of result with
        | Some entry =>
            if (entry =? "")%string then [] else [history_row now1 entry]
        | None => []
        end)%list).
Proof.
  intros Hlc Hw Hwin shown after.
  destruct (window_parts memory_window s old_messages keep_count Hlc Hw Hwin)
    as (_ & _ & _ & Hsum).
  unfold after, _consolidate_memory. rewrite Hwin. fold shown.
  destruct (llm shown (conversation_of old_messages)) as [result|].
  2:{ cbn [fst snd messages last_consolidated].
      repeat split; try reflexivity; intros; discriminate. }
  cbn [fst snd messages last_consolidated].
  split; [reflexivity|]. split; [discriminate|].
  intros result' [= <-].
  set (t1 := match history_entry_of result with
             | Some entry =>
                 if (entry =? "")%string then t else append_history now1 t entry
             | None => t
             end).
  set (added := match history_entry_of result with
                | Some entry =>
                    if (entry =? "")%string then [] else [history_row now1 entry]
                | None => []
                end).
  assert (Ht1 : t1 = (t ++ added)%list).
  { unfold t1, added. destruct (history_entry_of result) as [entry|];
      [|symmetry; apply app_nil_r].
    destruct (entry =? "")%string; [symmetry; apply app_nil_r|reflexivity]. }
  assert (Hread1 : read_long_term t1 = read_long_term t).
  { unfold t1. destruct (history_entry_of result) as [entry|]; [|reflexivity].
    destruct (entry =? "")%string; [reflexivity|].
    rewrite !read_long_term_rows. unfold append_history.
    rewrite rows_with_key_add_other; [reflexivity|]. simpl. discriminate. }
  assert (Hdel1 : tbl_delete_key t1 "long_term" =
                  (tbl_delete_key t "long_term" ++ added)%list).
  { rewrite Ht1. unfold tbl_delete_key. rewrite filter_app. f_equal.
    unfold added. destruct (history_entry_of result) as [entry|]; [|reflexivity].
    destruct (entry =? "")%string; reflexivity. }
  split; [rewrite length_app; lia|].
  destruct (memory_update_of result) as [update|]; [|split; assumption].
  destruct (update =? "")%string; [split; assumption|].
  destruct (update =? read_long_term t)%string eqn:Esame.
  - apply String.eqb_eq in Esame. split; [congruence|assumption].
  - split; [apply read_after_write|].
    rewrite write_long_term_others. exact Hdel1.
Qed.

End Effect.

(** *** Instances *)

#[local] Existing Instance MemoryFacts.demo_platform.

(** A session of [n] user messages. *)
Definition chat_of (n : nat) : session :=
  fold_left
    (fun s i =>
       add_message s "user" ("message " ++ str (Z.of_nat i))
         "2026-01-01T10:00:00" [])
    (seq 0 n) (mkSession [] 0 false).

Lemma consolidation_window_witness :
  let s := chat_of 6 in
  messages s =
  (firstn 0 (messages s) ++ firstn 4 (messages s) ++ lastn 2 (messages s))%list.
Proof.
  intros s.
  refine (proj1 (proj2 (proj2
            (proj2 (consolidation_window 4 s (firstn 4 (messages s)) 2 _) _ _)))).
  - vm_compute. discriminate.
  - lia.
  - vm_compute. reflexivity.
Defined.

Definition summarizing_model (current_memory conversation : string)
  : option answer :=
  Some (mkAnswer (Some "[2026-01-01 10:00] tea was discussed")
          (Some "likes tea")).

Lemma consolidation_effect_witness :
  let s := chat_of 6 in
  let late := [mkStored "user" "one more" None [] None None None] in
  let after :=
    _consolidate_memory summarizing_model 1 2 4 false late s _SAMPLE in
  last_consolidated (fst after) = 5%Z /\
  read_long_term (snd after) = "likes tea".
Proof.
  intros s late after.
  destruct (consolidation_effect summarizing_model 1 2 4 late s _SAMPLE
              (firstn 4 (messages s)) 2)
    as (_ & _ & H).
  - vm_compute. discriminate.
  - lia.
  - vm_compute. reflexivity.
  - destruct (H (mkAnswer (Some "[2026-01-01 10:00] tea was discussed")
                   (Some "likes tea")) eq_refl)
      as (Hmark & Hread & _).
    split; [exact Hmark|exact Hread].
Defined.

End ConsolidationFacts.

Module ProgressFacts.
Import MemoryFacts Progress.

(** A call of [_should_send_progress]. *)
Record call : Type := mkCall {
  c_now : Q;
  c_channel : string;
  c_chat_id : string;
  c_content : string
}.

Definition target (c : call) : string :=
  destination (c_channel c) (c_chat_id c).

(** The calls that are let through, from the log [log] on. *)
Fixpoint delivered (log : progress_log) (calls : list call) : list call :=
  match calls with
  | [] => []
  | c :: rest =>
      let (ok, log') :=
        _should_send_progress log (c_now c) (c_channel c) (c_chat_id c)
          (c_content c) in
      if ok then c :: delivered log' rest else delivered log' rest
  end.

(** [b] may follow a message with content [last_content] sent at
    [last_time]. *)
Definition spaced (last_content : string) (last_time : Q) (b : call) : Prop :=
  c_content b <> last_content /\
  (_progress_min_interval <= c_now b - last_time)%Q.

Lemma should_send_spec (log : progress_log) (c : call) :
  let r := _should_send_progress log (c_now c) (c_channel c) (c_chat_id c)
             (c_content c) in
  (fst r = true ->
   (forall k, Dict.get (snd r) k =
              if (target c =? k)%string then Some (c_content c, c_now c)
              else Dict.get log k) /\
   (forall last_content last_time,
      Dict.get log (target c) = Some (last_content, last_time) ->
      spaced last_content last_time c)) /\
  (fst r = false -> snd r = log).
Proof.
  unfold _should_send_progress. fold (target c).
  destruct (Dict.get log (target c)) as [[last_content last_time]|] eqn:E.
  - destruct (c_content c =? last_content)%string eqn:Ec;
      [cbn; split; [discriminate|reflexivity]|].
    destruct (Qltb (c_now c - last_time) _progress_min_interval) eqn:Et;
      [cbn; split; [discriminate|reflexivity]|].
    cbn. split; [|discriminate]. intros _. split.
    + intros k. apply get_set.
    + intros lc lt [= <- <-]. split.
      * now apply String.eqb_neq.
      * apply Qnot_lt_le. intros H. apply Qltb_lt in H. congruence.
  - cbn. split; [|discriminate]. intros _. split.
    + intros k. apply get_set.
    + discriminate.
Qed.

(** The first message let through to a destination respects what the log
    holds for it, and so does every later one with respect to the message
    let through before it to the same destination. *)
Lemma delivered_spaced (calls : list call) :
  forall log : progress_log,
    (forall pre b post last_content last_time,
       delivered log calls = (pre ++ b :: post)%list ->
       (forall m, In m pre -> target m <> target b) ->
       Dict.get log (target b) = Some (last_content, last_time) ->
       spaced last_content last_time b) /\
    (forall pre a mid b post,
       delivered log calls = (pre ++ a :: mid ++ b :: post)%list ->
       target a = target b ->
       (forall m, In m mid -> target m <> target b) ->
       spaced (c_content a) (c_now a) b).
Proof.
  induction calls as [|c rest IH]; intros log.
  - split; intros; destruct pre; discriminate.
  - cbn [delivered].
    destruct (should_send_spec log c) as [Hyes Hno].
    destruct (_should_send_progress log (c_now c) (c_channel c) (c_chat_id c)
                (c_content c)) as [ok log'].
    cbn [fst snd] in *. destruct ok.
    + destruct (Hyes eq_refl) as [Hlog Hfirst].
      destruct (IH log') as [IH1 IH2]. split.
      * intros pre b post lc lt Heq Hpre Hget.
        destruct pre as [|x pre]; cbn in Heq; injection Heq as Hx Heq.
        -- subst b. eapply Hfirst, Hget.
        -- subst x. apply (IH1 pre b post lc lt Heq).
           ++ intros m Hm. apply Hpre. now right.
           ++ rewrite Hlog.
              destruct (target c =? target b)%string eqn:E; [|exact Hget].
              apply String.eqb_eq in E. exfalso.
              apply (Hpre c); [now left|exact E].
      * intros pre a mid b post Heq Hab Hmid.
        destruct pre as [|x pre]; cbn in Heq; injection Heq as Hx Heq.
        -- subst a. apply (IH1 mid b post (c_content c) (c_now c) Heq Hmid).
           rewrite Hlog, Hab, String.eqb_refl. reflexivity.
        -- apply (IH2 pre a mid b post Heq Hab Hmid).
    + rewrite (Hno eq_refl). apply IH.
Qed.

(** X16: progress messages are throttled per destination.  Of the calls
    that [_should_send_progress] lets through, starting from an empty log,
    any two in a row to the same destination differ in content and lie at
    least two seconds apart; the first one to a destination always goes
    through. *)
Theorem progress_is_throttled (calls : list call) :
  (forall pre a mid b post,
     delivered [] calls = (pre ++ a :: mid ++ b :: post)%list ->
     target a = target b ->
     (forall m, In m mid -> target m <> target b) ->
     c_content b <> c_content a /\ (2 <= c_now b - c_now a)%Q) /\
  (forall pre c post,
     calls = (pre ++ c :: post)%list ->
     (forall m, In m pre -> target m <> target c) ->
     In c (delivered [] calls)).
Proof.
  split.
  - intros pre a mid b post Heq Hab Hmid.
    apply (proj2 (delivered_spaced calls []) pre a mid b post Heq Hab Hmid).
  - assert (G : forall (calls : list call) (log : progress_log) pre c post,
               calls = (pre ++ c :: post)%list ->
               (forall m, In m pre -> target m <> target c) ->
               Dict.get log (target c) = None ->
               In c (delivered log calls)).
    { clear. induction calls as [|x rest IH]; intros log pre c post Heq Hpre Hget.
      - destruct pre; discriminate.
      - cbn [delivered].
        destruct (should_send_spec log x) as [Hyes Hno].
        destruct pre as [|y pre]; cbn in Heq; injection Heq as Hx Heq.
        + subst x. unfold _should_send_progress in *. fold (target c) in *.
          rewrite Hget. now left.
        + subst y.
          destruct (_should_send_progress log (c_now x) (c_channel x)
                      (c_chat_id x) (c_content x)) as [ok log'].
          cbn [fst snd] in *.
          assert (Hlog' : Dict.get log' (target c) = None).
          { destruct ok.
            - destruct (Hyes eq_refl) as [Hlog _]. rewrite Hlog.
              destruct (target x =? target c)%string eqn:E; [|exact Hget].
              apply String.eqb_eq in E. exfalso.
              apply (Hpre x); [now left|exact E].
            - rewrite (Hno eq_refl). exact Hget. }
          assert (Hin : In c (delivered log' rest)).
          { apply (IH log' pre c post Heq); [|exact Hlog'].
            intros m Hm. apply Hpre. now right. }
          destruct ok; [now right|exact Hin]. }
    intros pre c post Heq Hpre. apply (G calls [] pre c post Heq Hpre).
    reflexivity.
Qed.

End ProgressFacts.

Module ModelsFacts.
Import Models.

Definition listed (st : model_state) : Prop :=
  In (model st) (available_models st).

Lemma switch_model_spec (st : model_state) (idx : Z) :
  let n := Z.of_nat (List.length (available_models st)) in
  available_models (fst (_switch_model st idx)) = available_models st /\
  ((1 <= idx <= n)%Z ->
   nth_error (available_models st) (Z.to_nat (idx - 1)) =
     Some (model (fst (_switch_model st idx))) /\
   snd (_switch_model st idx) = Switched (model (fst (_switch_model st idx)))) /\
  ((idx < 1 \/ n < idx)%Z ->
   _switch_model st idx = (st, Invalid (List.length (available_models st)))).
Proof.
  intros n. unfold _switch_model. fold n.
  destruct (idx <? 1)%Z eqn:E1; cbn [orb].
  - apply Z.ltb_lt in E1. repeat split; try reflexivity; lia.
  - apply Z.ltb_ge in E1. destruct (n <? idx)%Z eqn:E2.
    + apply Z.ltb_lt in E2. repeat split; try reflexivity; lia.
    + apply Z.ltb_ge in E2.
      destruct (nth_error (available_models st) (Z.to_nat (idx - 1)))
        as [m|] eqn:En.
      * cbn. repeat split; try reflexivity. lia.
      * apply nth_error_None in En. unfold n in E2. lia.
Qed.

(** X17: the model in use is always one of the listed models.  After
    [__init__] with a model name, and after any sequence of
    [_switch_model] calls, the current model is in [available_models],
    which the switches do not change; an index outside 1..n changes
    nothing, and an index within selects the entry at that place. *)
Theorem model_stays_listed (name default_model : string)
  (available : list string) (indices : list Z) :
  name <> "" \/ default_model <> "" ->
  let st0 := init name default_model available in
  let st := fold_left (fun st idx => fst (_switch_model st idx)) indices st0 in
  listed st /\ available_models st = available_models st0 /\
  (forall idx,
     (idx < 1 \/ Z.of_nat (List.length (available_models st)) < idx)%Z ->
     fst (_switch_model st idx) = st) /\
  (forall idx,
     (1 <= idx <= Z.of_nat (List.length (available_models st)))%Z ->
     nth_error (available_models st) (Z.to_nat (idx - 1)) =
       Some (model (fst (_switch_model st idx)))).
Proof.
  intros Hname st0 st.
  assert (H0 : listed st0).
  { unfold st0, init, listed.
    set (m := if (name =? "")%string then default_model else name).
    assert (Hm : m <> "").
    { unfold m. destruct (name =? "")%string eqn:E; [|now apply String.eqb_neq].
      apply String.eqb_eq in E. destruct Hname; congruence. }
    apply String.eqb_neq in Hm. rewrite Hm. cbn [model available_models].
    destruct (existsb (String.eqb m) available) eqn:Ex; [|now left].
    apply existsb_exists in Ex. destruct Ex as (x & Hx & Ex).
    apply String.eqb_eq in Ex. now subst x. }
  assert (H : listed st /\ available_models st = available_models st0).
  { unfold st. revert H0. generalize st0 as s0. clear.
    induction indices as [|idx indices IH]; intros s0 H0; [auto|].
    cbn [fold_left].
    destruct (switch_model_spec s0 idx) as (Hav & Hin & Hout).
    destruct (IH (fst (_switch_model s0 idx))) as [IH1 IH2].
    - unfold listed. rewrite Hav.
      destruct (Z_lt_ge_dec idx 1) as [H1|H1];
        [rewrite Hout by lia; exact H0|].
      destruct (Z_lt_ge_dec (Z.of_nat (List.length (available_models s0))) idx)
        as [H2|H2]; [rewrite Hout by lia; exact H0|].
      destruct Hin as [Hn _]; [lia|]. eapply nth_error_In, Hn.
    - split; [exact IH1|]. rewrite IH2. exact Hav. }
  destruct H as [H1 H2]. split; [exact H1|]. split; [exact H2|].
  split; intros idx Hidx; destruct (switch_model_spec st idx) as (_ & Hin & Hout).
  - rewrite Hout by exact Hidx. reflexivity.
  - apply Hin, Hidx.
Qed.

Lemma model_stays_listed_witness :
  listed
    (fold_left (fun st idx => fst (_switch_model st idx)) [2; 7]%Z
       (init "small" "" ["large"; "medium"])).
Proof.
  refine (proj1 (model_stays_listed "small" "" ["large"; "medium"] [2; 7]%Z _)).
  left. discriminate.
Defined.

End ModelsFacts.

(* ================================================================== *)
(** ** More about the loop *)
(* ================================================================== *)

Module LoopFacts.
Import Agent AgentFacts PyStrFacts.

(** The names of the tool messages of a message list, in order. *)
Fixpoint tool_names (ms : list message) : list string :=
  match ms with
  | [] => []
  | ToolMsg _ name _ :: ms' => name :: tool_names ms'
  | _ :: ms' => tool_names ms'
  end.

Definition count_errors (results : list string) : nat :=
  List.length (filter has_error results).

(** The bookkeeping of the loop agrees with the messages it has added to
    the ones it started from. *)
Definition accounted (initial : list message) (st : loop_state) : Prop :=
  exists app,
    messages st = (initial ++ app)%list /\
    tools_used st = tool_names app /\
    List.length (tool_trace st) = List.length (tool_results app) /\
    List.length (tools_used st) = List.length (tool_results app) /\
    total_errors st = Z.of_nat (count_errors (tool_results app)) /\
    List.length (failed_directions st) = count_errors (tool_results app) /\
    (0 <= consecutive_errors st <= total_errors st)%Z /\
    (last_state_at st <= List.length (tool_trace st))%nat.

Lemma tool_names_app (a b : list message) :
  tool_names (a ++ b) = (tool_names a ++ tool_names b)%list.
Proof.
  induction a as [|m a IH]; simpl; [reflexivity|].
  destruct m; simpl; rewrite ?IH; reflexivity.
Qed.

Lemma count_errors_snoc (rs : list string) (r : string) :
  count_errors (rs ++ [r]) =
  (count_errors rs + if has_error r then 1 else 0)%nat.
Proof.
  unfold count_errors. rewrite filter_app, length_app. simpl.
  destruct (has_error r); reflexivity.
Qed.

Section Accounting.
Context {world : World}.
Variable initial : list message.

Lemma accounted_user (st : loop_state) (text : string) :
  accounted initial st -> accounted initial (add_message st (UserMsg text)).
Proof.
  intros (app & Hm & Hu & Ht & Hl & He & Hf & Hc & Hs).
  exists (app ++ [UserMsg text])%list. cbn.
  rewrite tool_names_app, tool_results_app. cbn. rewrite !app_nil_r.
  repeat split; try assumption; try lia.
  rewrite Hm. symmetry. apply app_assoc.
Qed.

Lemma accounted_checkpoint (st : loop_state) :
  accounted initial st -> accounted initial (checkpoint st).
Proof.
  intros H. unfold checkpoint.
  destruct (_ && _)%bool; [|assumption].
  destruct (_compress_state _ _ _ _) as [state|]; [|assumption].
  destruct (state =? "")%string; [assumption|].
  destruct H as (app & Hm & Hu & Ht & Hl & He & Hf & Hc & Hs).
  eexists (app ++ [UserMsg _])%list. cbn.
  rewrite tool_names_app, tool_results_app. cbn. rewrite !app_nil_r.
  repeat split; try assumption; try lia.
  rewrite Hm. symmetry. apply app_assoc.
Qed.

Lemma accounted_sufficiency (u : string) (st : loop_state) :
  accounted initial st -> accounted initial (sufficiency u st).
Proof.
  intros H. unfold sufficiency.
  destruct (_ && _)%bool; [|assumption].
  destruct (_check_sufficiency _ _); [|assumption].
  apply accounted_user, H.
Qed.

Lemma accounted_report (b : bool) (r : LLMResponse) (st : loop_state) :
  accounted initial st -> accounted initial (report_progress b r st).
Proof.
  intros H. unfold report_progress. destruct b; [|assumption].
  destruct (_strip_think _); exact H.
Qed.

Lemma accounted_assistant (st : loop_state) (c : option string)
  (tcs : list ToolCallRequest) (rc : option string) :
  accounted initial st ->
  accounted initial (add_message st (AssistantMsg c tcs rc)).
Proof.
  intros (app & Hm & Hu & Ht & Hl & He & Hf & Hc & Hs).
  exists (app ++ [AssistantMsg c tcs rc])%list. cbn.
  rewrite tool_names_app, tool_results_app. cbn. rewrite !app_nil_r.
  repeat split; try assumption; try lia.
  rewrite Hm. symmetry. apply app_assoc.
Qed.

Lemma accounted_run_tool (st : loop_state) (tc : ToolCallRequest) :
  accounted initial st -> accounted initial (run_tool st tc).
Proof.
  intros (app & Hm & Hu & Ht & Hl & He & Hf & Hc & Hs).
  set (result := execute (messages st) tc).
  exists (app ++ [ToolMsg (tc_id tc) (tc_name tc) result])%list.
  unfold run_tool. fold result.
  cbn [messages tools_used tool_trace total_errors failed_directions
       consecutive_errors last_state_at].
  rewrite tool_names_app, tool_results_app.
  cbn [tool_names tool_results].
  rewrite !length_app, count_errors_snoc. cbn [List.length].
  split; [rewrite app_assoc; f_equal; exact Hm|].
  split; [f_equal; exact Hu|].
  destruct (has_error result); rewrite ?length_app; cbn [List.length];
    repeat split; lia.
Qed.

Lemma accounted_run_tools (tcs : list ToolCallRequest) (st : loop_state) :
  accounted initial st -> accounted initial (run_tools st tcs).
Proof.
  revert st. induction tcs as [|tc tcs IH]; intros st H; simpl; [assumption|].
  apply IH, accounted_run_tool, H.
Qed.

Lemma accounted_feedback (st : loop_state) :
  accounted initial st -> accounted initial (inject_feedback st).
Proof.
  intros H. unfold inject_feedback.
  destruct (error_feedback st) as [text|]; [|assumption].
  destruct (text =? "")%string; [assumption|]. apply accounted_user, H.
Qed.

Lemma accounted_iterate (b : bool) (u : string) (st : loop_state) :
  accounted initial st -> accounted initial (fst (iterate b u st)).
Proof.
  intros H. unfold iterate.
  set (st1 := sufficiency u (checkpoint (set_iteration st _))).
  assert (H1 : accounted initial st1).
  { apply accounted_sufficiency, accounted_checkpoint. exact H. }
  destruct (has_tool_calls _); simpl; [|exact H1].
  unfold tool_round.
  apply accounted_feedback, accounted_run_tools, accounted_assistant,
    accounted_report, H1.
Qed.

Lemma accounted_run (fuel : nat) (max_iterations : Z) (b : bool) (u : string)
  (st st' : loop_state) :
  accounted initial st -> run fuel max_iterations b u st = Some st' ->
  accounted initial st'.
Proof.
  revert st. induction fuel as [|fuel IH]; intros st H; simpl.
  - destruct (_ <? _)%Z; [discriminate|]. intros [= <-]. exact H.
  - destruct (_ <? _)%Z; [|intros [= <-]; exact H].
    pose proof (accounted_iterate b u st H) as Hi.
    destruct (iterate b u st) as [st1 stop]. simpl in Hi.
    destruct stop; [intros [= <-]; exact Hi|]. apply IH, Hi.
Qed.

End Accounting.

(** X18: the agent loop always returns, and what it returns is consistent
    with the messages it appended to the initial ones: [tools_used] lists
    the names of the tool messages in order, [tool_trace] has one entry
    for each, [total_errors] is the number of tool results classified as
    errors, one failed direction was recorded for each of them, and the
    streak of consecutive errors is never negative nor above the total. *)
Theorem loop_accounts_for_tools {world : World} (max_iterations : Z)
  (initial_messages : list message) (on_progress : bool) :
  exists st app,
    _run_agent_loop max_iterations initial_messages on_progress = Some st /\
    messages st = (initial_messages ++ app)%list /\
    tools_used st = tool_names app /\
    List.length (tool_trace st) = List.length (tools_used st) /\
    total_errors st = Z.of_nat (count_errors (tool_results app)) /\
    List.length (failed_directions st) = count_errors (tool_results app) /\
    (0 <= consecutive_errors st <= total_errors st)%Z /\
    (total_errors st <= Z.of_nat (List.length (tools_used st)))%Z.
Proof.
  unfold _run_agent_loop.
  destruct (run_enough (Z.to_nat max_iterations) max_iterations on_progress
              (user_request_of initial_messages)
              (initial_state initial_messages)) as (st & Hrun & _).
  { simpl. lia. }
  assert (H0 : accounted initial_messages (initial_state initial_messages)).
  { exists []. cbn. rewrite app_nil_r. repeat split; lia. }
  destruct (accounted_run initial_messages _ _ _ _ _ _ H0 Hrun)
    as (app & Hm & Hu & Ht & Hl & He & Hf & Hc & Hs).
  exists st, app. repeat split; try assumption; try lia.
  rewrite He, Hl. unfold count_errors.
  pose proof (filter_length_le has_error (tool_results app)). lia.
Qed.

(** *** The messages of a round *)

Definition tool_message (p : ToolCallRequest * string) : message :=
  ToolMsg (tc_id (fst p)) (tc_name (fst p)) (snd p).

Lemma error_feedback_nonempty (st : loop_state) (text : string) :
  error_feedback st = Some text -> text <> "".
Proof.
  unfold error_feedback.
  destruct (3 <=? consecutive_errors st)%Z; [intros [= <-]; discriminate|].
  destruct (0 <? consecutive_errors st)%Z; [intros [= <-]; discriminate|].
  discriminate.
Qed.

Section Rounds.
Context {world : World}.

Lemma run_tools_messages (tcs : list ToolCallRequest) :
  forall st : loop_state,
    exists results,
      List.length results = List.length tcs /\
      messages (run_tools st tcs) =
        (messages st ++ map tool_message (combine tcs results))%list /\
      ((0 <= consecutive_errors st)%Z ->
       (0 <= consecutive_errors (run_tools st tcs))%Z /\
       (tcs <> [] ->
        (consecutive_errors (run_tools st tcs) = 0%Z <->
         has_error (last results "") = false))).
Proof.
  induction tcs as [|tc rest IH]; intros st.
  - exists []. cbn. rewrite app_nil_r. repeat split; try assumption; congruence.
  - destruct (IH (run_tool st tc)) as (results & Hlen & Hm & Hc).
    set (result := execute (messages st) tc) in *.
    exists (result :: results). cbn [run_tools fold_left].
    fold (run_tools (run_tool st tc) rest).
    split; [cbn; now rewrite Hlen|].
    split.
    { rewrite Hm. cbn [run_tool messages]. fold result.
      rewrite <- app_assoc. reflexivity. }
    intros H0.
    assert (H1 : (0 <= consecutive_errors (run_tool st tc))%Z).
    { cbn [run_tool consecutive_errors].
      destruct (has_error (execute (messages st) tc)); lia. }
    destruct (Hc H1) as [Hge Hiff]. split; [exact Hge|]. intros _.
    destruct rest as [|tc' rest].
    + destruct results; [|discriminate]. cbn [run_tools fold_left last].
      cbn [run_tool consecutive_errors]. fold result.
      destruct (has_error result); split; intros; try reflexivity;
        try discriminate; exfalso; lia.
    + destruct results as [|r' results]; [discriminate|].
      change (last (result :: r' :: results) "")
        with (last (r' :: results) "").
      apply Hiff. discriminate.
Qed.

(** X19: a round with tool calls appends the assistant message, then one
    tool message for each tool call, in the order of the calls and with
    the id and the name of its call, then at most one feedback message.
    The feedback is there exactly when the result of the last tool call
    of the round is classified as an error. *)
Theorem tool_round_messages (on_progress : bool) (response : LLMResponse)
  (st : loop_state) :
  (0 <= consecutive_errors st)%Z ->
  exists results feedback,
    List.length results = List.length (resp_tool_calls response) /\
    messages (tool_round on_progress response st) =
      (messages st ++
       AssistantMsg (resp_content response) (resp_tool_calls response)
         (resp_reasoning_content response) ::
       map tool_message (combine (resp_tool_calls response) results) ++
       feedback)%list /\
    (feedback = [] \/ exists text, text <> "" /\ feedback = [UserMsg text]) /\
    (resp_tool_calls response <> [] ->
     (feedback = [] <-> has_error (last results "") = false)).
Proof.
  intros H0. unfold tool_round.
  set (st1 := add_message (report_progress on_progress response st)
                (AssistantMsg (resp_content response)
                   (resp_tool_calls response)
                   (resp_reasoning_content response))).
  assert (Hm1 : messages st1 =
                (messages st ++
                 [AssistantMsg (resp_content response)
                    (resp_tool_calls response)
                    (resp_reasoning_content response)])%list).
  { unfold st1, report_progress. destruct on_progress; [|reflexivity].
    destruct (_strip_think _); reflexivity. }
  assert (Hc1 : consecutive_errors st1 = consecutive_errors st).
  { unfold st1, report_progress. destruct on_progress; [|reflexivity].
    destruct (_strip_think _); reflexivity. }
  destruct (run_tools_messages (resp_tool_calls response) st1)
    as (results & Hlen & Hm & Hc).
  rewrite Hc1 in Hc. destruct (Hc H0) as [Hge Hiff].
  set (st2 := run_tools st1 (resp_tool_calls response)) in *.
  exists results.
  unfold inject_feedback.
  pose proof (error_feedback_nonempty st2) as Hne.
  assert (Hnone : error_feedback st2 = None <-> consecutive_errors st2 = 0%Z).
  { unfold error_feedback.
    destruct (3 <=? consecutive_errors st2)%Z eqn:E3.
    - apply Z.leb_le in E3. split; [discriminate|lia].
    - destruct (0 <? consecutive_errors st2)%Z eqn:E0.
      + apply Z.ltb_lt in E0. split; [discriminate|lia].
      + apply Z.ltb_ge in E0. split; [lia|reflexivity]. }
  destruct (error_feedback st2) as [text|].
  - specialize (Hne text eq_refl). apply String.eqb_neq in Hne as Hne'.
    rewrite Hne'. exists [UserMsg text]. split; [exact Hlen|]. split.
    + cbn [add_message messages]. rewrite Hm, Hm1.
      rewrite <- !app_assoc. reflexivity.
    + split; [right; exists text; auto|].
      intros Hcalls. split; [discriminate|].
      intros He. apply (Hiff Hcalls) in He. apply Hnone in He. discriminate.
  - exists []. split; [exact Hlen|]. split.
    + rewrite Hm, Hm1, app_nil_r. rewrite <- !app_assoc. reflexivity.
    + split; [now left|]. intros Hcalls. split; [|reflexivity].
      intros _. apply (Hiff Hcalls), Hnone. reflexivity.
Qed.

End Rounds.

(** *** [_strip_think] *)

Lemma rstrip_cons (c : ascii) (s : string) :
  rstrip (String c s) =
  match rstrip s with
  | "" => if is_space c then "" else String c ""
  | t => String c t
  end.
Proof. reflexivity. Qed.

Lemma rstrip_twice (s : string) : rstrip (rstrip s) = rstrip s.
Proof.
  induction s as [|c s IH]; [reflexivity|]. rewrite rstrip_cons.
  destruct (rstrip s) as [|d t] eqn:E.
  - destruct (is_space c) eqn:Ec; [reflexivity|].
    rewrite rstrip_cons. cbn [rstrip]. rewrite Ec. reflexivity.
  - rewrite rstrip_cons, IH. reflexivity.
Qed.

Lemma rstrip_head (c : ascii) (s : string) :
  is_space c = false -> exists r, rstrip (String c s) = String c r.
Proof.
  intros Hc. rewrite rstrip_cons. destruct (rstrip s).
  - rewrite Hc. eauto.
  - eauto.
Qed.

Lemma lstrip_head (s : string) :
  lstrip s = "" \/ exists c r, lstrip s = String c r /\ is_space c = false.
Proof.
  induction s as [|c s IH]; [now left|]. cbn [lstrip].
  destruct (is_space c) eqn:E; [exact IH|]. right. eauto.
Qed.

Lemma strip_twice (s : string) : strip (strip s) = strip s.
Proof.
  unfold strip. destruct (lstrip_head s) as [->|(c & r & -> & Hc)];
    [reflexivity|].
  destruct (rstrip_head c r Hc) as [r' E]. rewrite E.
  cbn [lstrip]. rewrite Hc. rewrite <- E. apply rstrip_twice.
Qed.

Lemma strip_think_plain (t : string) :
  contains "<think>" t = false -> strip_think_go 0 t = t.
Proof.
  induction t as [|c t IH]; [reflexivity|]. intros H.
  cbn [contains] in H. apply orb_false_iff in H. destruct H as [Hp Hc].
  cbn [strip_think_go]. rewrite Hp, (IH Hc). reflexivity.
Qed.

(** X20: what [_strip_think] returns is never an empty or blank string:
    it is [None], or a text that is not empty and has no white space at
    its ends.  A text without a "<think>" tag is only stripped. *)
Theorem strip_think_normal (text : option string) :
  (forall r, _strip_think text = Some r -> r <> "" /\ strip r = r) /\
  (forall t, text = Some t -> contains "<think>" t = false ->
     _strip_think text = if (strip t =? "")%string then None else Some (strip t)).
Proof.
  split.
  - intros r H. destruct text as [t|]; [|discriminate].
    unfold _strip_think in H. destruct t as [|c t]; [discriminate|].
    destruct (strip (strip_think_go 0 (String c t))) as [|d u] eqn:E;
      [discriminate|].
    injection H as <-. split; [discriminate|].
    rewrite <- E. apply strip_twice.
  - intros t -> Hplain. unfold _strip_think.
    destruct t as [|c t]; [reflexivity|].
    rewrite (strip_think_plain _ Hplain).
    destruct (strip (String c t)); reflexivity.
Qed.

(** *** Error classification *)

Lemma lower_ascii_twice (c : ascii) : lower_ascii (lower_ascii c) = lower_ascii c.
Proof. destruct c as [[] [] [] [] [] [] [] []]; reflexivity. Qed.

Lemma lower_twice (s : string) : lower (lower s) = lower s.
Proof.
  induction s as [|c s IH]; [reflexivity|]. simpl.
  now rewrite lower_ascii_twice, IH.
Qed.

(** X22: the classification of a tool result as an error does not depend
    on the case of its letters, and a result that holds a text classified
    as an error is classified as an error itself. *)
Theorem error_marks_spread :
  (forall s, has_error (lower s) = has_error s) /\
  (forall before s after,
     has_error s = true -> has_error (before ++ s ++ after) = true).
Proof.
  split.
  - intros s. unfold has_error. now rewrite lower_twice.
  - intros before s after H. unfold has_error in *.
    apply existsb_exists in H. destruct H as (kw & Hkw & Hc).
    apply existsb_exists. exists kw. split; [exact Hkw|].
    rewrite !LearningFacts.lower_app.
    apply LearningFacts.contains_app_r, LearningFacts.contains_app_l, Hc.
Qed.

Lemma tool_round_messages_witness :
  let response := @chat demo_world [UserMsg "hi"] in
  exists results feedback,
    List.length results = 5%nat /\
    messages (@tool_round demo_world false response
                (initial_state [UserMsg "hi"])) =
      ([UserMsg "hi"] ++
       AssistantMsg (resp_content response) (resp_tool_calls response)
         (resp_reasoning_content response) ::
       map tool_message (combine (resp_tool_calls response) results) ++
       feedback)%list /\
    (feedback = [] <-> has_error (last results "") = false).
Proof.
  intros response.
  destruct (@tool_round_messages demo_world false response
              (initial_state [UserMsg "hi"]))
    as (results & feedback & Hlen & Hm & _ & Hiff).
  - vm_compute. discriminate.
  - exists results, feedback. split; [exact Hlen|]. split; [exact Hm|].
    apply Hiff. discriminate.
Defined.

End LoopFacts.
